(** * watchthreads-reorder.c: the orchestrator of the watchpoint fixture

    A shallow embedding of gdb/testsuite/gdb.threads/watchthreads-reorder.c.
    A thread is modelled as a program in a state-and-outcome monad over a
    [world]; every answer of the operating system (clock readings,
    trylock results, the contents of /proc files, the identifiers the
    worker threads publish) is taken from an [environment], indexed by the
    number of interactions the thread has made so far.  The functions of
    the file are first given as they run in one thread; the process, in
    which the exit handler of a worker clears the [tracer] that the main
    thread reads, is the interleaving [process] of the main thread, cut
    into its calls, with the worker routines.  *)

From Stdlib Require Import ZArith Ascii String Bool Lia Arith List.
From Stdlib Require Import DecimalString.
Import ListNotations.

Local Open Scope Z_scope.

(** ** C strings

    A value of type [char *] is the list of the characters before its
    terminating NUL.  A raw buffer (what [fgets] stored) may hold NUL
    bytes read from the file; [cstr] is what the string functions see
    of it.  *)

Module CString.

Definition NUL : ascii := "000"%char.
Definition TAB : ascii := "009"%char.
Definition NL  : ascii := "010"%char.

Definition lit (s : string) : list ascii := list_ascii_of_string s.

Fixpoint cstr (buf : list ascii) : list ascii :=
  match buf with
  | [] => []
  | c :: r => if Ascii.eqb c NUL then [] else c :: cstr r
  end.

Definition strlen (s : list ascii) : nat := length s.

(** [strchr s c]: the offset of the first [c] in [s], [None] for NULL. *)
Fixpoint strchr (s : list ascii) (c : ascii) : option nat :=
  match s with
  | [] => None
  | d :: r => if Ascii.eqb d c then Some O
              else match strchr r c with
                   | Some i => Some (S i)
                   | None => None
                   end
  end.

Fixpoint list_eqb (a b : list ascii) : bool :=
  match a, b with
  | [], [] => true
  | x :: a', y :: b' => Ascii.eqb x y && list_eqb a' b'
  | _, _ => false
  end.

(** [strcmp a b == 0] and [strncmp a b n == 0]. *)
Definition strcmp_eq (a b : list ascii) : bool := list_eqb a b.
Definition strncmp_eq (a b : list ascii) (n : nat) : bool :=
  list_eqb (firstn n a) (firstn n b).

End CString.
Import CString.

(** ** The C library, as far as the program uses it *)

Module Libc.

(** Values of <stdlib.h>, <errno.h> on Linux. *)
Definition EXIT_SUCCESS : Z := 0.
Definition EXIT_FAILURE : Z := 1.
Definition EBUSY : Z := 16.
Definition ERANGE : Z := 34.

(** [int] and [pid_t] are 32 bits wide; an out-of-range value converts
    modulo 2^32 (the only conversion is [tracer = proc_ulong (...)]). *)
Definition to_int (z : Z) : Z := (z + 2147483648) mod 4294967296 - 2147483648.

(** An open stream: the bytes still to be delivered, the [errno] of the
    read error that strikes once they are used up (0: a clean end of
    file), and the [errno] that [fclose] fails with (0: it succeeds). *)
Record FILE := {
  f_data : list ascii;
  f_readerr : Z;
  f_closeerr : Z
}.

Inductive stop := AtNewline | AtFull | AtEnd.

(** Store at most [k] characters, up to and including the first newline. *)
Fixpoint fgets_read (k : nat) (data : list ascii) : list ascii * list ascii * stop :=
  match k with
  | O => ([], data, AtFull)
  | S k' =>
      match data with
      | [] => ([], [], AtEnd)
      | c :: r =>
          if Ascii.eqb c NL then ([c], r, AtNewline)
          else let '(l, r', why) := fgets_read k' r in (c :: l, r', why)
      end
  end.

(** [fgets (buf, n, f)]: the buffer (NULL is [None]), the unread rest of
    the stream and the value of [errno], which the caller has zeroed. *)
Definition fgets (n : nat) (data : list ascii) (readerr : Z)
  : option (list ascii) * list ascii * Z :=
  let '(chunk, rest, why) := fgets_read (n - 1) data in
  match why with
  | AtEnd =>
      if negb (readerr =? 0) then (None, rest, readerr)
      else match chunk with
           | [] => (None, rest, 0)
           | _ => (Some chunk, rest, 0)
           end
  | _ => (Some chunk, rest, 0)
  end.

Definition isspace (c : ascii) : bool :=
  let n := Z.of_N (N_of_ascii c) in
  (n =? 32) || ((9 <=? n) && (n <=? 13)).

Definition digit (c : ascii) : option Z :=
  let n := Z.of_N (N_of_ascii c) in
  if (48 <=? n) && (n <=? 57) then Some (n - 48) else None.

Fixpoint skip_space (s : list ascii) : list ascii :=
  match s with
  | c :: r => if isspace c then skip_space r else s
  | [] => []
  end.

Fixpoint digits (acc : Z) (s : list ascii) : Z * list ascii :=
  match s with
  | c :: r =>
      match digit c with
      | Some d => digits (10 * acc + d) r
      | None => (acc, s)
      end
  | [] => (acc, [])
  end.

(** The subject sequence of [strtol (s, &end, 10)]: white space, an
    optional sign, decimal digits.  [Some (v, e)] is the exact value of
    the number read and what follows it; [None] when no digit is there
    (no conversion is performed). *)
Definition strtol_exact (s : list ascii) : option (Z * list ascii) :=
  let s1 := skip_space s in
  let '(neg, s2) :=
    match s1 with
    | c :: r => if Ascii.eqb c "-" then (true, r)
                else if Ascii.eqb c "+" then (false, r)
                else (false, s1)
    | [] => (false, s1)
    end in
  match s2 with
  | c :: _ =>
      match digit c with
      | Some _ => let '(v, e) := digits 0 s2 in Some (if neg then - v else v, e)
      | None => None
      end
  | [] => None
  end.

(** [strtol (s, &end, 10)] for a [long] of maximum [long_max]: the value
    returned, [end], and [errno] (zeroed by the caller). *)
Definition strtol (long_max : Z) (s : list ascii) : Z * list ascii * Z :=
  match strtol_exact s with
  | None => (0, s, 0)
  | Some (v, e) =>
      if v >? long_max then (long_max, e, ERANGE)
      else if v <? - long_max - 1 then (- long_max - 1, e, ERANGE)
      else (v, e, 0)
  end.

(** [%lu] *)
Definition decimal (z : Z) : list ascii :=
  lit (NilEmpty.string_of_uint (N.to_uint (Z.to_N z))).

End Libc.
Import Libc.

(** ** The world of the main thread *)

Inductive mutex := gdbstop_mutex | thread1_tid_mutex | thread2_tid_mutex | terminate_mutex.
Inductive cond := thread1_tid_cond | thread2_tid_cond.
Inductive thread := thread1 | thread2.
Inductive signal := SIGSTOP | SIGCONT.
Inductive stream := stdout | stderr.

Record timespec := { tv_sec : Z; tv_nsec : Z }.

(** The answers of the operating system and of the other threads.  The
    [nat] is the number of interactions the thread has made before the
    call, so that a call repeated later may be answered differently. *)
Record environment := {
  LONG_MAX : Z;                        (* <limits.h> *)
  LINE_MAX : nat;                      (* <limits.h> *)
  os_getpid : Z;
  os_getppid : Z;
  os_gettid : Z;                       (* of the running thread *)
  os_clock_gettime : nat -> Z * timespec;
  os_mutex_trylock : nat -> mutex -> Z;
  os_mutex_unlock : nat -> mutex -> Z;
  os_cond_wait : nat -> cond -> option Z;     (* [None]: never returns *)
  os_create : nat -> thread -> Z;
  os_join : nat -> thread -> option Z;        (* [None]: never returns *)
  os_kill : nat -> Z -> signal -> Z;
  os_sched_yield : nat -> Z;
  os_asprintf : nat -> bool;                  (* the allocation succeeds *)
  os_fopen : nat -> list ascii -> Z + FILE;   (* [inl errno]: NULL *)
  (* thread1_func and thread2_func store gettid () once *)
  worker1_tid : Z;  worker1_published : nat;
  worker2_tid : Z;  worker2_published : nat
}.

(** The text of every [printf], [fprintf] and [perror] of the file. *)
Inductive message :=
| MsgLockTimeout
| MsgFopen (filename line : list ascii) (errno : Z)
| MsgFclose (filename line : list ascii) (errno : Z)
| MsgFgets (filename : list ascii) (errno : Z)
| MsgNoLine (filename line : list ascii)
| MsgUlong (filename line : list ascii) (retval errno : Z)
| MsgSchedYield (errno : Z)
| MsgStateTimeout (process : Z) (wanted state : list ascii)
| MsgResuming (pid : Z)
| MsgMustRunByGDB
| MsgParentMustBeTracer
| MsgStopping (pid : Z)
| MsgWaitingTids
| MsgTids (t1 t2 pid : Z)
| MsgWaitingTrap
| MsgJoining
| MsgExiting.

(** What the thread does to the outside, in program order.  [EvLock] and
    [EvUnlock] are calls that returned 0; [EvTracer] is a store to the
    volatile [tracer]; [EvStateWait] marks the return of [state_wait]. *)
Inductive event :=
| EvPrint (s : stream) (m : message)
| EvLock (m : mutex)
| EvUnlock (m : mutex)
| EvCreate (t : thread)
| EvJoin (t : thread)
| EvCondWait (c : cond) (m : mutex)
| EvKill (pid : Z) (sig : signal)
| EvTracer (v : Z)
| EvAtexit
| EvStateWait (process : Z) (wanted : list ascii).

Record world := {
  ticks : nat;              (* interactions so far *)
  tracer : Z;               (* static volatile pid_t tracer = 0 *)
  atexit_cleanup : bool;    (* atexit (cleanup) was called *)
  trace : list event
}.

Definition initial_world : world :=
  {| ticks := O; tracer := 0; atexit_cleanup := false; trace := [] |}.

(** How a call ends when it does not return: [exit (status)], [abort ()]
    from a failed [assert], a call that blocks for ever, or a polling
    loop of the model cut off by its fuel. *)
Inductive halt := Exit (status : Z) | Abort | Hang | OutOfFuel.

Inductive outcome (A : Type) := Ret (a : A) | Stop (h : halt).
Arguments Ret {A} a.
Arguments Stop {A} h.

Definition M (A : Type) : Type := world -> outcome A * world.

Definition ret {A} (a : A) : M A := fun w => (Ret a, w).

Definition bind {A B} (m : M A) (k : A -> M B) : M B :=
  fun w => match m w with
           | (Ret a, w') => k a w'
           | (Stop h, w') => (Stop h, w')
           end.

Declare Scope prog_scope.
Delimit Scope prog_scope with prog.
Notation "x <- c1 ;; c2" := (bind c1 (fun x => c2))
  (at level 61, c1 at next level, right associativity) : prog_scope.
Notation "c1 ;; c2" := (bind c1 (fun _ => c2))
  (at level 61, right associativity) : prog_scope.
Local Open Scope prog_scope.

Definition halt_with {A} (h : halt) : M A := fun w => (Stop h, w).

Definition emit (e : event) : M unit :=
  fun w => (Ret tt, {| ticks := ticks w; tracer := tracer w;
                       atexit_cleanup := atexit_cleanup w;
                       trace := trace w ++ [e] |}).

(** One interaction with the environment. *)
Definition ask {A} (f : nat -> A) : M A :=
  fun w => (Ret (f (ticks w)),
            {| ticks := S (ticks w); tracer := tracer w;
               atexit_cleanup := atexit_cleanup w; trace := trace w |}).

Definition assert (b : bool) : M unit :=
  if b then ret tt else halt_with Abort.

(** A read of [tracer], of which there is one for the process: the
    thread finds in its world what was stored last, by itself or, in
    [process], by the exit handler that a worker ran in between. *)
Definition load_tracer : M Z := fun w => (Ret (tracer w), w).

Definition store_tracer (v : Z) : M unit :=
  fun w => (Ret tt, {| ticks := ticks w; tracer := v;
                       atexit_cleanup := atexit_cleanup w;
                       trace := trace w ++ [EvTracer v] |}).

Definition atexit : M unit :=
  fun w => (Ret tt, {| ticks := ticks w; tracer := tracer w;
                       atexit_cleanup := true;
                       trace := trace w ++ [EvAtexit] |}).

Definition printf (m : message) : M unit := emit (EvPrint stdout m).
Definition fprintf (s : stream) (m : message) : M unit := emit (EvPrint s m).

(** ** The program *)

Section Program.

Variable env : environment.

(** [(unsigned long) x] *)
Definition to_ulong (z : Z) : Z := z mod (2 * LONG_MAX env + 2).

Definition clock_gettime : M (Z * timespec) := ask (os_clock_gettime env).

Definition pthread_mutex_trylock (m : mutex) : M Z :=
  i <- ask (fun n => os_mutex_trylock env n m) ;;
  if i =? 0 then emit (EvLock m) ;; ret i else ret i.

Definition pthread_mutex_unlock (m : mutex) : M Z :=
  i <- ask (fun n => os_mutex_unlock env n m) ;;
  if i =? 0 then emit (EvUnlock m) ;; ret i else ret i.

Definition pthread_create (t : thread) : M Z :=
  i <- ask (fun n => os_create env n t) ;;
  if i =? 0 then emit (EvCreate t) ;; ret i else ret i.

Definition pthread_join (t : thread) : M Z :=
  r <- ask (fun n => os_join env n t) ;;
  match r with
  | None => halt_with Hang
  | Some i => if i =? 0 then emit (EvJoin t) ;; ret i else ret i
  end.

Definition pthread_cond_wait (c : cond) (m : mutex) : M Z :=
  r <- ask (fun n => os_cond_wait env n c) ;;
  match r with
  | None => halt_with Hang
  | Some i => if i =? 0 then emit (EvCondWait c m) ;; ret i else ret i
  end.

Definition kill (pid : Z) (sig : signal) : M Z :=
  emit (EvKill pid sig) ;;
  ask (fun n => os_kill env n pid sig).

Definition sched_yield : M Z := ask (os_sched_yield env).

(** The worker's store [threadN_tid = gettid ()], seen from this thread. *)
Definition thread1_tid : M Z :=
  ask (fun n => if (worker1_published env <=? n)%nat then worker1_tid env else 0).

Definition thread2_tid : M Z :=
  ask (fun n => if (worker2_published env <=? n)%nat then worker2_tid env else 0).

(** [#define TIMEOUT (gettid () == getpid() ? 10 : 15)] *)
Definition TIMEOUT : Z := if os_gettid env =? os_getpid env then 10 else 15.

(** [cleanup], lines 240-255. *)
Definition cleanup : M unit :=
  t <- load_tracer ;;
  printf (MsgResuming (to_ulong t)) ;;
  t <- load_tracer ;;
  if negb (t =? 0) then
    tracer_save <- load_tracer ;;
    store_tracer 0 ;;
    i <- kill tracer_save SIGCONT ;;
    assert (i =? 0)
  else ret tt.

(** [exit (status)] runs the handler registered by [atexit (cleanup)]. *)
Definition exit {A} (status : Z) : M A :=
  fun w => if atexit_cleanup w
           then (cleanup ;; halt_with (Exit status)) w
           else (Stop (Exit status), w).

(** [timed_mutex_lock], lines 61-84; [fuel] bounds the turns of the
    do-while loop. *)
Fixpoint timed_mutex_lock_loop (fuel : nat) (m : mutex) (start : timespec) : M unit :=
  match fuel with
  | O => halt_with OutOfFuel
  | S fuel' =>
      i <- pthread_mutex_trylock m ;;
      if i =? 0 then ret tt
      else
        assert (i =? EBUSY) ;;
        r <- clock_gettime ;;
        let '(i, now) := r in
        assert (i =? 0) ;;
        assert (tv_sec now >=? tv_sec start) ;;
        if tv_sec now - tv_sec start <? TIMEOUT
        then timed_mutex_lock_loop fuel' m start
        else fprintf stderr MsgLockTimeout ;; exit EXIT_FAILURE
  end.

Definition timed_mutex_lock (fuel : nat) (m : mutex) : M unit :=
  r <- clock_gettime ;;
  let '(i, start) := r in
  assert (i =? 0) ;;
  timed_mutex_lock_loop fuel m start.

(** [proc_string], lines 136-177: the while loop over the lines of the
    stream, [data] being what is still unread.  Each turn either leaves
    the function or consumes a character, so [S (length data)] turns
    suffice. *)
Fixpoint proc_string_loop (turns : nat) (f : FILE) (data : list ascii)
  (filename line : list ascii) : M (list ascii) :=
  match turns with
  | O => halt_with OutOfFuel
  | S turns' =>
      match fgets (LINE_MAX env) data (f_readerr f) with
      | (Some buf, data', _) =>
          match strchr (cstr buf) NL with
          | None => halt_with Abort                 (* assert (s != NULL) *)
          | Some s =>
              let buf := firstn s (cstr buf) in     (* *s = 0 *)
              if negb (strncmp_eq buf line (strlen line))
              then proc_string_loop turns' f data' filename line
              else if negb (f_closeerr f =? 0)
              then fprintf stderr (MsgFclose filename line (f_closeerr f)) ;;
                   exit EXIT_FAILURE
              else ret (skipn (strlen line) buf)
          end
      | (None, _, errno) =>
          if negb (errno =? 0)
          then fprintf stderr (MsgFgets filename errno) ;; exit EXIT_FAILURE
          else fprintf stderr (MsgNoLine filename line) ;; exit EXIT_FAILURE
      end
  end.

Definition proc_string (filename line : list ascii) : M (list ascii) :=
  f <- ask (fun n => os_fopen env n filename) ;;
  match f with
  | inl errno => fprintf stderr (MsgFopen filename line errno) ;; exit EXIT_FAILURE
  | inr f => proc_string_loop (S (length (f_data f))) f (f_data f) filename line
  end.

(** [proc_ulong], lines 179-195; [end] is never NULL. *)
Definition proc_ulong (filename line : list ascii) : M Z :=
  s <- proc_string filename line ;;
  let '(retval, e, errno) := strtol (LONG_MAX env) s in
  if (retval <? 0) || (retval >=? LONG_MAX env) || negb (strlen e =? 0)%nat
  then fprintf stderr (MsgUlong filename line retval errno) ;; exit EXIT_FAILURE
  else ret retval.

Definition proc_status (process : Z) : list ascii :=
  lit "/proc/" ++ decimal (to_ulong process) ++ lit "/status".

(** [state_wait], lines 197-235. *)
Fixpoint state_wait_loop (fuel : nat) (process : Z) (wanted filename : list ascii)
  (start : timespec) : M unit :=
  match fuel with
  | O => halt_with OutOfFuel
  | S fuel' =>
      state <- proc_string filename (lit "State:" ++ [TAB]) ;;
      if strcmp_eq state wanted then emit (EvStateWait process wanted)
      else
        y <- sched_yield ;;
        if negb (y =? 0) then fprintf stderr (MsgSchedYield y) ;; exit EXIT_FAILURE
        else
          r <- clock_gettime ;;
          let '(i, now) := r in
          assert (i =? 0) ;;
          assert (tv_sec now >=? tv_sec start) ;;
          if tv_sec now - tv_sec start <? TIMEOUT
          then state_wait_loop fuel' process wanted filename start
          else fprintf stderr (MsgStateTimeout (to_ulong process) wanted state) ;;
               exit EXIT_FAILURE
  end.

Definition state_wait (fuel : nat) (process : Z) (wanted : list ascii) : M unit :=
  ok <- ask (os_asprintf env) ;;
  assert ok ;;
  r <- clock_gettime ;;
  let '(i, start) := r in
  assert (i =? 0) ;;
  state_wait_loop fuel process wanted (proc_status process) start.

Definition tracing_stop : list ascii := lit "T (tracing stop)".

(** [main], lines 263-266: 1 for standalone mode, 0 otherwise. *)
Definition main_args (argv : list (list ascii)) : M Z :=
  let argc := Z.of_nat (length argv) in
  if (argc =? 2) && strcmp_eq (nth 1 argv []) (lit "-s") then ret 1
  else assert (argc =? 1) ;; ret 0.

(** Lines 268-278. *)
Definition main_start (fuel : nat) : M unit :=
  timed_mutex_lock fuel gdbstop_mutex ;;
  timed_mutex_lock fuel terminate_mutex ;;
  i <- pthread_create thread1 ;;
  assert (i =? 0) ;;
  i <- pthread_create thread2 ;;
  assert (i =? 0).

(** Lines 280-293. *)
Definition main_tracer (standalone : Z) : M unit :=
  if standalone =? 0 then
    v <- proc_ulong (lit "/proc/self/status") (lit "TracerPid:" ++ [TAB]) ;;
    store_tracer (to_int v) ;;
    t <- load_tracer ;;
    if t =? 0 then fprintf stderr MsgMustRunByGDB ;; exit EXIT_FAILURE
    else
      t <- load_tracer ;;
      if negb (t =? os_getppid env)
      then fprintf stderr MsgParentMustBeTracer ;; exit EXIT_FAILURE
      else ret tt
  else ret tt.

(** Lines 298-347: up to the confirmation that both threads are trapped. *)
Definition main_rendezvous (fuel : nat) : M unit :=
  atexit ;;
  t <- load_tracer ;;
  printf (MsgStopping (to_ulong t)) ;;
  t <- load_tracer ;;
  (if negb (t =? 0) then
     t <- load_tracer ;;
     i <- kill t SIGSTOP ;;
     assert (i =? 0) ;;
     t <- load_tracer ;;
     state_wait fuel t (lit "T (stopped)")
   else ret tt) ;;
  timed_mutex_lock fuel thread1_tid_mutex ;;
  timed_mutex_lock fuel thread2_tid_mutex ;;
  i <- pthread_mutex_unlock gdbstop_mutex ;;
  assert (i =? 0) ;;
  printf MsgWaitingTids ;;
  t1 <- thread1_tid ;;
  (if t1 =? 0 then
     i <- pthread_cond_wait thread1_tid_cond thread1_tid_mutex ;;
     assert (i =? 0) ;;
     t1 <- thread1_tid ;;
     assert (t1 >? 0)
   else ret tt) ;;
  t2 <- thread2_tid ;;
  (if t2 =? 0 then
     i <- pthread_cond_wait thread2_tid_cond thread2_tid_mutex ;;
     assert (i =? 0) ;;
     t2 <- thread2_tid ;;
     assert (t2 >? 0)
   else ret tt) ;;
  t1 <- thread1_tid ;;
  t2 <- thread2_tid ;;
  printf (MsgTids (to_ulong t1) (to_ulong t2) (to_ulong (os_getpid env))) ;;
  printf MsgWaitingTrap ;;
  t <- load_tracer ;;
  if negb (t =? 0) then
    t1 <- thread1_tid ;;
    state_wait fuel t1 tracing_stop ;;
    t2 <- thread2_tid ;;
    state_wait fuel t2 tracing_stop
  else ret tt.

(** Lines 349-368. *)
Definition main_finish : M Z :=
  cleanup ;;
  printf MsgJoining ;;
  i <- pthread_mutex_unlock terminate_mutex ;;
  assert (i =? 0) ;;
  i <- pthread_join thread1 ;;
  assert (i =? 0) ;;
  i <- pthread_join thread2 ;;
  assert (i =? 0) ;;
  printf MsgExiting ;;
  ret EXIT_SUCCESS.

Definition main (fuel : nat) (argv : list (list ascii)) : M Z :=
  standalone <- main_args argv ;;
  main_start fuel ;;
  main_tracer standalone ;;
  main_rendezvous fuel ;;
  main_finish.

(** The main thread from its start to its end: returning from [main] is
    [exit] with its value.  The workers are composed with it in
    [process]. *)
Definition run (fuel : nat) (argv : list (list ascii)) : M unit :=
  status <- main fuel argv ;;
  exit status.

End Program.

(** ** Vocabulary of the statements *)

(** A text file: every line is followed by a newline. *)
Definition unlines (ls : list (list ascii)) : list ascii :=
  flat_map (fun l => l ++ [NL]) ls.

Definition has (c : ascii) (l : list ascii) : bool := existsb (Ascii.eqb c) l.

(** A line that [fgets] stores whole, newline included, in a buffer of
    [LINE_MAX] bytes, and that holds no NUL byte. *)
Definition text_line (env : environment) (l : list ascii) : bool :=
  negb (has NL l) && negb (has NUL l) && (length l + 2 <=? LINE_MAX env)%nat.

Fixpoint begins_with (prefix l : list ascii) : bool :=
  match prefix, l with
  | [], _ => true
  | a :: p, b :: r => Ascii.eqb a b && begins_with p r
  | _ :: _, [] => false
  end.

(** The lines the scan reads and passes over. *)
Definition passed_over (env : environment) (label : list ascii)
  (ls : list (list ascii)) : bool :=
  forallb (fun l => text_line env l && negb (begins_with label l)) ls.

(** The remainder of the first line that begins with [label]. *)
Fixpoint find_line (label : list ascii) (ls : list (list ascii)) : option (list ascii) :=
  match ls with
  | [] => None
  | l :: r => if begins_with label l then Some (skipn (length label) l)
              else find_line label r
  end.

Definition ticked (w : world) : world := snd (ask (fun _ => tt) w).

(** The world after the interactions up to the [n]-th, nothing else done. *)
Definition at_tick (n : nat) (w : world) : world :=
  {| ticks := n; tracer := tracer w; atexit_cleanup := atexit_cleanup w;
     trace := trace w |}.
Definition logged (e : event) (w : world) : world := snd (emit e w).

(** From world [w] the call prints a diagnostic to the error stream and
    calls [exit (EXIT_FAILURE)]. *)
Definition fails_fatally {A} (env : environment) (w : world)
  (r : outcome A * world) : Prop :=
  exists msg, r = exit env EXIT_FAILURE (logged (EvPrint stderr msg) w).

(** What [strtol] read: the exact value of the number (0 when there is
    none) and the text left after it. *)
Definition parsed_value (s : list ascii) : Z :=
  match strtol_exact s with Some (v, _) => v | None => 0 end.

Definition trailing (s : list ascii) : list ascii :=
  match strtol_exact s with Some (_, e) => e | None => s end.

Definition overflows (env : environment) (s : list ascii) : Prop :=
  parsed_value s > LONG_MAX env \/ parsed_value s < - LONG_MAX env - 1.

(** Nanoseconds from [a] to [b]. *)
Definition elapsed_ns (a b : timespec) : Z :=
  (tv_sec b - tv_sec a) * 1000000000 + (tv_nsec b - tv_nsec a).

Definition valid_timespec (t : timespec) : Prop :=
  0 <= tv_nsec t < 1000000000.

(** The signals of kind [sig] sent in a stretch of the trace. *)
Definition sent (sig : signal) (tr : list event) : nat :=
  length (filter (fun e => match e, sig with
                           | EvKill _ SIGCONT, SIGCONT => true
                           | EvKill _ SIGSTOP, SIGSTOP => true
                           | _, _ => false
                           end) tr).


(** Every event but the release of the Terminate Gate. *)
Definition quiet (e : event) : Prop := e <> EvUnlock terminate_mutex.

(** [steps E keep m]: whatever its outcome, [m] lets the interactions
    only grow and appends to the trace only events in [E]; with [keep],
    if it returns the recorded tracer is what it was. *)
Definition steps (E : event -> Prop) (keep : bool) {A} (m : M A) : Prop :=
  forall w,
    (ticks w <= ticks (snd (m w)))%nat /\
    (exists d, trace (snd (m w)) = trace w ++ d /\ Forall E d) /\
    (keep = true -> (exists a, fst (m w) = Ret a) -> tracer (snd (m w)) = tracer w).




(** ** Scenarios

    Concrete environments on which the statements below are run. *)

Definition status_file (text : list ascii) : FILE :=
  {| f_data := text; f_readerr := 0; f_closeerr := 0 |}.

Definition tracer_pid_label : list ascii := lit "TracerPid:" ++ [TAB].

(** /proc/self/status of a process traced by its parent 77, /proc/77/status
    of the parent once stopped, and the status of the two trapped workers. *)
Definition traced_fs (n : nat) (filename : list ascii) : Z + FILE :=
  if strcmp_eq filename (lit "/proc/self/status") then
    inr (status_file (lit "Name:" ++ [TAB] ++ lit "watchthreads-reorder" ++ [NL]
                      ++ lit "State:" ++ [TAB] ++ lit "R (running)" ++ [NL]
                      ++ tracer_pid_label ++ lit "77" ++ [NL]))
  else if strcmp_eq filename (lit "/proc/77/status") then
    inr (status_file (lit "State:" ++ [TAB] ++ lit "T (stopped)" ++ [NL]))
  else if strcmp_eq filename (lit "/proc/501/status")
          || strcmp_eq filename (lit "/proc/502/status") then
    inr (status_file (lit "Name:" ++ [TAB] ++ lit "watchthreads-reorder" ++ [NL]
                      ++ lit "State:" ++ [TAB] ++ lit "T (tracing stop)" ++ [NL]))
  else inl 2.

Definition traced_env : environment :=
  {| LONG_MAX := 9223372036854775807; LINE_MAX := 2048;
     os_getpid := 500; os_getppid := 77; os_gettid := 500;
     os_clock_gettime := fun n => (0, {| tv_sec := Z.of_nat n; tv_nsec := 0 |});
     os_mutex_trylock := fun _ _ => 0;
     os_mutex_unlock := fun _ _ => 0;
     os_cond_wait := fun _ _ => Some 0;
     os_create := fun _ _ => 0;
     os_join := fun _ _ => Some 0;
     os_kill := fun _ _ _ => 0;
     os_sched_yield := fun _ => 0;
     os_asprintf := fun _ => true;
     os_fopen := traced_fs;
     worker1_tid := 501; worker1_published := 3;
     worker2_tid := 502; worker2_published := 19 |}.

(** The same machine with one file system for every path. *)
Definition env_with_file (f : Z + FILE) : environment :=
  {| LONG_MAX := LONG_MAX traced_env; LINE_MAX := LINE_MAX traced_env;
     os_getpid := 500; os_getppid := 77; os_gettid := 500;
     os_clock_gettime := os_clock_gettime traced_env;
     os_mutex_trylock := fun _ _ => 0;
     os_mutex_unlock := fun _ _ => 0;
     os_cond_wait := fun _ _ => Some 0;
     os_create := fun _ _ => 0;
     os_join := fun _ _ => Some 0;
     os_kill := fun _ _ _ => 0;
     os_sched_yield := fun _ => 0;
     os_asprintf := fun _ => true;
     os_fopen := fun _ _ => f;
     worker1_tid := 501; worker1_published := 3;
     worker2_tid := 502; worker2_published := 19 |}.

(** A one-line file whose [fclose] fails with EIO, and a file whose only
    line is not terminated. *)
Definition close_fails : FILE :=
  {| f_data := lit "x" ++ [NL]; f_readerr := 0; f_closeerr := 5 |}.

Definition unterminated : FILE := status_file (lit "abc").

(** A file whose first line carries the field and whose last line is not
    terminated; a file whose field is the largest [long]. *)
Definition match_then_unterminated : FILE :=
  status_file (lit "L:1" ++ [NL] ++ lit "xyz").

Definition long_max_field : FILE :=
  status_file (tracer_pid_label ++ lit "9223372036854775807" ++ [NL]).

Definition empty_field : FILE :=
  status_file (lit "Name:" ++ [TAB] ++ lit "a" ++ [NL] ++ tracer_pid_label ++ [NL]).

Definition field_4321 : FILE :=
  status_file (lit "Name:" ++ [TAB] ++ lit "a" ++ [NL]
               ++ tracer_pid_label ++ lit "4321" ++ [NL]
               ++ lit "Uid:" ++ [TAB] ++ lit "1000" ++ [NL]).

(** A file in which the line [TracerPid:\t4321] comes after another line
    with the same label, and one in which the line made of the label
    alone does. *)
Definition second_field_4321 : FILE :=
  status_file (tracer_pid_label ++ lit "5" ++ [NL]
               ++ tracer_pid_label ++ lit "4321" ++ [NL]).

Definition second_field_empty : FILE :=
  status_file (tracer_pid_label ++ lit "7" ++ [NL] ++ tracer_pid_label ++ [NL]).

(** A process nobody traces: its status file says [TracerPid:\t0]. *)
Definition untraced_env : environment :=
  env_with_file (inr (status_file (lit "State:" ++ [TAB] ++ lit "R (running)" ++ [NL]
                                   ++ tracer_pid_label ++ lit "0" ++ [NL]))).

(** A lock that is never released, seen by the main thread, with a clock
    that advances one second per interaction. *)
Definition contended_env : environment :=
  {| LONG_MAX := LONG_MAX traced_env; LINE_MAX := LINE_MAX traced_env;
     os_getpid := 500; os_getppid := 77; os_gettid := 500;
     os_clock_gettime := os_clock_gettime traced_env;
     os_mutex_trylock := fun _ _ => EBUSY;
     os_mutex_unlock := fun _ _ => 0;
     os_cond_wait := fun _ _ => Some 0;
     os_create := fun _ _ => 0;
     os_join := fun _ _ => Some 0;
     os_kill := fun _ _ _ => 0;
     os_sched_yield := fun _ => 0;
     os_asprintf := fun _ => true;
     os_fopen := traced_fs;
     worker1_tid := 501; worker1_published := 3;
     worker2_tid := 502; worker2_published := 19 |}.

(** The same lock when the first reading of the clock falls one
    nanosecond before a full second and the next one 9.000000001 s
    later. *)
Definition early_env : environment :=
  {| LONG_MAX := LONG_MAX traced_env; LINE_MAX := LINE_MAX traced_env;
     os_getpid := 500; os_getppid := 77; os_gettid := 500;
     os_clock_gettime := fun n =>
       match n with
       | O => (0, {| tv_sec := 0; tv_nsec := 999999999 |})
       | _ => (0, {| tv_sec := 10; tv_nsec := 0 |})
       end;
     os_mutex_trylock := fun _ _ => EBUSY;
     os_mutex_unlock := fun _ _ => 0;
     os_cond_wait := fun _ _ => Some 0;
     os_create := fun _ _ => 0;
     os_join := fun _ _ => Some 0;
     os_kill := fun _ _ _ => 0;
     os_sched_yield := fun _ => 0;
     os_asprintf := fun _ => true;
     os_fopen := traced_fs;
     worker1_tid := 501; worker1_published := 3;
     worker2_tid := 502; worker2_published := 19 |}.

(** A lock that is busy at the first two attempts of the main thread and
    then, at the third, free ([freed_env]) or in error with EINVAL
    ([broken_env]); the clock advances one second per interaction. *)
Definition lock_env (third : Z) : environment :=
  {| LONG_MAX := LONG_MAX traced_env; LINE_MAX := LINE_MAX traced_env;
     os_getpid := 500; os_getppid := 77; os_gettid := 500;
     os_clock_gettime := os_clock_gettime traced_env;
     os_mutex_trylock := fun n _ => if (n <? 5)%nat then EBUSY else third;
     os_mutex_unlock := fun _ _ => 0;
     os_cond_wait := fun _ _ => Some 0;
     os_create := fun _ _ => 0;
     os_join := fun _ _ => Some 0;
     os_kill := fun _ _ _ => 0;
     os_sched_yield := fun _ => 0;
     os_asprintf := fun _ => true;
     os_fopen := traced_fs;
     worker1_tid := 501; worker1_published := 3;
     worker2_tid := 502; worker2_published := 19 |}.

Definition freed_env : environment := lock_env 0.
Definition broken_env : environment := lock_env 22.

Definition state_label : list ascii := lit "State:" ++ [TAB].

(** A worker that keeps running: its status never shows a tracing stop. *)
Definition running_file : FILE :=
  status_file (lit "Name:" ++ [TAB] ++ lit "watchthreads-reorder" ++ [NL]
               ++ state_label ++ lit "R (running)" ++ [NL]).

Definition running_env : environment := env_with_file (inr running_file).

(** ** Vocabulary of the further statements *)

(** Events that touch neither a gate's release, nor a signal, nor the
    recorded tracer, nor the exit handler. *)
Definition passive (e : event) : Prop :=
  match e with
  | EvPrint _ _ | EvLock _ | EvCreate _ | EvJoin _
  | EvCondWait _ _ | EvStateWait _ _ => True
  | _ => False
  end.

(** [keeps Inv m]: from a world in [Inv] the call [m] ends, however it
    ends, in a world in [Inv]. *)
Definition keeps (Inv : world -> Prop) {A} (m : M A) : Prop :=
  forall w, Inv w -> Inv (snd (m w)).

Definition is_kill (e : event) : bool :=
  match e with EvKill _ _ => true | _ => false end.

(** The signals sent, in order. *)
Definition kills (tr : list event) : list event := filter is_kill tr.

(** Where the process stands with its tracer [p]: nothing sent and no
    tracer recorded ([a]); SIGSTOP sent and the tracer recorded ([b]);
    SIGSTOP then SIGCONT sent and the record cleared ([c]).  The flags
    say which of the three are admitted. *)
Definition protocol (a b c : bool) (p : Z) (w : world) : Prop :=
  (a = true /\ kills (trace w) = [] /\ tracer w = 0) \/
  (b = true /\ kills (trace w) = [EvKill p SIGSTOP] /\ tracer w = p /\ p <> 0) \/
  (c = true /\ kills (trace w) = [EvKill p SIGSTOP; EvKill p SIGCONT]
   /\ tracer w = 0).

(** The confirmation of line 306 for the tracer [p]. *)
Definition tracer_stopped (p : Z) : event := EvStateWait p (lit "T (stopped)").

(** The Start Gate is still closed; the tracer was seen stopped before
    any release of the Start Gate. *)
Definition gate_closed (w : world) : Prop :=
  ~ In (EvUnlock gdbstop_mutex) (trace w).

Definition stopped_first (p : Z) (w : world) : Prop :=
  exists a b, trace w = a ++ tracer_stopped p :: b /\
              ~ In (EvUnlock gdbstop_mutex) a.

(** Before [atexit (cleanup)]: no handler registered, no signal sent. *)
Definition unregistered (w : world) : Prop :=
  atexit_cleanup w = false /\ kills (trace w) = [].

(** Lines 309-347 of [main]: what [main_rendezvous] does once the tracer
    has been stopped (or was not to be stopped). *)
Definition main_after_stop (env : environment) (fuel : nat) : M unit :=
  (timed_mutex_lock env fuel thread1_tid_mutex ;;
   timed_mutex_lock env fuel thread2_tid_mutex ;;
   i <- pthread_mutex_unlock env gdbstop_mutex ;;
   assert (i =? 0) ;;
   printf MsgWaitingTids ;;
   t1 <- thread1_tid env ;;
   (if t1 =? 0 then
      i <- pthread_cond_wait env thread1_tid_cond thread1_tid_mutex ;;
      assert (i =? 0) ;;
      t1 <- thread1_tid env ;;
      assert (t1 >? 0)
    else ret tt) ;;
   t2 <- thread2_tid env ;;
   (if t2 =? 0 then
      i <- pthread_cond_wait env thread2_tid_cond thread2_tid_mutex ;;
      assert (i =? 0) ;;
      t2 <- thread2_tid env ;;
      assert (t2 >? 0)
    else ret tt) ;;
   t1 <- thread1_tid env ;;
   t2 <- thread2_tid env ;;
   printf (MsgTids (to_ulong env t1) (to_ulong env t2) (to_ulong env (os_getpid env))) ;;
   printf MsgWaitingTrap ;;
   t <- load_tracer ;;
   if negb (t =? 0) then
     t1 <- thread1_tid env ;;
     state_wait env fuel t1 tracing_stop ;;
     t2 <- thread2_tid env ;;
     state_wait env fuel t2 tracing_stop
   else ret tt)%prog.

(** ** The worker threads

    A worker is modelled like the main thread, over the same [world]
    (its own interactions, the process-wide [tracer] and exit handler).
    What it does beyond the calls of the main thread -- the store to
    [threadN_tid], [pthread_cond_signal], the read of the watched
    variable -- is kept in a log of its own, in which the events of the
    shared calls appear as [Did]. *)

Inductive worker_event :=
| Published (t : thread) (tid : Z)   (* threadN_tid = gettid () *)
| Signalled (c : cond)               (* pthread_cond_signal returned 0 *)
| Watched (t : thread)               (* rwatch_store = threadN_rwatch *)
| Did (e : event).

Record worker_world := {
  base : world;
  log : list worker_event
}.

Definition W (A : Type) : Type := worker_world -> outcome A * worker_world.

Definition wret {A} (a : A) : W A := fun ww => (Ret a, ww).

Definition wbind {A B} (m : W A) (k : A -> W B) : W B :=
  fun ww => match m ww with
            | (Ret a, ww') => k a ww'
            | (Stop h, ww') => (Stop h, ww')
            end.

Declare Scope worker_scope.
Delimit Scope worker_scope with worker.
Notation "x <- c1 ;; c2" := (wbind c1 (fun x => c2))
  (at level 61, c1 at next level, right associativity) : worker_scope.
Notation "c1 ;; c2" := (wbind c1 (fun _ => c2))
  (at level 61, right associativity) : worker_scope.

Definition note (e : worker_event) : W unit :=
  fun ww => (Ret tt, {| base := base ww; log := log ww ++ [e] |}).

(** A call shared with the main thread; the events it appends to the
    trace enter the log. *)
Definition lift {A} (m : M A) : W A :=
  fun ww =>
    let '(o, w') := m (base ww) in
    (o, {| base := w';
           log := log ww ++ map Did (skipn (length (trace (base ww))) (trace w')) |}).

Definition wassert (b : bool) : W unit :=
  if b then wret tt else fun ww => (Stop Abort, ww).

Section Workers.

Variable env : environment.
(** The return value of [pthread_cond_signal] at each interaction. *)
Variable os_cond_signal : nat -> cond -> Z.

Definition pthread_cond_signal (c : cond) : W Z :=
  (i <- lift (ask (fun n => os_cond_signal n c)) ;;
   if i =? 0 then note (Signalled c) ;; wret i else wret i)%worker.

(** [thread1_func], lines 86-109. *)
Definition thread1_func (fuel : nat) : W unit :=
  (note (Published thread1 (os_gettid env)) ;;
   i <- pthread_cond_signal thread1_tid_cond ;;
   wassert (i =? 0) ;;
   lift (timed_mutex_lock env fuel gdbstop_mutex) ;;
   i <- lift (pthread_mutex_unlock env gdbstop_mutex) ;;
   wassert (i =? 0) ;;
   note (Watched thread1) ;;
   lift (timed_mutex_lock env fuel terminate_mutex) ;;
   i <- lift (pthread_mutex_unlock env terminate_mutex) ;;
   wassert (i =? 0) ;;
   wret tt)%worker.

(** [thread2_func], lines 111-134. *)
Definition thread2_func (fuel : nat) : W unit :=
  (note (Published thread2 (os_gettid env)) ;;
   i <- pthread_cond_signal thread2_tid_cond ;;
   wassert (i =? 0) ;;
   lift (timed_mutex_lock env fuel gdbstop_mutex) ;;
   i <- lift (pthread_mutex_unlock env gdbstop_mutex) ;;
   wassert (i =? 0) ;;
   note (Watched thread2) ;;
   lift (timed_mutex_lock env fuel terminate_mutex) ;;
   i <- lift (pthread_mutex_unlock env terminate_mutex) ;;
   wassert (i =? 0) ;;
   wret tt)%worker.

End Workers.

(** The actions of a worker that runs to its end, in order. *)
Definition worker_script (env : environment) (t : thread) (c : cond)
  : list worker_event :=
  [Published t (os_gettid env); Signalled c;
   Did (EvLock gdbstop_mutex); Did (EvUnlock gdbstop_mutex);
   Watched t;
   Did (EvLock terminate_mutex); Did (EvUnlock terminate_mutex)].

(** What a fatal exit adds to the trace: a diagnostic and the actions of
    the exit handler. *)
Definition fatal (e : event) : Prop :=
  match e with
  | EvPrint _ _ | EvTracer _ | EvKill _ _ => True
  | _ => False
  end.

Definition new_worker (w : world) : worker_world := {| base := w; log := [] |}.

(** A worker whose gates open at the first attempt. *)
Definition worker_env : environment :=
  {| LONG_MAX := LONG_MAX traced_env; LINE_MAX := LINE_MAX traced_env;
     os_getpid := 500; os_getppid := 77; os_gettid := 501;
     os_clock_gettime := os_clock_gettime traced_env;
     os_mutex_trylock := fun _ _ => 0;
     os_mutex_unlock := fun _ _ => 0;
     os_cond_wait := fun _ _ => Some 0;
     os_create := fun _ _ => 0;
     os_join := fun _ _ => Some 0;
     os_kill := fun _ _ _ => 0;
     os_sched_yield := fun _ => 0;
     os_asprintf := fun _ => true;
     os_fopen := traced_fs;
     worker1_tid := 501; worker1_published := 3;
     worker2_tid := 502; worker2_published := 19 |}.

(** [follows L m ww]: run from [ww], the worker [m] appends to its log
    an initial segment of [L] and then only what a fatal exit adds; if it
    returns, the whole of [L] and nothing else. *)
Definition follows (L : list worker_event) (m : W unit) (ww : worker_world) : Prop :=
  exists n d,
    log (snd (m ww)) = log ww ++ firstn n L ++ map Did d /\
    Forall fatal d /\
    (forall a, fst (m ww) = Ret a -> n = length L /\ d = []).

(** [exits_resumed m]: when [m] ends the process through [exit] with the
    handler registered, the recorded tracer is 0 afterwards. *)
Definition exits_resumed {A} (m : M A) : Prop :=
  forall w status,
    fst (m w) = Stop (Exit status) ->
    atexit_cleanup (snd (m w)) = true -> tracer (snd (m w)) = 0.

(** [registered w]: the exit handler has been registered with [atexit]. *)
Definition registered (w : world) : Prop := atexit_cleanup w = true.


(** ** The process: the main thread together with the workers

    [tracer] and the registration of the exit handler belong to the
    process: a worker whose [timed_mutex_lock] times out calls [exit],
    which runs [cleanup] in that worker and clears the [tracer] the main
    thread reads.  A thread run by itself ([main], [run], the worker
    routines) reads in the world what it stored last; here the main
    thread is cut into its statements, and between any two of them a
    worker may come to its end, on the same [tracer] and handler.

    A worker's calls before its end touch nothing the main thread reads
    but through the environment (the identifier it published, the state
    of the locks), so a worker is run in one piece, at the point where it
    ends; the store and the signal of its handler are one step.  A worker
    that calls [exit] ends the process once the handlers are done; until
    then the main thread keeps running, and the model lets it run on:
    what the process did is an initial part of the history. *)

Inductive actor := Main | Worker (t : thread).

(** A thread as the sequence of its calls. *)
Inductive code (A : Type) : Type :=
| Return (a : A)
| Call {X : Type} (m : M X) (k : X -> code A).
Arguments Return {A} a.
Arguments Call {A X} m k.

Fixpoint cbind {A B} (c : code A) (f : A -> code B) : code B :=
  match c with
  | Return a => f a
  | Call m k => Call m (fun x => cbind (k x) f)
  end.

Definition step {X} (m : M X) : code X := Call m (fun x => Return x).

Declare Scope code_scope.
Delimit Scope code_scope with code.
Notation "x <- c1 ;; c2" := (cbind c1 (fun x => c2))
  (at level 61, c1 at next level, right associativity) : code_scope.
Notation "c1 ;; c2" := (cbind c1 (fun _ => c2))
  (at level 61, right associativity) : code_scope.

(** The thread run by itself. *)
Fixpoint sequential {A} (c : code A) : M A :=
  match c with
  | Return a => ret a
  | Call m k => bind m (fun x => sequential (k x))
  end.

(** Every call of the thread only adds to its trace. *)
Fixpoint grows {A} (c : code A) : Prop :=
  match c with
  | Return _ => True
  | Call m k => (forall w, exists d, trace (snd (m w)) = trace w ++ d) /\
                forall x, grows (k x)
  end.

Section MainCode.

Variable env : environment.
Variable fuel : nat.

(** Lines 268-278. *)
Definition main_start_code : code unit :=
  (step (timed_mutex_lock env fuel gdbstop_mutex) ;;
   step (timed_mutex_lock env fuel terminate_mutex) ;;
   i <- step (pthread_create env thread1) ;;
   step (assert (i =? 0)) ;;
   i <- step (pthread_create env thread2) ;;
   step (assert (i =? 0)))%code.

(** Lines 280-293. *)
Definition main_tracer_code (standalone : Z) : code unit :=
  (if standalone =? 0 then
     v <- step (proc_ulong env (lit "/proc/self/status") (lit "TracerPid:" ++ [TAB])) ;;
     step (store_tracer (to_int v)) ;;
     t <- step load_tracer ;;
     if t =? 0
     then step (fprintf stderr MsgMustRunByGDB) ;; step (exit env EXIT_FAILURE)
     else
       t <- step load_tracer ;;
       if negb (t =? os_getppid env)
       then step (fprintf stderr MsgParentMustBeTracer) ;; step (exit env EXIT_FAILURE)
       else Return tt
   else Return tt)%code.

(** Lines 298-347. *)
Definition main_rendezvous_code : code unit :=
  (step atexit ;;
   t <- step load_tracer ;;
   step (printf (MsgStopping (to_ulong env t))) ;;
   t <- step load_tracer ;;
   (if negb (t =? 0) then
      t <- step load_tracer ;;
      i <- step (kill env t SIGSTOP) ;;
      step (assert (i =? 0)) ;;
      t <- step load_tracer ;;
      step (state_wait env fuel t (lit "T (stopped)"))
    else Return tt) ;;
   step (timed_mutex_lock env fuel thread1_tid_mutex) ;;
   step (timed_mutex_lock env fuel thread2_tid_mutex) ;;
   i <- step (pthread_mutex_unlock env gdbstop_mutex) ;;
   step (assert (i =? 0)) ;;
   step (printf MsgWaitingTids) ;;
   t1 <- step (thread1_tid env) ;;
   (if t1 =? 0 then
      i <- step (pthread_cond_wait env thread1_tid_cond thread1_tid_mutex) ;;
      step (assert (i =? 0)) ;;
      t1 <- step (thread1_tid env) ;;
      step (assert (t1 >? 0))
    else Return tt) ;;
   t2 <- step (thread2_tid env) ;;
   (if t2 =? 0 then
      i <- step (pthread_cond_wait env thread2_tid_cond thread2_tid_mutex) ;;
      step (assert (i =? 0)) ;;
      t2 <- step (thread2_tid env) ;;
      step (assert (t2 >? 0))
    else Return tt) ;;
   t1 <- step (thread1_tid env) ;;
   t2 <- step (thread2_tid env) ;;
   step (printf (MsgTids (to_ulong env t1) (to_ulong env t2)
                   (to_ulong env (os_getpid env)))) ;;
   step (printf MsgWaitingTrap) ;;
   t <- step load_tracer ;;
   if negb (t =? 0) then
     t1 <- step (thread1_tid env) ;;
     step (state_wait env fuel t1 tracing_stop) ;;
     t2 <- step (thread2_tid env) ;;
     step (state_wait env fuel t2 tracing_stop)
   else Return tt)%code.

(** The call [cleanup ()] of line 349, lines 240-255. *)
Definition cleanup_code : code unit :=
  (t <- step load_tracer ;;
   step (printf (MsgResuming (to_ulong env t))) ;;
   t <- step load_tracer ;;
   if negb (t =? 0) then
     tracer_save <- step load_tracer ;;
     step (store_tracer 0) ;;
     i <- step (kill env tracer_save SIGCONT) ;;
     step (assert (i =? 0))
   else Return tt)%code.

(** Lines 349-368. *)
Definition main_finish_code : code Z :=
  (cleanup_code ;;
   step (printf MsgJoining) ;;
   i <- step (pthread_mutex_unlock env terminate_mutex) ;;
   step (assert (i =? 0)) ;;
   i <- step (pthread_join env thread1) ;;
   step (assert (i =? 0)) ;;
   i <- step (pthread_join env thread2) ;;
   step (assert (i =? 0)) ;;
   step (printf MsgExiting) ;;
   Return EXIT_SUCCESS)%code.

Definition main_code (argv : list (list ascii)) : code Z :=
  (standalone <- step (main_args argv) ;;
   main_start_code ;;
   main_tracer_code standalone ;;
   main_rendezvous_code ;;
   main_finish_code)%code.

(** Returning from [main] is [exit] with its value; the handler then
    runs in the main thread, in one piece. *)
Definition run_code (argv : list (list ascii)) : code unit :=
  (status <- main_code argv ;;
   step (exit env status))%code.

End MainCode.

(** What the process has done: the events of its threads in the order in
    which they happened. *)
Record pstate := {
  main_world : world;                   (* the world as the main thread finds it *)
  history : list (actor * event);
  ended : list thread                   (* the workers that have come to their end *)
}.

Definition initial_pstate : pstate :=
  {| main_world := initial_world; history := []; ended := [] |}.

Definition thread_eqb (a b : thread) : bool :=
  match a, b with
  | thread1, thread1 | thread2, thread2 => true
  | _, _ => false
  end.

(** [pthread_create] has returned 0 for the worker. *)
Definition created (t : thread) (w : world) : bool :=
  existsb (fun e => match e with EvCreate t' => thread_eqb t t' | _ => false end)
          (trace w).

(** What a worker finds when it starts: the [tracer] and the handler of
    the process; its interactions and its trace are its own. *)
Definition worker_view (w : world) : world :=
  {| ticks := O; tracer := tracer w; atexit_cleanup := atexit_cleanup w;
     trace := [] |}.

(** What the main thread finds after a worker left the world [wb]. *)
Definition main_view (w wb : world) : world :=
  {| ticks := ticks w; tracer := tracer wb; atexit_cleanup := atexit_cleanup wb;
     trace := trace w |}.

Section Process.

Variable env : environment.                  (* the answers to the main thread *)
Variable wenv : thread -> environment.       (* the answers to each worker *)
Variable os_cond_signal : nat -> cond -> Z.
Variable fuel : nat.

Definition worker_func (t : thread) : W unit :=
  match t with
  | thread1 => thread1_func (wenv thread1) os_cond_signal fuel
  | thread2 => thread2_func (wenv thread2) os_cond_signal fuel
  end.

(** The worker [t], once created, runs to its end; it does so once. *)
Definition worker_runs (ps : pstate) (t : thread) : pstate :=
  if created t (main_world ps) && negb (existsb (thread_eqb t) (ended ps)) then
    let wb := base (snd (worker_func t (new_worker (worker_view (main_world ps))))) in
    {| main_world := main_view (main_world ps) wb;
       history := history ps ++ map (pair (Worker t)) (trace wb);
       ended := t :: ended ps |}
  else ps.

(** The main thread has moved from its world to [w']. *)
Definition main_moves (ps : pstate) (w' : world) : pstate :=
  {| main_world := w';
     history := history ps
                ++ map (pair Main) (skipn (length (trace (main_world ps))) (trace w'));
     ended := ended ps |}.

(** The main thread under a schedule: before its [n]-th call the workers
    of the [n]-th entry of the schedule come to their end. *)
Fixpoint interleave {A} (c : code A) (sched : list (list thread)) (ps : pstate)
  : outcome A * pstate :=
  match c with
  | Return a => (Ret a, ps)
  | Call m k =>
      let ps1 := fold_left worker_runs (hd [] sched) ps in
      match m (main_world ps1) with
      | (Ret x, w') => interleave (k x) (tl sched) (main_moves ps1 w')
      | (Stop h, w') => (Stop h, main_moves ps1 w')
      end
  end.

Definition process (argv : list (list ascii)) (sched : list (list thread))
  : outcome unit * pstate :=
  interleave (run_code env fuel argv) sched initial_pstate.

End Process.

(** A store to [tracer] made by a worker. *)
Definition stores (x : actor * event) : bool :=
  match x with
  | (Worker _, EvTracer _) => true
  | _ => false
  end.

(** No worker has stored to [tracer]: none has run the exit handler with
    a tracer recorded. *)
Definition undisturbed (h : list (actor * event)) : Prop :=
  forall t v, ~ In (Worker t, EvTracer v) h.

(** The history up to the first store of a worker. *)
Fixpoint before_store (h : list (actor * event)) : list (actor * event) :=
  match h with
  | [] => []
  | x :: r => if stores x then [] else x :: before_store r
  end.

(** The events of the main thread, and those of the whole process. *)
Definition by_main (h : list (actor * event)) : list event :=
  flat_map (fun x => match x with (Main, e) => [e] | _ => [] end) h.

Definition events (h : list (actor * event)) : list event := map snd h.

(** Entries of workers only. *)
Definition of_workers (h : list (actor * event)) : Prop :=
  Forall (fun x => fst x <> Main) h.

(** [discreet v w]: in [w], reached from [v], either a store to [tracer]
    is on the trace or the tracer and the handler are those of [v] and no
    signal was sent. *)
Definition discreet (v w : world) : Prop :=
  (forall x, ~ In (EvTracer x) (trace w)) ->
  tracer w = tracer v /\ atexit_cleanup w = atexit_cleanup v /\ kills (trace w) = [].

(** [wkeeps Inv m]: the worker [m] ends, however it ends, in a world in
    [Inv] when started in one. *)
Definition wkeeps (Inv : world -> Prop) {A} (m : W A) : Prop :=
  forall ww, Inv (base ww) -> Inv (base (snd (m ww))).



(** The schedule in which both workers come to their end once the main
    thread has released the Terminate Gate, before it joins them. *)
Definition after_release : list (list thread) :=
  repeat [] 49 ++ [[thread1; thread2]].

(** ** Strings and streams *)

Lemma list_eqb_eq a b : list_eqb a b = true <-> a = b.
Proof.
  revert b; induction a as [|x a IH]; intros [|y b]; simpl;
    try (split; [discriminate | discriminate]); try tauto.
  rewrite andb_true_iff, Ascii.eqb_eq, IH.
  split; [intros [-> ->]; reflexivity | intros H; injection H; auto].
Qed.

Lemma cstr_id s : ~ In NUL s -> cstr s = s.
Proof.
  induction s as [|c s IH]; simpl; intros H; [reflexivity|].
  destruct (Ascii.eqb c NUL) eqn:E.
  - apply Ascii.eqb_eq in E. exfalso; apply H; left; congruence.
  - f_equal. apply IH. intros Hin; apply H; right; exact Hin.
Qed.

Lemma cstr_incl s c : In c (cstr s) -> In c s.
Proof.
  induction s as [|d s IH]; simpl; [tauto|].
  destruct (Ascii.eqb d NUL); simpl; [tauto|]. intros [->|H]; auto.
Qed.

Lemma strchr_none s c : strchr s c = None <-> ~ In c s.
Proof.
  induction s as [|d s IH]; simpl; [tauto|].
  destruct (Ascii.eqb d c) eqn:E.
  - apply Ascii.eqb_eq in E. split; [discriminate | intros H; exfalso; apply H; left; exact E].
  - apply Ascii.eqb_neq in E. destruct (strchr s c).
    + split; [discriminate|]. intros H. exfalso.
      destruct (proj1 (not_iff_compat IH)) as []; [discriminate|].
      intros Hin; apply H; right; exact Hin.
    + split; [|reflexivity]. intros _ [H|H]; [congruence|]. apply (proj1 IH); auto.
Qed.

Lemma strchr_app_here s r c : ~ In c s -> strchr (s ++ c :: r) c = Some (length s).
Proof.
  induction s as [|d s IH]; simpl; intros H.
  - rewrite Ascii.eqb_refl; reflexivity.
  - destruct (Ascii.eqb d c) eqn:E.
    + apply Ascii.eqb_eq in E. exfalso; apply H; left; exact E.
    + rewrite IH; [reflexivity|]. intros Hin; apply H; right; exact Hin.
Qed.

Lemma has_false c l : has c l = false <-> ~ In c l.
Proof.
  unfold has. induction l as [|d l IH]; simpl; [tauto|].
  rewrite orb_false_iff, IH, Ascii.eqb_neq. split.
  - intros [H1 H2] [H|H]; [congruence | tauto].
  - intros H; split; [intros E; apply H; left; congruence | intros Hin; apply H; right; exact Hin].
Qed.

Lemma begins_with_strncmp p l : strncmp_eq l p (strlen p) = begins_with p l.
Proof.
  unfold strncmp_eq, strlen. revert l; induction p as [|a p IH]; intros l; simpl.
  - reflexivity.
  - destruct l as [|b l]; simpl; [reflexivity|].
    rewrite (IH l). f_equal.
    destruct (Ascii.eqb b a) eqn:E, (Ascii.eqb a b) eqn:E'; try reflexivity.
    + apply Ascii.eqb_eq in E; subst; rewrite Ascii.eqb_refl in E'; discriminate.
    + apply Ascii.eqb_eq in E'; subst; rewrite Ascii.eqb_refl in E; discriminate.
Qed.

Lemma begins_with_app p r : begins_with p (p ++ r) = true.
Proof. induction p as [|a p IH]; simpl; [reflexivity|]. rewrite Ascii.eqb_refl; exact IH. Qed.

Lemma fgets_read_line k l rest :
  ~ In NL l -> (length l < k)%nat ->
  fgets_read k (l ++ NL :: rest) = (l ++ [NL], rest, AtNewline).
Proof.
  revert k; induction l as [|c l IH]; intros k Hnl Hk; simpl in *.
  - destruct k; [lia|]. simpl. reflexivity.
  - destruct k; [lia|]. simpl.
    destruct (Ascii.eqb c NL) eqn:E.
    + apply Ascii.eqb_eq in E. exfalso; apply Hnl; left; congruence.
    + rewrite IH; [reflexivity | tauto | lia].
Qed.

Lemma text_line_spec env l :
  text_line env l = true ->
  ~ In NL l /\ ~ In NUL l /\ (length l + 2 <= LINE_MAX env)%nat.
Proof.
  unfold text_line. rewrite !andb_true_iff, !negb_true_iff, !has_false, Nat.leb_le. tauto.
Qed.

Lemma fgets_text_line env l rest e :
  text_line env l = true ->
  fgets (LINE_MAX env) (l ++ NL :: rest) e = (Some (l ++ [NL]), rest, 0).
Proof.
  intros H. apply text_line_spec in H. destruct H as (Hnl & _ & Hlen).
  unfold fgets. rewrite fgets_read_line; [reflexivity | exact Hnl | lia].
Qed.

Lemma fgets_eof n e : (2 <= n)%nat -> fgets n [] e = (None, [], e).
Proof.
  intros H. unfold fgets. destruct (n - 1)%nat as [|k] eqn:E; [lia|]. simpl.
  destruct (e =? 0) eqn:E0; simpl; [|reflexivity].
  apply Z.eqb_eq in E0; subst; reflexivity.
Qed.

(** ** The scan of [proc_string] *)

Section Scan.

Variable env : environment.

Lemma ask_run {A} (f : nat -> A) (w : world) :
  ask f w = (Ret (f (ticks w)), ticked w).
Proof. reflexivity. Qed.

Lemma fprintf_run s m (w : world) :
  fprintf s m w = (Ret tt, logged (EvPrint s m) w).
Proof. reflexivity. Qed.

Lemma die_fails_fatally {A} m (w : world) :
  @fails_fatally A env w ((fprintf stderr m ;; exit env EXIT_FAILURE) w).
Proof. exists m. reflexivity. Qed.

Lemma scan_text_line t f l rest filename line :
  text_line env l = true ->
  proc_string_loop env (S t) f (l ++ NL :: rest) filename line =
  if negb (begins_with line l)
  then proc_string_loop env t f rest filename line
  else if negb (f_closeerr f =? 0)
       then fprintf stderr (MsgFclose filename line (f_closeerr f)) ;;
            exit env EXIT_FAILURE
       else ret (skipn (length line) l).
Proof.
  intros H. simpl. rewrite (fgets_text_line env l rest _ H).
  apply text_line_spec in H. destruct H as (Hnl & Hnul & _).
  assert (Hc : cstr (l ++ [NL]) = l ++ [NL]).
  { apply cstr_id. rewrite in_app_iff. simpl. intros [H|[H|[]]]; [tauto | discriminate]. }
  rewrite Hc, (strchr_app_here l [] NL Hnl).
  rewrite firstn_app, Nat.sub_diag, firstn_all. simpl. rewrite app_nil_r.
  rewrite begins_with_strncmp. reflexivity.
Qed.

Lemma scan_passed_over pre t f rest filename line :
  passed_over env line pre = true ->
  proc_string_loop env (length pre + t) f (unlines pre ++ rest) filename line =
  proc_string_loop env t f rest filename line.
Proof.
  induction pre as [|l pre IH]; intros H; [reflexivity|].
  simpl in H. rewrite !andb_true_iff in H. destruct H as [[Ht Hb] Hp].
  change (unlines (l :: pre)) with ((l ++ [NL]) ++ unlines pre).
  rewrite <- !app_assoc. simpl app at 2.
  change (length (l :: pre) + t)%nat with (S (length pre + t)).
  rewrite (scan_text_line _ _ _ _ _ _ Ht), Hb. apply IH, Hp.
Qed.

Lemma length_unlines ls : (length ls <= length (unlines ls))%nat.
Proof.
  induction ls as [|l ls IH]; simpl; [lia|].
  rewrite !length_app. simpl. lia.
Qed.

Lemma turns_split pre rest :
  exists k, S (length (unlines pre ++ rest)) = (length pre + S k)%nat
            /\ (length rest <= k)%nat.
Proof.
  exists (length (unlines pre ++ rest) - length pre)%nat.
  rewrite length_app. pose proof (length_unlines pre). lia.
Qed.

(** The first line that begins with the label decides the call. *)
Lemma proc_string_found w filename line f pre l post :
  os_fopen env (ticks w) filename = inr f ->
  f_data f = unlines pre ++ l ++ NL :: post ->
  passed_over env line pre = true ->
  text_line env l = true ->
  begins_with line l = true ->
  proc_string env filename line w =
  (if negb (f_closeerr f =? 0)
   then fprintf stderr (MsgFclose filename line (f_closeerr f)) ;;
        exit env EXIT_FAILURE
   else ret (skipn (length line) l)) (ticked w).
Proof.
  intros Hopen Hdata Hpre Hl Hb.
  unfold proc_string, bind. rewrite ask_run, Hopen, Hdata.
  destruct (turns_split pre (l ++ NL :: post)) as (k & -> & _).
  rewrite (scan_passed_over _ _ _ _ _ _ Hpre).
  rewrite (scan_text_line _ _ _ _ _ _ Hl), Hb. reflexivity.
Qed.

(** No line begins with the label: the end of the file is reached. *)
Lemma proc_string_not_found w filename line f ls :
  (2 <= LINE_MAX env)%nat ->
  os_fopen env (ticks w) filename = inr f ->
  f_data f = unlines ls ->
  passed_over env line ls = true ->
  proc_string env filename line w =
  (if negb (f_readerr f =? 0)
   then fprintf stderr (MsgFgets filename (f_readerr f)) ;; exit env EXIT_FAILURE
   else fprintf stderr (MsgNoLine filename line) ;; exit env EXIT_FAILURE) (ticked w).
Proof.
  intros Hmax Hopen Hdata Hpre.
  unfold proc_string, bind. rewrite ask_run, Hopen, Hdata.
  destruct (turns_split ls []) as (k & Hk & _). rewrite app_nil_r in Hk. rewrite Hk.
  rewrite <- (app_nil_r (unlines ls)) at 1.
  rewrite (scan_passed_over _ _ _ _ _ _ Hpre).
  simpl. rewrite (fgets_eof _ _ Hmax). reflexivity.
Qed.

Lemma proc_string_fopen_null w filename line errno :
  os_fopen env (ticks w) filename = inl errno ->
  proc_string env filename line w =
  (fprintf stderr (MsgFopen filename line errno) ;; exit env EXIT_FAILURE) (ticked w).
Proof.
  intros Hopen. unfold proc_string, bind. rewrite ask_run, Hopen. reflexivity.
Qed.

End Scan.

(** ** Process-Status Reader *)

Section Reader.

Variable env : environment.

Lemma unlines_app a b : unlines (a ++ b) = unlines a ++ unlines b.
Proof. unfold unlines. apply flat_map_app. Qed.

Lemma find_line_split line ls rest :
  forallb (text_line env) ls = true ->
  find_line line ls = Some rest ->
  exists pre l post,
    ls = pre ++ l :: post /\ passed_over env line pre = true /\
    text_line env l = true /\ begins_with line l = true /\
    rest = skipn (length line) l.
Proof.
  induction ls as [|l ls IH]; simpl; [discriminate|].
  rewrite andb_true_iff. intros [Hl Hls].
  destruct (begins_with line l) eqn:Hb.
  - intros [= <-]. exists [], l, ls. repeat split; auto.
  - intros Hf. destruct (IH Hls Hf) as (pre & l0 & post & -> & Hp & Ht & Hb0 & Hr).
    exists (l :: pre), l0, post. repeat split; auto.
    simpl. rewrite Hl, Hb, Hp. reflexivity.
Qed.

Lemma find_line_none line ls :
  forallb (text_line env) ls = true ->
  find_line line ls = None ->
  passed_over env line ls = true.
Proof.
  induction ls as [|l ls IH]; simpl; [reflexivity|].
  rewrite andb_true_iff. intros [Hl Hls].
  destruct (begins_with line l) eqn:Hb; [discriminate|].
  intros Hf. rewrite Hl, (IH Hls Hf). reflexivity.
Qed.

Lemma exit_stops {A} status (w : world) :
  exists h, fst (@exit env A status w) = Stop h.
Proof.
  unfold exit. destruct (atexit_cleanup w); [|eexists; reflexivity].
  unfold bind. destruct (cleanup env w) as [[[]|h] w']; eexists; reflexivity.
Qed.

Lemma fails_fatally_stops {A} (w : world) (r : outcome A * world) :
  fails_fatally env w r -> exists h, fst r = Stop h.
Proof. intros [msg ->]. apply exit_stops. Qed.

(** C5, as amended.  On a text file (every line ends in a newline, fits
    the buffer and holds no NUL) [proc_string] returns the remainder of
    the first line that begins with the label, newline stripped, provided
    [fclose] succeeds; it prints a diagnostic and exits with failure when
    the file cannot be opened, when no line begins with the label (a read
    error at the end of the file included), and when [fclose] fails; it
    returns in no other case. *)
Theorem proc_string_text_file (w : world) (filename line : list ascii)
  (ls : list (list ascii)) :
  (2 <= LINE_MAX env)%nat ->
  (forall f, os_fopen env (ticks w) filename = inr f ->
             f_data f = unlines ls /\ forallb (text_line env) ls = true) ->
  let r := proc_string env filename line w in
  match os_fopen env (ticks w) filename with
  | inl _ => fails_fatally env (ticked w) r
  | inr f =>
      match find_line line ls with
      | Some rest =>
          if f_closeerr f =? 0 then r = (Ret rest, ticked w)
          else fails_fatally env (ticked w) r
      | None => fails_fatally env (ticked w) r
      end
  end
  /\ (forall rest w', r = (Ret rest, w') ->
        exists f, os_fopen env (ticks w) filename = inr f /\
                  f_closeerr f = 0 /\ find_line line ls = Some rest).
Proof.
  intros Hmax Htext r.
  assert (Main :
    match os_fopen env (ticks w) filename with
    | inl _ => fails_fatally env (ticked w) r
    | inr f =>
        match find_line line ls with
        | Some rest =>
            if f_closeerr f =? 0 then r = (Ret rest, ticked w)
            else fails_fatally env (ticked w) r
        | None => fails_fatally env (ticked w) r
        end
    end).
  { subst r. destruct (os_fopen env (ticks w) filename) as [errno|f] eqn:Hopen.
    - rewrite (proc_string_fopen_null env _ _ _ _ Hopen). apply die_fails_fatally.
    - destruct (Htext f eq_refl) as [Hdata Hls].
      destruct (find_line line ls) as [rest|] eqn:Hfind.
      + destruct (find_line_split _ _ _ Hls Hfind)
          as (pre & l & post & -> & Hp & Hl & Hb & ->).
        rewrite unlines_app in Hdata. simpl in Hdata. rewrite <- app_assoc in Hdata.
        simpl in Hdata.
        rewrite (proc_string_found env _ _ _ _ _ _ _ Hopen Hdata Hp Hl Hb).
        destruct (f_closeerr f =? 0); simpl; [reflexivity | apply die_fails_fatally].
      + rewrite (proc_string_not_found env _ _ _ _ _ Hmax Hopen Hdata
                   (find_line_none _ _ Hls Hfind)).
        destruct (f_readerr f =? 0); simpl; apply die_fails_fatally. }
  split; [exact Main|].
  intros rest w' Hr.
  assert (Hno : forall w0, fails_fatally env w0 r -> False).
  { intros w0 Hf. destruct (fails_fatally_stops _ _ Hf) as [h Hh].
    rewrite Hr in Hh. discriminate. }
  destruct (os_fopen env (ticks w) filename) as [errno|f]; [destruct (Hno _ Main)|].
  exists f. split; [reflexivity|].
  destruct (find_line line ls) as [rest0|]; [|destruct (Hno _ Main)].
  destruct (f_closeerr f =? 0) eqn:Hc; [|destruct (Hno _ Main)].
  apply Z.eqb_eq in Hc. rewrite Hr in Main. injection Main as <- _. auto.
Qed.

End Reader.

Lemma proc_string_text_file_witness :
  proc_string traced_env (lit "/proc/self/status") tracer_pid_label initial_world
  = (Ret (lit "77"), ticked initial_world).
Proof.
  pose proof (proc_string_text_file traced_env initial_world
                (lit "/proc/self/status") tracer_pid_label
                [lit "Name:" ++ [TAB] ++ lit "watchthreads-reorder";
                 lit "State:" ++ [TAB] ++ lit "R (running)";
                 tracer_pid_label ++ lit "77"]) as H.
  simpl in H. apply H.
  - lia.
  - intros f [= <-]. split; reflexivity.
Defined.

(** C5 as stated fails in both directions.  With a failing [fclose] the
    call exits with failure although the file opens, no read error is
    pending and a line begins with the label; on a file whose last line
    has no newline and where no line begins with the label, the call
    aborts on its assertion and neither prints its diagnostic nor
    exits. *)
Lemma proc_string_exactly_when_fails :
  (let env := env_with_file (inr close_fails) in
   proc_string env (lit "/proc/self/status") (lit "x") initial_world
   = (Stop (Exit EXIT_FAILURE),
      logged (EvPrint stderr (MsgFclose (lit "/proc/self/status") (lit "x") 5))
        (ticked initial_world))
   /\ os_fopen env 0 (lit "/proc/self/status") = inr close_fails
   /\ f_readerr close_fails = 0
   /\ f_data close_fails = unlines [lit "x"]
   /\ find_line (lit "x") [lit "x"] = Some [])
  /\
  (let env := env_with_file (inr unterminated) in
   proc_string env (lit "/proc/self/status") (lit "x") initial_world
   = (Stop Abort, ticked initial_world)
   /\ os_fopen env 0 (lit "/proc/self/status") = inr unterminated
   /\ f_data unterminated = lit "abc"
   /\ begins_with (lit "x") (lit "abc") = false).
Proof. vm_compute. repeat split. Qed.

Section Numbers.

Variable env : environment.

Lemma fgets_read_full k l rest :
  ~ In NL l -> (k <= length l)%nat ->
  fgets_read k (l ++ rest) = (firstn k l, skipn k l ++ rest, AtFull).
Proof.
  revert l; induction k as [|k IH]; intros l Hnl Hk; [reflexivity|].
  destruct l as [|c l]; simpl in Hk; [lia|]. simpl.
  destruct (Ascii.eqb c NL) eqn:E.
  - apply Ascii.eqb_eq in E. exfalso; apply Hnl; left; exact E.
  - rewrite IH; [reflexivity | intros H; apply Hnl; right; exact H | lia].
Qed.

Lemma fgets_read_end k l :
  ~ In NL l -> (length l < k)%nat -> fgets_read k l = (l, [], AtEnd).
Proof.
  revert l; induction k as [|k IH]; intros l Hnl Hk; [lia|].
  destruct l as [|c l]; [reflexivity|]. simpl in *.
  destruct (Ascii.eqb c NL) eqn:E.
  - apply Ascii.eqb_eq in E. exfalso; apply Hnl; left; exact E.
  - rewrite IH; [reflexivity | intros H; apply Hnl; right; exact H | lia].
Qed.

Lemma scan_no_newline t f chunk data' e filename line :
  fgets (LINE_MAX env) data' (f_readerr f) = (Some chunk, e, 0) ->
  ~ In NL chunk ->
  proc_string_loop env (S t) f data' filename line = halt_with Abort.
Proof.
  intros Hf Hnl. simpl. rewrite Hf.
  assert (H : strchr (cstr chunk) NL = None).
  { apply strchr_none. intros Hin. apply Hnl, cstr_incl, Hin. }
  rewrite H. reflexivity.
Qed.

Lemma exit_bind {A B} status (k : A -> M B) (w : world) :
  bind (exit env status) k w = exit env status w.
Proof.
  unfold bind at 1. unfold exit.
  destruct (atexit_cleanup w); [|reflexivity].
  unfold bind. destruct (cleanup env w) as [[[]|h] w']; reflexivity.
Qed.

Lemma bind_die {A B} s m status (k : A -> M B) (w : world) :
  bind (fprintf s m ;; exit env status) k w = (fprintf s m ;; exit env status) w.
Proof.
  unfold bind. rewrite fprintf_run. apply (exit_bind status k).
Qed.

Lemma proc_ulong_returns (w w' : world) (filename line s : list ascii) :
  proc_string env filename line w = (Ret s, w') ->
  0 <= parsed_value s < LONG_MAX env ->
  trailing s = [] ->
  proc_ulong env filename line w = (Ret (parsed_value s), w').
Proof.
  intros Hs Hv Ht. unfold proc_ulong, bind. rewrite Hs.
  unfold parsed_value, trailing, strtol in *.
  destruct (strtol_exact s) as [[v e]|].
  - subst e.
    replace (v >? LONG_MAX env) with false by lia.
    replace (v <? - LONG_MAX env - 1) with false by lia.
    replace (v <? 0) with false by lia.
    replace (v >=? LONG_MAX env) with false by lia. reflexivity.
  - subst s. replace (0 >=? LONG_MAX env) with false by lia. reflexivity.
Qed.

Lemma skipn_app_exact (a b : list ascii) : skipn (length a) (a ++ b) = b.
Proof. induction a; simpl; auto. Qed.

Lemma proc_string_field w filename label f pre rest post :
  os_fopen env (ticks w) filename = inr f ->
  f_data f = unlines pre ++ (label ++ rest) ++ NL :: post ->
  passed_over env label pre = true ->
  text_line env (label ++ rest) = true ->
  f_closeerr f = 0 ->
  proc_string env filename label w = (Ret rest, ticked w).
Proof.
  intros Hopen Hdata Hpre Ht Hclose.
  rewrite (proc_string_found env _ _ _ _ _ _ _ Hopen Hdata Hpre Ht
             (begins_with_app _ _)), Hclose.
  simpl. rewrite skipn_app_exact. reflexivity.
Qed.

(** C10, as amended.  When the scan reaches it -- every line before is a
    text line that does not begin with the label -- a last line without
    newline (no read error pending), and likewise a line of at least
    [LINE_MAX - 1] characters, fails the assertion on [strchr]: the call
    aborts, printing none of its diagnostics and without [exit]. *)
Theorem proc_string_assertion_fails (w : world) (filename line : list ascii)
  (f : FILE) (pre : list (list ascii)) (bad : list ascii) :
  os_fopen env (ticks w) filename = inr f ->
  f_data f = unlines pre ++ bad ->
  passed_over env line pre = true ->
  (bad <> [] /\ has NL bad = false /\ f_readerr f = 0) \/
  (exists l rest, bad = l ++ rest /\ has NL l = false /\
                  (LINE_MAX env - 1 <= length l)%nat) ->
  proc_string env filename line w = (Stop Abort, ticked w).
Proof.
  intros Hopen Hdata Hpre Hbad.
  unfold proc_string, bind. rewrite ask_run, Hopen, Hdata.
  destruct (turns_split pre bad) as (k & -> & _).
  rewrite (scan_passed_over _ _ _ _ _ _ _ Hpre).
  assert (Hfull : forall l rest, bad = l ++ rest -> ~ In NL l ->
            (LINE_MAX env - 1 <= length l)%nat ->
            proc_string_loop env (S k) f bad filename line = halt_with Abort).
  { intros l rest -> Hnl Hlen.
    apply (scan_no_newline k f (firstn (LINE_MAX env - 1) l)
             (l ++ rest) (skipn (LINE_MAX env - 1) l ++ rest)).
    - unfold fgets. rewrite (fgets_read_full _ _ _ Hnl Hlen). reflexivity.
    - intros Hin. apply Hnl. rewrite <- (firstn_skipn (LINE_MAX env - 1) l).
      apply in_or_app; left; exact Hin. }
  destruct Hbad as [(Hne & Hnl & Herr) | (l & rest & Hb & Hnl & Hlen)].
  - apply has_false in Hnl.
    destruct (le_lt_dec (LINE_MAX env - 1) (length bad)) as [Hle|Hlt].
    + rewrite (Hfull bad [] (eq_sym (app_nil_r bad)) Hnl Hle). reflexivity.
    + rewrite (scan_no_newline k f bad bad [] filename line); [reflexivity | | exact Hnl].
      unfold fgets. rewrite (fgets_read_end _ _ Hnl Hlt), Herr. simpl.
      destruct bad; [congruence | reflexivity].
  - apply has_false in Hnl. rewrite (Hfull l rest Hb Hnl Hlen). reflexivity.
Qed.

(** C3, as amended.  From a status file whose first line beginning with
    [TracerPid:\t] is [TracerPid:\t4321] -- the lines before it being
    text lines, and [fclose] succeeding -- [proc_ulong] returns 4321;
    from a text file none of whose lines begins with the label it prints
    a diagnostic and exits with failure, and returns no value. *)
Theorem proc_ulong_round_trip (w : world) (filename : list ascii) (f : FILE) :
  4321 < LONG_MAX env ->
  (17 <= LINE_MAX env)%nat ->
  os_fopen env (ticks w) filename = inr f ->
  (forall pre post,
      f_data f = unlines pre ++ (tracer_pid_label ++ lit "4321") ++ NL :: post ->
      passed_over env tracer_pid_label pre = true ->
      f_closeerr f = 0 ->
      proc_ulong env filename tracer_pid_label w = (Ret 4321, ticked w))
  /\
  (forall label ls,
      f_data f = unlines ls ->
      passed_over env label ls = true ->
      fails_fatally env (ticked w) (proc_ulong env filename label w) /\
      forall v w', proc_ulong env filename label w <> (Ret v, w')).
Proof.
  intros Hlong Hline Hopen. split.
  - intros pre post Hdata Hpre Hclose.
    assert (Ht : text_line env (tracer_pid_label ++ lit "4321") = true).
    { unfold text_line. apply andb_true_iff; split; [reflexivity|].
      apply Nat.leb_le. simpl. lia. }
    pose proof (proc_string_field _ _ _ _ _ _ _ Hopen Hdata Hpre Ht Hclose) as Hs.
    apply (proc_ulong_returns w (ticked w) filename tracer_pid_label (lit "4321") Hs).
    + change (parsed_value (lit "4321")) with 4321. lia.
    + reflexivity.
  - intros label ls Hdata Hpre.
    assert (Hf : fails_fatally env (ticked w) (proc_ulong env filename label w)).
    { unfold proc_ulong.
      assert (Hmax : (2 <= LINE_MAX env)%nat) by lia.
      unfold bind at 1.
      rewrite (proc_string_not_found env _ _ _ _ _ Hmax Hopen Hdata Hpre).
      destruct (f_readerr f =? 0); simpl.
      + pose proof (bind_die (A:=list ascii) (B:=Z) stderr
                      (MsgNoLine filename label) EXIT_FAILURE) as Hd.
        unfold bind at 1 in Hd. rewrite Hd. apply die_fails_fatally.
      + pose proof (bind_die (A:=list ascii) (B:=Z) stderr
                      (MsgFgets filename (f_readerr f)) EXIT_FAILURE) as Hd.
        unfold bind at 1 in Hd. rewrite Hd. apply die_fails_fatally. }
    split; [exact Hf|].
    intros v w' Hr. destruct (fails_fatally_stops env _ _ Hf) as [h Hh].
    rewrite Hr in Hh. discriminate.
Qed.

(** C9, as amended.  When the first line beginning with the label is the
    label alone -- the lines before it being text lines, and [fclose]
    succeeding -- [proc_ulong] returns 0: [strtol] converts nothing from
    the empty remainder, yields 0 and leaves [end] at its terminator. *)
Theorem proc_ulong_empty_remainder (w : world) (filename label : list ascii)
  (f : FILE) (pre : list (list ascii)) (post : list ascii) :
  0 < LONG_MAX env ->
  os_fopen env (ticks w) filename = inr f ->
  f_data f = unlines pre ++ label ++ NL :: post ->
  passed_over env label pre = true ->
  text_line env label = true ->
  f_closeerr f = 0 ->
  proc_ulong env filename label w = (Ret 0, ticked w).
Proof.
  intros Hlong Hopen Hdata Hpre Ht Hclose.
  rewrite <- (app_nil_r label) in Hdata at 1. rewrite <- (app_nil_r label) in Ht.
  pose proof (proc_string_field _ _ _ _ _ _ _ Hopen Hdata Hpre Ht Hclose) as Hs.
  apply (proc_ulong_returns w (ticked w) filename label [] Hs).
  - change (parsed_value []) with 0. lia.
  - reflexivity.
Qed.

(** C4, as amended.  On the remainder [s] of the matched line,
    [proc_ulong] prints a diagnostic and exits with failure when the
    number read is negative, overflows [long], equals [LONG_MAX], or is
    followed by further characters; otherwise it returns the number. *)
Theorem proc_ulong_checks (w w' : world) (filename line s : list ascii) :
  0 <= LONG_MAX env ->
  proc_string env filename line w = (Ret s, w') ->
  let r := proc_ulong env filename line w in
  (parsed_value s < 0 \/ overflows env s \/ parsed_value s = LONG_MAX env
   \/ trailing s <> [] -> fails_fatally env w' r)
  /\
  (~ (parsed_value s < 0 \/ overflows env s \/ parsed_value s = LONG_MAX env
      \/ trailing s <> []) -> r = (Ret (parsed_value s), w')).
Proof.
  intros Hlong Hs r. subst r. unfold proc_ulong, bind. rewrite Hs.
  unfold overflows, parsed_value, trailing, strtol.
  destruct (strtol_exact s) as [[v e]|].
  - destruct (v >? LONG_MAX env) eqn:E1.
    + replace (LONG_MAX env >=? LONG_MAX env) with true by lia.
      rewrite orb_true_r. simpl. split; [intros _; apply die_fails_fatally | lia].
    + destruct (v <? - LONG_MAX env - 1) eqn:E2.
      * replace (- LONG_MAX env - 1 <? 0) with true by lia. simpl.
        split; [intros _; apply die_fails_fatally | lia].
      * destruct (v <? 0) eqn:E3; simpl;
          [split; [intros _; apply die_fails_fatally | lia]|].
        destruct (v >=? LONG_MAX env) eqn:E4; simpl;
          [split; [intros _; apply die_fails_fatally | lia]|].
        destruct e as [|c e]; simpl.
        -- split; [intros [H|[[H|H]|[H|H]]]; try lia; congruence | reflexivity].
        -- split; [intros _; apply die_fails_fatally|].
           intros H; exfalso; apply H. right; right; right. discriminate.
  - simpl. destruct (0 >=? LONG_MAX env) eqn:E4; simpl;
      [split; [intros _; apply die_fails_fatally | lia]|].
    destruct s as [|c s]; simpl.
    + split; [intros [H|[[H|H]|[H|H]]]; try lia; congruence | reflexivity].
    + split; [intros _; apply die_fails_fatally|].
      intros H; exfalso; apply H. right; right; right. discriminate.
Qed.

End Numbers.

Lemma proc_string_assertion_fails_witness :
  proc_string (env_with_file (inr unterminated)) (lit "/proc/self/status")
    (lit "x") initial_world
  = (Stop Abort, ticked initial_world).
Proof.
  apply (proc_string_assertion_fails _ _ _ _ unterminated [] (lit "abc")).
  - reflexivity.
  - reflexivity.
  - reflexivity.
  - left. split; [discriminate | split; reflexivity].
Defined.

(** C10 as stated fails: the last line of this file has no newline, yet
    the call returns, because its first line begins with the label and
    the last line is never read. *)
Lemma proc_string_unread_line_harmless :
  let env := env_with_file (inr match_then_unterminated) in
  f_data match_then_unterminated = unlines [lit "L:1"] ++ lit "xyz"
  /\ has NL (lit "xyz") = false
  /\ proc_string env (lit "/proc/self/status") (lit "L:") initial_world
     = (Ret (lit "1"), ticked initial_world).
Proof. vm_compute. repeat split. Qed.

Lemma proc_ulong_round_trip_witness :
  proc_ulong (env_with_file (inr field_4321)) (lit "/proc/self/status")
    tracer_pid_label initial_world
  = (Ret 4321, ticked initial_world).
Proof.
  refine (proj1 (proc_ulong_round_trip (env_with_file (inr field_4321))
                   initial_world (lit "/proc/self/status") field_4321 _ _ _)
            [lit "Name:" ++ [TAB] ++ lit "a"]
            (lit "Uid:" ++ [TAB] ++ lit "1000" ++ [NL]) _ _ _).
  - reflexivity.
  - simpl. lia.
  - reflexivity.
  - reflexivity.
  - reflexivity.
  - reflexivity.
Defined.

(** C3 as stated fails, in both halves: a file that contains the line
    [TracerPid:\t4321] after another line with the same label yields 5,
    the field of the first; and from a file without any line beginning
    with the label, whose only line is not terminated, [proc_ulong]
    aborts on the assertion of [proc_string], printing no diagnostic and
    without [exit]. *)
Lemma proc_ulong_round_trip_fails :
  (f_data second_field_4321
   = unlines [tracer_pid_label ++ lit "5"; tracer_pid_label ++ lit "4321"]
   /\ proc_ulong (env_with_file (inr second_field_4321)) (lit "/proc/self/status")
        tracer_pid_label initial_world
      = (Ret 5, ticked initial_world))
  /\
  (f_data unterminated = lit "abc"
   /\ begins_with tracer_pid_label (lit "abc") = false
   /\ proc_ulong (env_with_file (inr unterminated)) (lit "/proc/self/status")
        tracer_pid_label initial_world
      = (Stop Abort, ticked initial_world)).
Proof. vm_compute. repeat split. Qed.

Lemma proc_ulong_empty_remainder_witness :
  proc_ulong (env_with_file (inr empty_field)) (lit "/proc/self/status")
    tracer_pid_label initial_world
  = (Ret 0, ticked initial_world).
Proof.
  apply (proc_ulong_empty_remainder _ _ _ _ empty_field
           [lit "Name:" ++ [TAB] ++ lit "a"] []); reflexivity.
Defined.

(** C9 as stated fails: this file contains a line made of the label
    alone, yet [proc_ulong] returns 7, the field of an earlier line with
    the same label. *)
Lemma proc_ulong_empty_remainder_shadowed :
  f_data second_field_empty
  = unlines [tracer_pid_label ++ lit "7"; tracer_pid_label]
  /\ proc_ulong (env_with_file (inr second_field_empty)) (lit "/proc/self/status")
       tracer_pid_label initial_world
     = (Ret 7, ticked initial_world).
Proof. vm_compute. repeat split. Qed.

Lemma proc_ulong_checks_witness :
  proc_ulong traced_env (lit "/proc/self/status") tracer_pid_label initial_world
  = (Ret 77, ticked initial_world).
Proof.
  refine (proj2 (proc_ulong_checks traced_env initial_world (ticked initial_world)
                   (lit "/proc/self/status") tracer_pid_label (lit "77") _ _) _).
  - discriminate.
  - reflexivity.
  - unfold overflows.
    change (parsed_value (lit "77")) with 77.
    change (trailing (lit "77")) with (@nil ascii).
    change (LONG_MAX traced_env) with 9223372036854775807.
    intros [H|[[H|H]|[H|H]]]; try lia. congruence.
Defined.

(** C4 as stated fails: the field [9223372036854775807] is [LONG_MAX]
    itself, read without overflow, not negative and with nothing after
    it, yet [proc_ulong] exits with failure instead of returning it. *)
Lemma proc_ulong_rejects_long_max :
  let env := env_with_file (inr long_max_field) in
  let s := lit "9223372036854775807" in
  proc_string env (lit "/proc/self/status") tracer_pid_label initial_world
  = (Ret s, ticked initial_world)
  /\ parsed_value s = LONG_MAX env
  /\ trailing s = []
  /\ ~ parsed_value s < 0
  /\ ~ overflows env s
  /\ proc_ulong env (lit "/proc/self/status") tracer_pid_label initial_world
     = (Stop (Exit EXIT_FAILURE),
        logged (EvPrint stderr (MsgUlong (lit "/proc/self/status") tracer_pid_label
                                  9223372036854775807 0))
          (ticked initial_world)).
Proof.
  repeat split; try (vm_compute; congruence).
  unfold overflows. intros [H|H]; vm_compute in H; congruence.
Qed.

(** ** Resumption of the tracer *)

Section Resumption.

Variable env : environment.

Lemma cleanup_no_tracer (w : world) :
  tracer w = 0 ->
  cleanup env w =
  (Ret tt, logged (EvPrint stdout (MsgResuming (to_ulong env (tracer w)))) w).
Proof.
  intros H. unfold cleanup, bind, load_tracer, printf. simpl.
  rewrite (proj2 (Z.eqb_eq _ _) H). simpl. reflexivity.
Qed.

Lemma cleanup_tracer (w : world) :
  tracer w <> 0 ->
  cleanup env w =
  ((if os_kill env (ticks w) (tracer w) SIGCONT =? 0 then Ret tt else Stop Abort),
   {| ticks := S (ticks w); tracer := 0; atexit_cleanup := atexit_cleanup w;
      trace := trace w ++ [EvPrint stdout (MsgResuming (to_ulong env (tracer w)));
                           EvTracer 0; EvKill (tracer w) SIGCONT] |}).
Proof.
  intros H. unfold cleanup, bind, load_tracer, printf, kill, store_tracer, ask, emit.
  simpl. apply Z.eqb_neq in H. rewrite H. simpl.
  rewrite <- !app_assoc. simpl.
  destruct (os_kill env (ticks w) (tracer w) SIGCONT =? 0); reflexivity.
Qed.

(** C2.  Whatever the recorded tracer, after one call of [cleanup] it is
    0; two calls in succession send at most one SIGCONT, none of them in
    the second call; the one signal goes to the tracer that was recorded,
    after the store that clears the record. *)
Theorem cleanup_idempotent (w : world) :
  let r1 := cleanup env w in
  let r2 := (cleanup env ;; cleanup env) w in
  tracer (snd r1) = 0 /\
  exists d1 d2,
    trace (snd r1) = trace w ++ d1 /\
    trace (snd r2) = trace w ++ d1 ++ d2 /\
    (sent SIGCONT (d1 ++ d2) <= 1)%nat /\
    sent SIGCONT d1 = (if tracer w =? 0 then 0%nat else 1%nat) /\
    sent SIGCONT d2 = 0%nat /\
    (forall a pid b, d1 = a ++ EvKill pid SIGCONT :: b ->
                     pid = tracer w /\ In (EvTracer 0) a).
Proof.
  intros r1 r2. subst r1 r2. unfold bind.
  destruct (Z.eq_dec (tracer w) 0) as [H0|H0].
  - rewrite (cleanup_no_tracer w H0). cbv beta iota.
    rewrite cleanup_no_tracer by exact H0.
    split; [exact H0|].
    eexists [_], [_]. rewrite (proj2 (Z.eqb_eq _ _) H0).
    split; [reflexivity|]. split; [simpl; rewrite <- app_assoc; reflexivity|].
    split; [unfold sent; simpl; lia|]. split; [reflexivity|]. split; [reflexivity|].
    intros a pid b H.
    destruct a as [|e a]; simpl in H; inversion H; destruct a; discriminate.
  - rewrite (cleanup_tracer w H0). cbv beta iota. split; [reflexivity|].
    assert (Hs : (tracer w =? 0) = false) by (apply Z.eqb_neq; exact H0).
    assert (Hone : forall a pid b,
               [EvPrint stdout (MsgResuming (to_ulong env (tracer w)));
                EvTracer 0; EvKill (tracer w) SIGCONT] = a ++ EvKill pid SIGCONT :: b ->
               pid = tracer w /\ In (EvTracer 0) a).
    { intros a pid b H.
      destruct a as [|e0 [|e1 [|e2 a]]]; simpl in H; inversion H; subst.
      - split; [reflexivity | right; left; reflexivity].
      - destruct a; discriminate. }
    rewrite Hs.
    destruct (os_kill env (ticks w) (tracer w) SIGCONT =? 0).
    + rewrite cleanup_no_tracer by reflexivity.
      eexists _, [_].
      split; [reflexivity|]. split; [simpl; rewrite <- app_assoc; reflexivity|].
      split; [unfold sent; simpl; lia|]. split; [reflexivity|]. split; [reflexivity|].
      exact Hone.
    + eexists _, [].
      split; [reflexivity|]. split; [rewrite app_nil_r; reflexivity|].
      split; [unfold sent; simpl; lia|]. split; [reflexivity|]. split; [reflexivity|].
      exact Hone.
Qed.

End Resumption.

(** ** The orchestrator: command line and tracer discovery *)

Section Orchestrator.

Variable env : environment.

Lemma bind_run {A B} (m : M A) (k : A -> M B) (w w' : world) (a : A) :
  m w = (Ret a, w') -> bind m k w = k a w'.
Proof. intros H. unfold bind. rewrite H. reflexivity. Qed.

Lemma bind_load {B} (k : Z -> M B) (w : world) :
  bind load_tracer k w = k (tracer w) w.
Proof. reflexivity. Qed.

Lemma bind_store {B} (v : Z) (k : unit -> M B) (w : world) :
  bind (store_tracer v) k w = k tt (snd (store_tracer v w)).
Proof. reflexivity. Qed.

(** C8.  With no argument [main] runs in traced mode; with the single
    argument [-s] it runs in standalone mode, which skips the tracer
    discovery; every other command line fails the assertion on [argc]
    before anything else is done. *)
Theorem main_command_line (fuel : nat) (argv : list (list ascii)) (w : world) :
  main env fuel argv w =
  match argv with
  | [_] =>
      (main_start env fuel ;; main_tracer env 0 ;;
       main_rendezvous env fuel ;; main_finish env) w
  | [_; a] =>
      if strcmp_eq a (lit "-s")
      then (main_start env fuel ;; main_tracer env 1 ;;
            main_rendezvous env fuel ;; main_finish env) w
      else (Stop Abort, w)
  | _ => (Stop Abort, w)
  end
  /\ main_tracer env 1 = ret tt
  /\ (forall a, strcmp_eq a (lit "-s") = true <-> a = lit "-s").
Proof.
  split; [|split; [reflexivity | intros a; apply list_eqb_eq]].
  unfold main, main_args.
  destruct argv as [|p [|a [|b rest]]]; try reflexivity.
  - cbn [length nth]. change (Z.of_nat 2 =? 2) with true. cbn [andb].
    destruct (strcmp_eq a (lit "-s")); reflexivity.
  - assert (H2 : (Z.of_nat (length (p :: a :: b :: rest)) =? 2) = false).
    { apply Z.eqb_neq. simpl length. lia. }
    assert (H1 : (Z.of_nat (length (p :: a :: b :: rest)) =? 1) = false).
    { apply Z.eqb_neq. simpl length. lia. }
    rewrite H2, H1. reflexivity.
Qed.

(** C7.  In traced mode, once the gates are taken and the workers
    started, [main] stores the TracerPid field of /proc/self/status in
    [tracer]; if that is 0, or is not the parent's identifier, it prints
    the matching diagnostic and exits with failure. *)
Theorem main_requires_parent_tracer (fuel : nat) (prog : list ascii)
  (w w1 w2 : world) (v : Z) :
  main_start env fuel w = (Ret tt, w1) ->
  proc_ulong env (lit "/proc/self/status") tracer_pid_label w1 = (Ret v, w2) ->
  to_int v = 0 \/ to_int v <> os_getppid env ->
  main env fuel [prog] w =
  exit env EXIT_FAILURE
    (logged (EvPrint stderr (if to_int v =? 0 then MsgMustRunByGDB
                             else MsgParentMustBeTracer))
       (snd (store_tracer (to_int v) w2))).
Proof.
  intros Hstart Hread Hbad.
  set (msg := if to_int v =? 0 then MsgMustRunByGDB else MsgParentMustBeTracer).
  assert (Ht : main_tracer env 0 w1 =
               (fprintf stderr msg ;; exit env EXIT_FAILURE)
                 (snd (store_tracer (to_int v) w2))).
  { unfold main_tracer. change (0 =? 0) with true. cbv iota.
    unfold tracer_pid_label in Hread.
    rewrite (bind_run _ _ _ _ _ Hread).
    rewrite bind_store, bind_load.
    change (tracer (snd (store_tracer (to_int v) w2))) with (to_int v).
    subst msg. destruct (to_int v =? 0) eqn:E0; [reflexivity|].
    rewrite bind_load.
    change (tracer (snd (store_tracer (to_int v) w2))) with (to_int v).
    destruct (to_int v =? os_getppid env) eqn:Ep; [|reflexivity].
    apply Z.eqb_neq in E0. apply Z.eqb_eq in Ep. destruct Hbad; contradiction. }
  unfold main.
  rewrite (bind_run (main_args [prog]) _ w w 0 eq_refl).
  rewrite (bind_run _ _ _ _ _ Hstart).
  unfold bind at 1. rewrite Ht.
  apply (bind_die env stderr msg EXIT_FAILURE
           (fun _ : unit => main_rendezvous env fuel ;; main_finish env)).
Qed.

End Orchestrator.

Lemma main_requires_parent_tracer_witness :
  fst (main untraced_env 1 [lit "watchthreads-reorder"] initial_world)
  = Stop (Exit EXIT_FAILURE).
Proof.
  pose (w1 := snd (main_start untraced_env 1 initial_world)).
  pose (w2 := snd (proc_ulong untraced_env (lit "/proc/self/status")
                     tracer_pid_label w1)).
  assert (H1 : main_start untraced_env 1 initial_world = (Ret tt, w1))
    by (vm_compute; reflexivity).
  assert (H2 : proc_ulong untraced_env (lit "/proc/self/status") tracer_pid_label w1
               = (Ret 0, w2))
    by (vm_compute; reflexivity).
  rewrite (main_requires_parent_tracer untraced_env 1 (lit "watchthreads-reorder")
             initial_world w1 w2 0 H1 H2 (or_introl eq_refl)).
  vm_compute. reflexivity.
Defined.

(** ** Bounded lock acquisition *)

Section Lock.

Variable env : environment.
Variable m : mutex.

Hypothesis never_released : forall n, os_mutex_trylock env n m = EBUSY.
Hypothesis clock_works : forall n, fst (os_clock_gettime env n) = 0.

Lemma TIMEOUT_pos : 0 < TIMEOUT env.
Proof. unfold TIMEOUT. destruct (os_gettid env =? os_getpid env); lia. Qed.

Lemma trylock_busy (w : world) :
  pthread_mutex_trylock env m w = (Ret EBUSY, ticked w).
Proof.
  unfold pthread_mutex_trylock, bind. rewrite ask_run, never_released. reflexivity.
Qed.

Lemma busy_turn fuel start (w : world) :
  let now := snd (os_clock_gettime env (S (ticks w))) in
  tv_sec start <= tv_sec now ->
  timed_mutex_lock_loop env (S fuel) m start w =
  if tv_sec now - tv_sec start <? TIMEOUT env
  then timed_mutex_lock_loop env fuel m start (at_tick (S (S (ticks w))) w)
  else (fprintf stderr MsgLockTimeout ;; exit env EXIT_FAILURE)
         (at_tick (S (S (ticks w))) w).
Proof.
  intros now Hmono. subst now.
  cbn [timed_mutex_lock_loop].
  rewrite (bind_run _ _ _ _ _ (trylock_busy w)).
  change (EBUSY =? 0) with false. cbv iota.
  change (assert (EBUSY =? EBUSY)) with (ret tt).
  rewrite (bind_run (ret tt) _ _ _ tt eq_refl).
  unfold clock_gettime. rewrite (bind_run _ _ _ _ _ (ask_run _ _)).
  change (ticks (ticked w)) with (S (ticks w)).
  change (ticked (ticked w)) with (at_tick (S (S (ticks w))) w).
  pose proof (clock_works (S (ticks w))) as Hc.
  destruct (os_clock_gettime env (S (ticks w))) as [i now]. simpl in Hc, Hmono.
  subst i. change (assert (0 =? 0)) with (ret tt).
  rewrite (bind_run (ret tt) _ _ _ tt eq_refl).
  replace (tv_sec now >=? tv_sec start) with true by lia.
  rewrite (bind_run (assert true) _ _ _ tt eq_refl).
  cbn [snd]. destruct (tv_sec now - tv_sec start <? TIMEOUT env); reflexivity.
Qed.

Lemma contended_loop n : forall fuel start (w : world),
  (n < fuel)%nat ->
  (forall i, (i < n)%nat ->
     0 <= tv_sec (snd (os_clock_gettime env (ticks w + 1 + 2 * i)))
          - tv_sec start < TIMEOUT env) ->
  TIMEOUT env <= tv_sec (snd (os_clock_gettime env (ticks w + 1 + 2 * n)))
                 - tv_sec start ->
  timed_mutex_lock_loop env fuel m start w =
  (fprintf stderr MsgLockTimeout ;; exit env EXIT_FAILURE)
    (at_tick (ticks w + 2 * n + 2) w).
Proof.
  pose proof TIMEOUT_pos as Hpos.
  induction n as [|n IH]; intros fuel start w Hfuel Hbefore Hat.
  - destruct fuel as [|fuel]; [lia|].
    replace (ticks w + 1 + 2 * 0)%nat with (S (ticks w)) in Hat by lia.
    rewrite busy_turn by lia.
    replace (_ <? _) with false by lia.
    replace (ticks w + 2 * 0 + 2)%nat with (S (S (ticks w))) by lia. reflexivity.
  - destruct fuel as [|fuel]; [lia|].
    pose proof (Hbefore O ltac:(lia)) as H0.
    replace (ticks w + 1 + 2 * 0)%nat with (S (ticks w)) in H0 by lia.
    rewrite busy_turn by lia.
    replace (_ <? _) with true by lia.
    rewrite (IH fuel start (at_tick (S (S (ticks w))) w)).
    + cbn [at_tick ticks]. unfold at_tick. cbn [ticks tracer atexit_cleanup trace].
      replace (S (S (ticks w)) + 2 * n + 2)%nat with (ticks w + 2 * S n + 2)%nat by lia.
      reflexivity.
    + lia.
    + intros i Hi. cbn [at_tick ticks].
      replace (S (S (ticks w)) + 1 + 2 * i)%nat with (ticks w + 1 + 2 * S i)%nat by lia.
      apply Hbefore. lia.
    + cbn [at_tick ticks].
      replace (S (S (ticks w)) + 1 + 2 * n)%nat with (ticks w + 1 + 2 * S n)%nat by lia.
      exact Hat.
Qed.

End Lock.

(** C6, as amended.  While the lock is never released [timed_mutex_lock]
    keeps polling as long as the whole seconds of the monotonic clock
    differ from those of its first reading by less than the budget (10
    for the main thread, 15 for any other), and at the first poll [K]
    where they differ by the budget or more it prints its diagnostic to
    the error stream and exits with failure.  In elapsed time: it fails
    only after more than budget - 1 seconds, and no poll before the
    failing one saw budget seconds elapsed. *)
Theorem timed_mutex_lock_times_out (env : environment) (m : mutex) (w : world)
  (K fuel : nat) :
  let start := snd (os_clock_gettime env (ticks w)) in
  let now j := snd (os_clock_gettime env (ticks w + 2 + 2 * j)) in
  (forall n, os_mutex_trylock env n m = EBUSY) ->
  (forall n, fst (os_clock_gettime env n) = 0 /\
             valid_timespec (snd (os_clock_gettime env n))) ->
  (forall j, (j < K)%nat -> 0 <= tv_sec (now j) - tv_sec start < TIMEOUT env) ->
  TIMEOUT env <= tv_sec (now K) - tv_sec start ->
  (K < fuel)%nat ->
  timed_mutex_lock env fuel m w =
    exit env EXIT_FAILURE
      (logged (EvPrint stderr MsgLockTimeout) (at_tick (ticks w + 2 * K + 3) w))
  /\ TIMEOUT env = (if os_gettid env =? os_getpid env then 10 else 15)
  /\ (TIMEOUT env - 1) * 1000000000 < elapsed_ns start (now K)
  /\ (forall j, (j < K)%nat -> elapsed_ns start (now j) < TIMEOUT env * 1000000000).
Proof.
  intros start now Hbusy Hclock Hbefore Hat Hfuel.
  assert (Hcode : forall n, fst (os_clock_gettime env n) = 0) by (intros n; apply Hclock).
  assert (Hv : forall n, valid_timespec (snd (os_clock_gettime env n)))
    by (intros n; apply Hclock).
  split; [|split; [reflexivity | split]].
  - unfold timed_mutex_lock, clock_gettime.
    rewrite (bind_run _ _ _ _ _ (ask_run _ _)).
    pose proof (Hcode (ticks w)) as Hc. subst start now.
    destruct (os_clock_gettime env (ticks w)) as [i start]. simpl in Hc, Hbefore, Hat.
    subst i. change (assert (0 =? 0)) with (ret tt).
    rewrite (bind_run (ret tt) _ _ _ tt eq_refl).
    rewrite (contended_loop env m Hbusy Hcode K fuel start (ticked w) Hfuel).
    + change (ticks (ticked w)) with (S (ticks w)).
      replace (S (ticks w) + 2 * K + 2)%nat with (ticks w + 2 * K + 3)%nat by lia.
      reflexivity.
    + intros i Hi. change (ticks (ticked w)) with (S (ticks w)).
      replace (S (ticks w) + 1 + 2 * i)%nat with (ticks w + 2 + 2 * i)%nat by lia.
      apply Hbefore, Hi.
    + change (ticks (ticked w)) with (S (ticks w)).
      replace (S (ticks w) + 1 + 2 * K)%nat with (ticks w + 2 + 2 * K)%nat by lia.
      exact Hat.
  - pose proof (Hv (ticks w)) as H1. pose proof (Hv (ticks w + 2 + 2 * K)%nat) as H2.
    fold start in H1. fold (now K) in H2.
    unfold elapsed_ns, valid_timespec in *. lia.
  - intros j Hj. pose proof (Hbefore j Hj) as Hb.
    pose proof (Hv (ticks w)) as H1. pose proof (Hv (ticks w + 2 + 2 * j)%nat) as H2.
    fold start in H1. fold (now j) in H2.
    unfold elapsed_ns, valid_timespec in *. lia.
Qed.

Lemma timed_mutex_lock_times_out_witness :
  timed_mutex_lock contended_env 5 terminate_mutex initial_world =
  (Stop (Exit EXIT_FAILURE),
   logged (EvPrint stderr MsgLockTimeout) (at_tick 11 initial_world)).
Proof.
  refine (proj1 (timed_mutex_lock_times_out contended_env terminate_mutex
                   initial_world 4 5 _ _ _ _ _)).
  - reflexivity.
  - intros n. split; [reflexivity|]. unfold valid_timespec. simpl. lia.
  - intros j Hj. unfold TIMEOUT. simpl. lia.
  - vm_compute. discriminate.
  - lia.
Defined.

(** C6 as stated fails: the main thread, whose budget is 10 seconds,
    gives up on a lock that is never released when only 9.000000001
    seconds have passed on the monotonic clock. *)
Lemma timed_mutex_lock_fires_early :
  let start := snd (os_clock_gettime early_env 0) in
  let now := snd (os_clock_gettime early_env 2) in
  os_gettid early_env = os_getpid early_env
  /\ TIMEOUT early_env = 10
  /\ (forall n m, os_mutex_trylock early_env n m = EBUSY)
  /\ timed_mutex_lock early_env 1 gdbstop_mutex initial_world =
     (Stop (Exit EXIT_FAILURE),
      logged (EvPrint stderr MsgLockTimeout) (at_tick 3 initial_world))
  /\ elapsed_ns start now = 9000000001
  /\ elapsed_ns start now < 10 * 1000000000.
Proof. repeat split. Qed.

(** ** What a call can add to the trace *)

Section Steps.

Variable env : environment.
Variable E : event -> Prop.
Hypothesis E_quiet : forall e, quiet e -> E e.

Lemma steps_ret keep {A} (a : A) : steps E keep (ret a).
Proof.
  intros w. simpl. split; [lia|]. split; [|reflexivity].
  exists []. rewrite app_nil_r. auto.
Qed.

Lemma steps_halt keep {A} (h : halt) : steps E keep (@halt_with A h).
Proof.
  intros w. simpl. split; [lia|]. split; [|reflexivity].
  exists []. rewrite app_nil_r. auto.
Qed.

Lemma steps_bind keep {A B} (m : M A) (k : A -> M B) :
  steps E keep m -> (forall a, steps E keep (k a)) -> steps E keep (bind m k).
Proof.
  intros Hm Hk w. unfold bind. specialize (Hm w).
  destruct (m w) as [[a|h] w1]; simpl in Hm.
  - specialize (Hk a w1). destruct Hm as (Ht & (d1 & Hd1 & HE1) & Hr).
    destruct Hk as (Ht' & (d2 & Hd2 & HE2) & Hr').
    split; [lia|]. split.
    + exists (d1 ++ d2). rewrite Hd2, Hd1, app_assoc. split; [reflexivity|].
      apply Forall_app; auto.
    + intros Hk Hret. rewrite (Hr' Hk Hret). apply (Hr Hk). eexists; reflexivity.
  - destruct Hm as (Ht & Hd & _). simpl. split; [exact Ht|]. split; [exact Hd|].
    intros _ [a Ha]. discriminate.
Qed.

Lemma steps_ask keep {A} (f : nat -> A) : steps E keep (ask f).
Proof.
  intros w. simpl. split; [lia|]. split; [|reflexivity].
  exists []. rewrite app_nil_r. auto.
Qed.

Lemma steps_emit keep (e : event) : E e -> steps E keep (emit e).
Proof.
  intros He w. simpl. split; [lia|]. split; [|reflexivity].
  exists [e]. auto.
Qed.

Lemma steps_assert keep (b : bool) : steps E keep (assert b).
Proof. destruct b; [apply steps_ret | apply steps_halt]. Qed.

Lemma steps_load keep : steps E keep load_tracer.
Proof.
  intros w. simpl. split; [lia|]. split; [|reflexivity].
  exists []. rewrite app_nil_r. auto.
Qed.

Lemma steps_store (v : Z) : steps E false (store_tracer v).
Proof.
  intros w. simpl. split; [lia|]. split; [|discriminate].
  exists [EvTracer v]. split; [reflexivity|]. repeat constructor.
  apply E_quiet. discriminate.
Qed.

Lemma steps_atexit keep : steps E keep atexit.
Proof.
  intros w. simpl. split; [lia|]. split; [|reflexivity].
  exists [EvAtexit]. split; [reflexivity|]. repeat constructor.
  apply E_quiet. discriminate.
Qed.

(** A call that never returns may change the tracer. *)
Lemma steps_no_return {A} (m : M A) keep :
  steps E false m -> (forall w a, fst (m w) <> Ret a) -> steps E keep m.
Proof.
  intros Hm Hn w. destruct (Hm w) as (Ht & Hd & _).
  split; [exact Ht|]. split; [exact Hd|].
  intros _ [a Ha]. destruct (Hn w a Ha).
Qed.

End Steps.

Create HintDb steps.

Ltac event_ok :=
  first [ exact I
        | assumption
        | match goal with H : forall e, quiet e -> ?E e |- ?E _ => apply H end;
          unfold quiet; discriminate
        | unfold quiet; discriminate ].

Ltac steps_go :=
  repeat first
    [ assumption
    | apply steps_ret
    | apply steps_halt
    | apply steps_ask
    | apply steps_assert
    | apply steps_load
    | apply steps_atexit; assumption
    | apply steps_store; assumption
    | solve [auto with steps nocore]
    | apply steps_emit; event_ok
    | apply steps_bind; [| intros ?]
    | match goal with
      | |- steps _ _ (if ?b then _ else _) => destruct b
      | |- steps _ _ (match ?r with (_, _) => _ end) => destruct r
      | |- steps _ _ (match ?r with Some _ => _ | None => _ end) => destruct r
      | |- steps _ _ (match ?r with inl _ => _ | inr _ => _ end) => destruct r
      end ].

Section ProgramSteps.

Variable env : environment.
Variable E : event -> Prop.
Hypothesis E_quiet : forall e, quiet e -> E e.

Lemma steps_cleanup : steps E false (cleanup env).
Proof. unfold cleanup, printf, kill. steps_go. Qed.

Lemma steps_exit keep {A} (status : Z) : steps E keep (@exit env A status).
Proof.
  apply steps_no_return; [|intros w a H; destruct (exit_stops env (A:=A) status w) as [h Hh];
                           rewrite Hh in H; discriminate].
  intros w. unfold exit. destruct (atexit_cleanup w).
  - apply (steps_bind E false (cleanup env) (fun _ => halt_with (Exit status))).
    + apply steps_cleanup.
    + intros _. apply steps_halt.
  - apply (steps_halt E false (Exit status)).
Qed.
Local Hint Resolve steps_exit : steps.

Lemma steps_trylock keep (m : mutex) : steps E keep (pthread_mutex_trylock env m).
Proof. unfold pthread_mutex_trylock. steps_go. Qed.
Local Hint Resolve steps_trylock : steps.

Lemma steps_unlock keep (m : mutex) :
  E (EvUnlock m) -> steps E keep (pthread_mutex_unlock env m).
Proof. intros He. unfold pthread_mutex_unlock. steps_go. Qed.

Lemma steps_create keep (t : thread) : steps E keep (pthread_create env t).
Proof. unfold pthread_create. steps_go. Qed.
Local Hint Resolve steps_create : steps.

Lemma steps_join keep (t : thread) : steps E keep (pthread_join env t).
Proof. unfold pthread_join. steps_go. Qed.
Local Hint Resolve steps_join : steps.

Lemma steps_cond_wait keep c m : steps E keep (pthread_cond_wait env c m).
Proof. unfold pthread_cond_wait. steps_go. Qed.
Local Hint Resolve steps_cond_wait : steps.

Lemma steps_kill keep pid sig : steps E keep (kill env pid sig).
Proof. unfold kill. steps_go. Qed.
Local Hint Resolve steps_kill : steps.

Lemma steps_timed_mutex_lock_loop keep fuel m start :
  steps E keep (timed_mutex_lock_loop env fuel m start).
Proof.
  induction fuel as [|fuel IH]; cbn [timed_mutex_lock_loop];
    unfold clock_gettime, fprintf; steps_go.
Qed.
Local Hint Resolve steps_timed_mutex_lock_loop : steps.

Lemma steps_timed_mutex_lock keep fuel m : steps E keep (timed_mutex_lock env fuel m).
Proof. unfold timed_mutex_lock, clock_gettime. steps_go. Qed.
Local Hint Resolve steps_timed_mutex_lock : steps.

Lemma steps_proc_string_loop keep turns f data filename line :
  steps E keep (proc_string_loop env turns f data filename line).
Proof.
  revert data; induction turns as [|turns IH]; intros data;
    cbn [proc_string_loop]; unfold fprintf; steps_go.
Qed.
Local Hint Resolve steps_proc_string_loop : steps.

Lemma steps_proc_string keep filename line :
  steps E keep (proc_string env filename line).
Proof. unfold proc_string, fprintf. steps_go. Qed.
Local Hint Resolve steps_proc_string : steps.

Lemma steps_proc_ulong keep filename line :
  steps E keep (proc_ulong env filename line).
Proof. unfold proc_ulong, fprintf. steps_go. Qed.
Local Hint Resolve steps_proc_ulong : steps.

Lemma steps_state_wait_loop keep fuel process wanted filename start :
  steps E keep (state_wait_loop env fuel process wanted filename start).
Proof.
  induction fuel as [|fuel IH]; cbn [state_wait_loop];
    unfold clock_gettime, sched_yield, fprintf; steps_go.
Qed.
Local Hint Resolve steps_state_wait_loop : steps.

Lemma steps_state_wait keep fuel process wanted :
  steps E keep (state_wait env fuel process wanted).
Proof. unfold state_wait, clock_gettime. steps_go. Qed.
Local Hint Resolve steps_state_wait : steps.

Lemma steps_main_start keep fuel : steps E keep (main_start env fuel).
Proof. unfold main_start. steps_go. Qed.



(** *** Hoare-style rules for the calls that return *)

Lemma bind_ret_inv {A B} (m : M A) (k : A -> M B) (w w' : world) (b : B) :
  bind m k w = (Ret b, w') ->
  exists a w1, m w = (Ret a, w1) /\ k a w1 = (Ret b, w').
Proof.
  unfold bind. destruct (m w) as [[a|h] w1]; [|discriminate].
  intros H. exists a, w1. auto.
Qed.








Lemma die_no_return {A} s msg status (w : world) (a : A) :
  fst ((fprintf s msg ;; exit env status) w) <> Ret a.
Proof.
  unfold bind. rewrite fprintf_run.
  destruct (exit_stops env (A:=A) status (logged (EvPrint s msg) w)) as [h Hh].
  rewrite Hh. discriminate.
Qed.

End ProgramSteps.



(** ** The order of the rendezvous *)

Section Rendezvous.

Variable env : environment.


Lemma quiet_quiet : forall e, quiet e -> quiet e.
Proof. auto. Qed.

Lemma run_extends {A} (m : M A) (w w' : world) (o : outcome A) :
  steps quiet true m -> m w = (o, w') ->
  exists d, trace w' = trace w ++ d /\ Forall quiet d.
Proof. intros Hm Hrun. destruct (Hm w) as (_ & Hd & _). rewrite Hrun in Hd. exact Hd. Qed.

Lemma die_not_ret {A} s msg status (w w' : world) (a : A) :
  (fprintf s msg ;; exit env status) w <> (Ret a, w').
Proof.
  intros H. apply (die_no_return env s msg status w a). rewrite H. reflexivity.
Qed.

Lemma state_wait_loop_ret fuel process wanted filename start : forall w w',
  state_wait_loop env fuel process wanted filename start w = (Ret tt, w') ->
  exists d, trace w' = trace w ++ d ++ [EvStateWait process wanted].
Proof.
  induction fuel as [|fuel IH]; intros w w' H; cbn [state_wait_loop] in H;
    [discriminate|].
  apply bind_ret_inv in H. destruct H as (state & w1 & Hread & H).
  destruct (run_extends _ _ _ _ (steps_proc_string env quiet quiet_quiet true _ _) Hread)
    as (d1 & Hd1 & _).
  destruct (strcmp_eq state wanted).
  - injection H as <-. exists d1. simpl. rewrite Hd1, app_assoc. reflexivity.
  - unfold sched_yield, clock_gettime in H.
    rewrite (bind_run _ _ _ _ _ (ask_run _ _)) in H.
    destruct (negb (os_sched_yield env (ticks w1) =? 0)); [destruct (die_not_ret _ _ _ _ _ _ H)|].
    rewrite (bind_run _ _ _ _ _ (ask_run _ _)) in H.
    destruct (os_clock_gettime env (ticks (ticked w1))) as [i now].
    destruct (i =? 0); [|discriminate].
    rewrite (bind_run (assert true) _ _ _ tt eq_refl) in H.
    destruct (tv_sec now >=? tv_sec start); [|discriminate].
    rewrite (bind_run (assert true) _ _ _ tt eq_refl) in H.
    destruct (tv_sec now - tv_sec start <? TIMEOUT env);
      [|destruct (die_not_ret _ _ _ _ _ _ H)].
    destruct (IH _ _ H) as (d & Hd). exists (d1 ++ d).
    rewrite Hd. simpl. rewrite Hd1, <- !app_assoc. reflexivity.
Qed.

Lemma state_wait_ret fuel process wanted (w w' : world) :
  state_wait env fuel process wanted w = (Ret tt, w') ->
  exists d, trace w' = trace w ++ d ++ [EvStateWait process wanted].
Proof.
  unfold state_wait, clock_gettime. intros H.
  rewrite (bind_run _ _ _ _ _ (ask_run _ _)) in H.
  destruct (os_asprintf env (ticks w)); [|discriminate].
  rewrite (bind_run (assert true) _ _ _ tt eq_refl) in H.
  rewrite (bind_run _ _ _ _ _ (ask_run _ _)) in H.
  destruct (os_clock_gettime env (ticks (ticked w))) as [i start].
  destruct (i =? 0); [|discriminate].
  rewrite (bind_run (assert true) _ _ _ tt eq_refl) in H.
  apply state_wait_loop_ret in H. exact H.
Qed.



Local Hint Resolve quiet_quiet steps_exit steps_trylock steps_create steps_join
  steps_cond_wait steps_kill steps_timed_mutex_lock steps_proc_string
  steps_proc_ulong steps_state_wait : steps.




End Rendezvous.




(** ** More on the Process-Status Reader *)

Section ReaderConverse.

Variable env : environment.

Lemma fgets_read_shape k : forall data,
  let '(chunk, rest, why) := fgets_read k data in
  data = chunk ++ rest /\ (length chunk <= k)%nat /\
  match why with
  | AtNewline => exists l, chunk = l ++ [NL] /\ ~ In NL l
  | _ => ~ In NL chunk
  end.
Proof.
  induction k as [|k IH]; intros data; simpl.
  - repeat split; auto.
  - destruct data as [|c r]; simpl.
    + repeat split; auto; lia.
    + destruct (Ascii.eqb c NL) eqn:E.
      * apply Ascii.eqb_eq in E; subst. repeat split; simpl; try lia.
        exists []; split; auto.
      * apply Ascii.eqb_neq in E. specialize (IH r).
        destruct (fgets_read k r) as [[l r'] why].
        destruct IH as (Hd & Hl & Hw). subst r. repeat split; simpl; try lia.
        destruct why.
        -- destruct Hw as (l0 & -> & Hn). exists (c :: l0); split; [reflexivity|].
           intros [H|H]; [congruence | tauto].
        -- intros [H|H]; [congruence | tauto].
        -- intros [H|H]; [congruence | tauto].
Qed.

Lemma cstr_cut l r : In NUL l -> cstr (l ++ r) = cstr l.
Proof.
  induction l as [|c l IH]; simpl; [tauto|].
  destruct (Ascii.eqb c NUL) eqn:E; [reflexivity|].
  intros [H|H]; [subst; rewrite Ascii.eqb_refl in E; discriminate|].
  rewrite (IH H). reflexivity.
Qed.

Lemma In_dec_ascii (c : ascii) l : In c l \/ ~ In c l.
Proof. destruct (in_dec ascii_dec c l); auto. Qed.

(** What [fgets] stored when [strchr] finds a newline in it. *)
Lemma fgets_line_inv n data e buf data' e' s :
  fgets n data e = (Some buf, data', e') ->
  strchr (cstr buf) NL = Some s ->
  exists l, data = l ++ NL :: data' /\ ~ In NL l /\ ~ In NUL l /\
            (length l + 2 <= n)%nat /\ firstn s (cstr buf) = l.
Proof.
  unfold fgets. intros Hf Hs.
  pose proof (fgets_read_shape (n - 1) data) as Hshape.
  destruct (fgets_read (n - 1) data) as [[chunk rest] why].
  destruct Hshape as (Hd & Hlen & Hw).
  assert (Hbuf : buf = chunk /\ data' = rest).
  { destruct why; try (injection Hf as <- <- _; auto).
    destruct (negb (e =? 0)); [discriminate|].
    destruct chunk; [discriminate|]. injection Hf as <- <- _; auto. }
  destruct Hbuf as [-> ->].
  assert (Hnl : In NL (cstr chunk)).
  { destruct (In_dec_ascii NL (cstr chunk)) as [H|H]; [exact H|].
    apply strchr_none in H. congruence. }
  destruct why.
  - destruct Hw as (l & -> & Hn).
    assert (Hnul : ~ In NUL l).
    { intros H. rewrite (cstr_cut l [NL] H) in Hnl. apply Hn, cstr_incl, Hnl. }
    exists l. rewrite length_app in Hlen. simpl in Hlen.
    rewrite <- app_assoc in Hd. simpl in Hd.
    repeat split; auto; [lia|].
    assert (Hc : cstr (l ++ [NL]) = l ++ [NL]).
    { apply cstr_id. rewrite in_app_iff. simpl.
      intros [H|[H|[]]]; [tauto | discriminate]. }
    rewrite Hc in Hs |- *. rewrite (strchr_app_here l [] NL Hn) in Hs.
    injection Hs as <-. rewrite firstn_app, Nat.sub_diag, firstn_all. simpl.
    apply app_nil_r.
  - destruct (Hw (cstr_incl _ _ Hnl)).
  - destruct (Hw (cstr_incl _ _ Hnl)).
Qed.

Lemma exit_outcome {A} status (w : world) :
  fst (@exit env A status w) = Stop (Exit status) \/
  fst (@exit env A status w) = Stop Abort.
Proof.
  unfold exit. destruct (atexit_cleanup w); [|left; reflexivity].
  unfold bind.
  destruct (Z.eq_dec (tracer w) 0) as [H|H].
  - rewrite (cleanup_no_tracer env w H). left; reflexivity.
  - rewrite (cleanup_tracer env w H).
    destruct (os_kill env (ticks w) (tracer w) SIGCONT =? 0); [left | right]; reflexivity.
Qed.

Lemma die_outcome {A} s msg (w : world) :
  fst ((fprintf s msg ;; @exit env A EXIT_FAILURE) w) = Stop (Exit EXIT_FAILURE) \/
  fst ((fprintf s msg ;; @exit env A EXIT_FAILURE) w) = Stop Abort.
Proof. unfold bind. rewrite fprintf_run. apply exit_outcome. Qed.

Lemma scan_ends turns : forall f data filename line (w : world),
  (length data < turns)%nat ->
  let o := fst (proc_string_loop env turns f data filename line w) in
  (exists r, o = Ret r) \/ o = Stop (Exit EXIT_FAILURE) \/ o = Stop Abort.
Proof.
  induction turns as [|turns IH]; intros f data filename line w Hlen; [lia|].
  cbn [proc_string_loop].
  destruct (fgets (LINE_MAX env) data (f_readerr f)) as [[[buf|] data'] e] eqn:Hf.
  - destruct (strchr (cstr buf) NL) as [s|] eqn:Hs; [|right; right; reflexivity].
    destruct (fgets_line_inv _ _ _ _ _ _ _ Hf Hs) as (l & -> & _).
    destruct (negb (strncmp_eq (firstn s (cstr buf)) line (strlen line))).
    + apply IH. rewrite length_app in Hlen. simpl in Hlen. lia.
    + destruct (negb (f_closeerr f =? 0)); [right; apply die_outcome|].
      left; eexists; reflexivity.
  - destruct (negb (e =? 0)); right; apply die_outcome.
Qed.

Lemma scan_ret turns : forall f data filename line (w w' : world) r,
  proc_string_loop env turns f data filename line w = (Ret r, w') ->
  w' = w /\ f_closeerr f = 0 /\
  exists pre post,
    data = unlines pre ++ (line ++ r) ++ NL :: post /\
    passed_over env line pre = true /\
    text_line env (line ++ r) = true.
Proof.
  induction turns as [|turns IH]; intros f data filename line w w' r H;
    cbn [proc_string_loop] in H; [discriminate|].
  destruct (fgets (LINE_MAX env) data (f_readerr f)) as [[[buf|] data'] e] eqn:Hf.
  - destruct (strchr (cstr buf) NL) as [s|] eqn:Hs; [|discriminate].
    destruct (fgets_line_inv _ _ _ _ _ _ _ Hf Hs) as (l & -> & Hnl & Hnul & Hlen & Hl).
    rewrite Hl, begins_with_strncmp in H.
    assert (Ht : text_line env l = true).
    { unfold text_line. rewrite !andb_true_iff, !negb_true_iff, !has_false, Nat.leb_le.
      auto. }
    destruct (begins_with line l) eqn:Hb; simpl in H.
    + destruct (f_closeerr f =? 0) eqn:Hc; simpl in H;
        [|destruct (die_not_ret env _ _ _ _ _ _ H)].
      injection H as <- <-. split; [reflexivity|]. split; [apply Z.eqb_eq, Hc|].
      exists [], data'.
      assert (Hl' : line ++ skipn (strlen line) l = l).
      { clear - Hb. unfold strlen. revert l Hb.
        induction line as [|a p IHp]; intros l Hb; simpl; [reflexivity|].
        destruct l as [|b l]; [discriminate|]. simpl in Hb.
        apply andb_true_iff in Hb. destruct Hb as [Hab Hb].
        apply Ascii.eqb_eq in Hab. subst. simpl. f_equal. apply IHp, Hb. }
      rewrite Hl'. repeat split; auto.
    + destruct (IH _ _ _ _ _ _ _ H) as (-> & Hc & pre & post & -> & Hp & Htl).
      split; [reflexivity|]. split; [exact Hc|].
      exists (l :: pre), post. simpl. rewrite Ht, Hb, Hp, <- !app_assoc. simpl.
      repeat split; auto.
  - destruct (negb (e =? 0)); destruct (die_not_ret env _ _ _ _ _ _ H).
Qed.

End ReaderConverse.

(** X1.  The scan of [proc_string] ends on every file, whatever its bytes
    and the size of the buffer: the call returns, exits with failure, or
    aborts; one turn of the loop per byte of the file, and one more,
    always suffice. *)
Theorem proc_string_ends (env : environment) (filename line : list ascii)
  (w : world) :
  let o := fst (proc_string env filename line w) in
  (exists r, o = Ret r) \/ o = Stop (Exit EXIT_FAILURE) \/ o = Stop Abort.
Proof.
  unfold proc_string, bind. rewrite ask_run.
  destruct (os_fopen env (ticks w) filename) as [errno|f].
  - right. apply (die_outcome env).
  - apply scan_ends. lia.
Qed.

(** X2.  [proc_string] returns only the remainder of a well-formed first
    match: if it returns [r], the file opened, [fclose] succeeded, and the
    file is a run of whole text lines not beginning with the label,
    followed by the line [label ++ r] and its newline; nothing but the
    count of interactions has changed. *)
Theorem proc_string_returns_first_match (env : environment)
  (filename line r : list ascii) (w w' : world) :
  proc_string env filename line w = (Ret r, w') ->
  w' = ticked w /\
  exists f pre post,
    os_fopen env (ticks w) filename = inr f /\
    f_closeerr f = 0 /\
    f_data f = unlines pre ++ (line ++ r) ++ NL :: post /\
    passed_over env line pre = true /\
    text_line env (line ++ r) = true.
Proof.
  unfold proc_string, bind. rewrite ask_run.
  destruct (os_fopen env (ticks w) filename) as [errno|f] eqn:Hopen.
  - intros H. destruct (die_not_ret env _ _ _ _ _ _ H).
  - intros H. apply scan_ret in H.
    destruct H as (-> & Hc & pre & post & Hd & Hp & Ht).
    split; [reflexivity|]. exists f, pre, post. auto.
Qed.

Lemma proc_string_returns_first_match_witness :
  exists f pre post,
    os_fopen traced_env 0 (lit "/proc/self/status") = inr f /\
    f_closeerr f = 0 /\
    f_data f = unlines pre ++ (tracer_pid_label ++ lit "77") ++ NL :: post /\
    passed_over traced_env tracer_pid_label pre = true /\
    text_line traced_env (tracer_pid_label ++ lit "77") = true.
Proof.
  apply (proc_string_returns_first_match traced_env (lit "/proc/self/status")
           tracer_pid_label (lit "77") initial_world (ticked initial_world)).
  vm_compute. reflexivity.
Defined.

(** X3.  [proc_ulong] returns only in two cases: the text that
    [proc_string] returned for the label is, from end to end, a number
    in base 10 (blanks and a sign may come first; nothing comes after the
    digits), and the value returned is that number, which lies in
    [0, LONG_MAX); or that text is empty, and the value returned is 0. *)
Theorem proc_ulong_returns_field (env : environment) (filename line : list ascii)
  (v : Z) (w w' : world) :
  proc_ulong env filename line w = (Ret v, w') ->
  0 <= v < LONG_MAX env /\
  exists s, proc_string env filename line w = (Ret s, w') /\
            (strtol_exact s = Some (v, []) \/ (s = [] /\ v = 0)).
Proof.
  unfold proc_ulong. intros H. apply bind_ret_inv in H.
  destruct H as (s & w1 & Hs & H).
  unfold strtol in H.
  destruct (strtol_exact s) as [[v0 e]|] eqn:Hx.
  - destruct (v0 >? LONG_MAX env) eqn:E1.
    { replace (LONG_MAX env >=? LONG_MAX env) with true in H by lia.
      rewrite orb_true_r in H. simpl in H. destruct (die_not_ret env _ _ _ _ _ _ H). }
    destruct (v0 <? - LONG_MAX env - 1) eqn:E2.
    { destruct (- LONG_MAX env - 1 <? 0) eqn:E3; simpl in H;
        [destruct (die_not_ret env _ _ _ _ _ _ H)|].
      replace (- LONG_MAX env - 1 >=? LONG_MAX env) with true in H by lia.
      simpl in H. destruct (die_not_ret env _ _ _ _ _ _ H). }
    destruct (v0 <? 0) eqn:E3; simpl in H; [destruct (die_not_ret env _ _ _ _ _ _ H)|].
    destruct (v0 >=? LONG_MAX env) eqn:E4; simpl in H;
      [destruct (die_not_ret env _ _ _ _ _ _ H)|].
    destruct e as [|c e]; simpl in H; [|destruct (die_not_ret env _ _ _ _ _ _ H)].
    injection H as <- <-. split; [lia|]. exists s. auto.
  - simpl in H. destruct (0 >=? LONG_MAX env) eqn:E4; simpl in H;
      [destruct (die_not_ret env _ _ _ _ _ _ H)|].
    destruct s as [|c s]; simpl in H; [|destruct (die_not_ret env _ _ _ _ _ _ H)].
    injection H as <- <-. split; [lia|]. exists []. auto.
Qed.

Lemma proc_ulong_returns_field_witness :
  0 <= 77 < LONG_MAX traced_env /\
  exists s, proc_string traced_env (lit "/proc/self/status") tracer_pid_label
              initial_world = (Ret s, ticked initial_world) /\
            (strtol_exact s = Some (77, []) \/ (s = [] /\ 77 = 0)).
Proof.
  apply (proc_ulong_returns_field traced_env (lit "/proc/self/status")
           tracer_pid_label 77 initial_world (ticked initial_world)).
  vm_compute. reflexivity.
Defined.

(** ** More on the bounded waits *)

Section Polls.

Variable env : environment.
Variable m : mutex.

Lemma poll_turn fuel start (w : world) :
  os_mutex_trylock env (ticks w) m = EBUSY ->
  fst (os_clock_gettime env (S (ticks w))) = 0 ->
  tv_sec start <= tv_sec (snd (os_clock_gettime env (S (ticks w)))) ->
  timed_mutex_lock_loop env (S fuel) m start w =
  if tv_sec (snd (os_clock_gettime env (S (ticks w)))) - tv_sec start <? TIMEOUT env
  then timed_mutex_lock_loop env fuel m start (at_tick (S (S (ticks w))) w)
  else (fprintf stderr MsgLockTimeout ;; exit env EXIT_FAILURE)
         (at_tick (S (S (ticks w))) w).
Proof.
  intros Hbusy Hc Hmono.
  assert (Htry : pthread_mutex_trylock env m w = (Ret EBUSY, ticked w)).
  { unfold pthread_mutex_trylock, bind. rewrite ask_run, Hbusy. reflexivity. }
  cbn [timed_mutex_lock_loop].
  rewrite (bind_run _ _ _ _ _ Htry).
  change (EBUSY =? 0) with false. cbv iota.
  change (assert (EBUSY =? EBUSY)) with (ret tt).
  rewrite (bind_run (ret tt) _ _ _ tt eq_refl).
  unfold clock_gettime. rewrite (bind_run _ _ _ _ _ (ask_run _ _)).
  change (ticks (ticked w)) with (S (ticks w)).
  change (ticked (ticked w)) with (at_tick (S (S (ticks w))) w).
  destruct (os_clock_gettime env (S (ticks w))) as [i now]. simpl in Hc, Hmono |- *.
  subst i. change (assert (0 =? 0)) with (ret tt).
  rewrite (bind_run (ret tt) _ _ _ tt eq_refl).
  replace (tv_sec now >=? tv_sec start) with true by lia.
  rewrite (bind_run (assert true) _ _ _ tt eq_refl).
  destruct (tv_sec now - tv_sec start <? TIMEOUT env); reflexivity.
Qed.

(** [K] attempts on a busy lock, each within the budget. *)
Lemma polls_busy K : forall fuel start (w : world),
  (forall j, (j < K)%nat ->
     os_mutex_trylock env (ticks w + 2 * j) m = EBUSY /\
     fst (os_clock_gettime env (ticks w + 2 * j + 1)) = 0 /\
     0 <= tv_sec (snd (os_clock_gettime env (ticks w + 2 * j + 1)))
          - tv_sec start < TIMEOUT env) ->
  timed_mutex_lock_loop env (K + fuel) m start w =
  timed_mutex_lock_loop env fuel m start (at_tick (ticks w + 2 * K) w).
Proof.
  induction K as [|K IH]; intros fuel start w H.
  - destruct w. unfold at_tick. simpl. rewrite Nat.add_0_r. reflexivity.
  - destruct (H O ltac:(lia)) as (Hb & Hc & Hd).
    replace (ticks w + 2 * 0)%nat with (ticks w) in Hb by lia.
    replace (ticks w + 2 * 0 + 1)%nat with (S (ticks w)) in Hc, Hd by lia.
    change (S K + fuel)%nat with (S (K + fuel)).
    rewrite (poll_turn _ _ _ Hb Hc) by lia.
    replace (_ <? _) with true by lia.
    rewrite IH.
    + unfold at_tick. cbn [ticks tracer atexit_cleanup trace].
      replace (S (S (ticks w)) + 2 * K)%nat with (ticks w + 2 * S K)%nat by lia.
      reflexivity.
    + intros j Hj. cbn [at_tick ticks].
      replace (S (S (ticks w)) + 2 * j)%nat with (ticks w + 2 * S j)%nat by lia.
      replace (ticks w + 2 * S j + 1)%nat with (ticks w + 2 * S j + 1)%nat by lia.
      apply H. lia.
Qed.

Lemma timed_mutex_lock_after_polls K fuel (w : world) :
  fst (os_clock_gettime env (ticks w)) = 0 ->
  (forall j, (j < K)%nat ->
     os_mutex_trylock env (ticks w + 1 + 2 * j) m = EBUSY /\
     fst (os_clock_gettime env (ticks w + 2 + 2 * j)) = 0 /\
     0 <= tv_sec (snd (os_clock_gettime env (ticks w + 2 + 2 * j)))
          - tv_sec (snd (os_clock_gettime env (ticks w))) < TIMEOUT env) ->
  timed_mutex_lock env (K + fuel) m w =
  timed_mutex_lock_loop env fuel m (snd (os_clock_gettime env (ticks w)))
    (at_tick (ticks w + 2 * K + 1) w).
Proof.
  intros Hc H. unfold timed_mutex_lock, clock_gettime.
  rewrite (bind_run _ _ _ _ _ (ask_run _ _)).
  destruct (os_clock_gettime env (ticks w)) as [i start]. simpl in Hc, H |- *.
  subst i. change (assert (0 =? 0)) with (ret tt).
  rewrite (bind_run (ret tt) _ _ _ tt eq_refl).
  rewrite polls_busy.
  - change (ticks (ticked w)) with (S (ticks w)).
    unfold at_tick. cbn [ticked ask snd ticks tracer atexit_cleanup trace].
    replace (S (ticks w) + 2 * K)%nat with (ticks w + 2 * K + 1)%nat by lia.
    reflexivity.
  - intros j Hj. change (ticks (ticked w)) with (S (ticks w)).
    replace (S (ticks w) + 2 * j)%nat with (ticks w + 1 + 2 * j)%nat by lia.
    replace (ticks w + 1 + 2 * j + 1)%nat with (ticks w + 2 + 2 * j)%nat by lia.
    apply H, Hj.
Qed.

Lemma trylock_run (w : world) :
  pthread_mutex_trylock env m w =
  (Ret (os_mutex_trylock env (ticks w) m),
   if os_mutex_trylock env (ticks w) m =? 0
   then logged (EvLock m) (ticked w) else ticked w).
Proof.
  unfold pthread_mutex_trylock, bind. rewrite ask_run.
  destruct (os_mutex_trylock env (ticks w) m =? 0); reflexivity.
Qed.

End Polls.

(** X4.  When the lock is busy at [K] attempts made within the budget
    and free at the next one, [timed_mutex_lock] returns holding it,
    after exactly [K + 1] attempts, having printed nothing and left the
    recorded tracer alone. *)
Theorem timed_mutex_lock_acquires (env : environment) (m : mutex) (w : world)
  (K fuel : nat) :
  fst (os_clock_gettime env (ticks w)) = 0 ->
  (forall j, (j < K)%nat ->
     os_mutex_trylock env (ticks w + 1 + 2 * j) m = EBUSY /\
     fst (os_clock_gettime env (ticks w + 2 + 2 * j)) = 0 /\
     0 <= tv_sec (snd (os_clock_gettime env (ticks w + 2 + 2 * j)))
          - tv_sec (snd (os_clock_gettime env (ticks w))) < TIMEOUT env) ->
  os_mutex_trylock env (ticks w + 1 + 2 * K) m = 0 ->
  (K < fuel)%nat ->
  timed_mutex_lock env fuel m w =
  (Ret tt, logged (EvLock m) (at_tick (ticks w + 2 * K + 2) w)).
Proof.
  intros Hc Hbusy Hfree Hfuel.
  replace fuel with (K + S (fuel - K - 1))%nat by lia.
  rewrite (timed_mutex_lock_after_polls env m K _ w Hc Hbusy).
  cbn [timed_mutex_lock_loop].
  rewrite (bind_run _ _ _ _ _ (trylock_run env m _)).
  cbn [at_tick ticks].
  replace (ticks w + 2 * K + 1)%nat with (ticks w + 1 + 2 * K)%nat by lia.
  rewrite Hfree. change (0 =? 0) with true. cbv iota.
  unfold ret, at_tick, logged, ticked, ask, emit.
  cbn [snd ticks tracer atexit_cleanup trace].
  replace (S (ticks w + 1 + 2 * K)) with (ticks w + 2 * K + 2)%nat by lia.
  reflexivity.
Qed.

Lemma timed_mutex_lock_acquires_witness :
  timed_mutex_lock freed_env 3 gdbstop_mutex initial_world =
  (Ret tt, logged (EvLock gdbstop_mutex) (at_tick 6 initial_world)).
Proof.
  apply (timed_mutex_lock_acquires freed_env gdbstop_mutex initial_world 2 3).
  - reflexivity.
  - intros j Hj. destruct j as [|[|j]]; [| |lia]; vm_compute; repeat split; congruence.
  - reflexivity.
  - lia.
Defined.

(** X5.  When an attempt returns anything but 0 and EBUSY, the assertion
    fails and the process aborts on the spot: no diagnostic is printed
    and the exit handler is not run, so a recorded tracer is neither
    cleared nor sent SIGCONT. *)
Theorem timed_mutex_lock_error_aborts (env : environment) (m : mutex) (w : world)
  (K fuel : nat) (i : Z) :
  fst (os_clock_gettime env (ticks w)) = 0 ->
  (forall j, (j < K)%nat ->
     os_mutex_trylock env (ticks w + 1 + 2 * j) m = EBUSY /\
     fst (os_clock_gettime env (ticks w + 2 + 2 * j)) = 0 /\
     0 <= tv_sec (snd (os_clock_gettime env (ticks w + 2 + 2 * j)))
          - tv_sec (snd (os_clock_gettime env (ticks w))) < TIMEOUT env) ->
  os_mutex_trylock env (ticks w + 1 + 2 * K) m = i ->
  i <> 0 -> i <> EBUSY ->
  (K < fuel)%nat ->
  timed_mutex_lock env fuel m w =
  (Stop Abort, at_tick (ticks w + 2 * K + 2) w).
Proof.
  intros Hc Hbusy Hret Hi0 Hib Hfuel.
  replace fuel with (K + S (fuel - K - 1))%nat by lia.
  rewrite (timed_mutex_lock_after_polls env m K _ w Hc Hbusy).
  cbn [timed_mutex_lock_loop].
  rewrite (bind_run _ _ _ _ _ (trylock_run env m _)).
  cbn [at_tick ticks].
  replace (ticks w + 2 * K + 1)%nat with (ticks w + 1 + 2 * K)%nat by lia.
  rewrite Hret.
  replace (i =? 0) with false by (symmetry; apply Z.eqb_neq; exact Hi0).
  replace (i =? EBUSY) with false by (symmetry; apply Z.eqb_neq; exact Hib).
  unfold bind, assert, halt_with, at_tick, ticked, ask.
  cbn [snd ticks tracer atexit_cleanup trace].
  replace (S (ticks w + 1 + 2 * K)) with (ticks w + 2 * K + 2)%nat by lia.
  reflexivity.
Qed.

Lemma timed_mutex_lock_error_aborts_witness :
  timed_mutex_lock broken_env 3 gdbstop_mutex initial_world =
  (Stop Abort, at_tick 6 initial_world).
Proof.
  apply (timed_mutex_lock_error_aborts broken_env gdbstop_mutex initial_world 2 3 22).
  - reflexivity.
  - intros j Hj. destruct j as [|[|j]]; [| |lia]; vm_compute; repeat split; congruence.
  - reflexivity.
  - discriminate.
  - discriminate.
  - lia.
Defined.

Section StatePolls.

Variable env : environment.

Lemma state_wait_loop_matched fuel process wanted filename start :
  forall w w',
  state_wait_loop env fuel process wanted filename start w = (Ret tt, w') ->
  exists w1,
    (ticks w <= ticks w1)%nat /\ tracer w1 = tracer w /\
    proc_string env filename state_label w1 = (Ret wanted, ticked w1) /\
    w' = logged (EvStateWait process wanted) (ticked w1).
Proof.
  induction fuel as [|fuel IH]; intros w w' H; cbn [state_wait_loop] in H;
    [discriminate|].
  apply bind_ret_inv in H. destruct H as (state & w1 & Hread & H).
  assert (Hw1 : w1 = ticked w).
  { unfold proc_string, bind in Hread. rewrite ask_run in Hread.
    destruct (os_fopen env (ticks w) filename) as [errno|f];
      [destruct (die_not_ret env _ _ _ _ _ _ Hread)|].
    apply scan_ret in Hread. tauto. }
  subst w1.
  destruct (strcmp_eq state wanted) eqn:Hcmp.
  - apply list_eqb_eq in Hcmp. subst state. injection H as <-.
    exists w. repeat split; auto.
  - unfold sched_yield, clock_gettime in H.
    rewrite (bind_run _ _ _ _ _ (ask_run _ _)) in H.
    destruct (negb (os_sched_yield env (ticks (ticked w)) =? 0));
      [destruct (die_not_ret env _ _ _ _ _ _ H)|].
    rewrite (bind_run _ _ _ _ _ (ask_run _ _)) in H.
    destruct (os_clock_gettime env (ticks (ticked (ticked w)))) as [i now].
    destruct (i =? 0); [|discriminate].
    rewrite (bind_run (assert true) _ _ _ tt eq_refl) in H.
    destruct (tv_sec now >=? tv_sec start); [|discriminate].
    rewrite (bind_run (assert true) _ _ _ tt eq_refl) in H.
    destruct (tv_sec now - tv_sec start <? TIMEOUT env);
      [|destruct (die_not_ret env _ _ _ _ _ _ H)].
    destruct (IH _ _ H) as (w1 & Ht & Htr & Hp & Hw).
    exists w1. simpl in Ht, Htr. repeat split; auto. lia.
Qed.

Lemma wait_turn fuel process wanted filename start other (w : world) :
  proc_string env filename (lit "State:" ++ [TAB]) w = (Ret other, ticked w) ->
  strcmp_eq other wanted = false ->
  os_sched_yield env (S (ticks w)) = 0 ->
  fst (os_clock_gettime env (S (S (ticks w)))) = 0 ->
  tv_sec start <= tv_sec (snd (os_clock_gettime env (S (S (ticks w))))) ->
  state_wait_loop env (S fuel) process wanted filename start w =
  if tv_sec (snd (os_clock_gettime env (S (S (ticks w))))) - tv_sec start
     <? TIMEOUT env
  then state_wait_loop env fuel process wanted filename start
         (at_tick (S (S (S (ticks w)))) w)
  else (fprintf stderr (MsgStateTimeout (to_ulong env process) wanted other) ;;
        exit env EXIT_FAILURE) (at_tick (S (S (S (ticks w)))) w).
Proof.
  intros Hread Hcmp Hy Hc Hmono.
  cbn [state_wait_loop].
  rewrite (bind_run _ _ _ _ _ Hread), Hcmp.
  unfold sched_yield, clock_gettime.
  rewrite (bind_run _ _ _ _ _ (ask_run _ _)).
  change (ticks (ticked w)) with (S (ticks w)). rewrite Hy.
  change (negb (0 =? 0)) with false. cbv iota.
  rewrite (bind_run _ _ _ _ _ (ask_run _ _)).
  change (ticks (ticked (ticked w))) with (S (S (ticks w))).
  change (ticked (ticked (ticked w))) with (at_tick (S (S (S (ticks w)))) w).
  destruct (os_clock_gettime env (S (S (ticks w)))) as [i now].
  simpl in Hc, Hmono |- *. subst i.
  change (assert (0 =? 0)) with (ret tt).
  rewrite (bind_run (ret tt) _ _ _ tt eq_refl).
  replace (tv_sec now >=? tv_sec start) with true by lia.
  rewrite (bind_run (assert true) _ _ _ tt eq_refl).
  destruct (tv_sec now - tv_sec start <? TIMEOUT env); reflexivity.
Qed.

Lemma unmatched_loop process wanted filename other K :
  (forall (w : world),
      proc_string env filename (lit "State:" ++ [TAB]) w = (Ret other, ticked w)) ->
  strcmp_eq other wanted = false ->
  (forall n, os_sched_yield env n = 0) ->
  (forall n, fst (os_clock_gettime env n) = 0) ->
  forall fuel start (w : world),
  (K < fuel)%nat ->
  (forall j, (j < K)%nat ->
     0 <= tv_sec (snd (os_clock_gettime env (ticks w + 2 + 3 * j)))
          - tv_sec start < TIMEOUT env) ->
  TIMEOUT env <= tv_sec (snd (os_clock_gettime env (ticks w + 2 + 3 * K)))
                 - tv_sec start ->
  state_wait_loop env fuel process wanted filename start w =
  (fprintf stderr (MsgStateTimeout (to_ulong env process) wanted other) ;;
   exit env EXIT_FAILURE) (at_tick (ticks w + 3 * K + 3) w).
Proof.
  intros Hread Hcmp Hy Hc.
  pose proof (TIMEOUT_pos env) as Hpos.
  induction K as [|K IH]; intros fuel start w Hfuel Hbefore Hat.
  - destruct fuel as [|fuel]; [lia|].
    replace (ticks w + 2 + 3 * 0)%nat with (S (S (ticks w))) in Hat by lia.
    rewrite (wait_turn fuel process wanted filename start other w
               (Hread w) Hcmp (Hy _) (Hc _)) by lia.
    replace (_ <? _) with false by lia.
    replace (ticks w + 3 * 0 + 3)%nat with (S (S (S (ticks w)))) by lia. reflexivity.
  - destruct fuel as [|fuel]; [lia|].
    pose proof (Hbefore O ltac:(lia)) as H0.
    replace (ticks w + 2 + 3 * 0)%nat with (S (S (ticks w))) in H0 by lia.
    rewrite (wait_turn fuel process wanted filename start other w
               (Hread w) Hcmp (Hy _) (Hc _)) by lia.
    replace (_ <? _) with true by lia.
    rewrite (IH fuel start (at_tick (S (S (S (ticks w)))) w)).
    + unfold at_tick. cbn [ticks tracer atexit_cleanup trace].
      replace (S (S (S (ticks w))) + 3 * K + 3)%nat
        with (ticks w + 3 * S K + 3)%nat by lia.
      reflexivity.
    + lia.
    + intros j Hj. cbn [at_tick ticks].
      replace (S (S (S (ticks w))) + 2 + 3 * j)%nat
        with (ticks w + 2 + 3 * S j)%nat by lia.
      apply Hbefore. lia.
    + cbn [at_tick ticks].
      replace (S (S (S (ticks w))) + 2 + 3 * K)%nat
        with (ticks w + 2 + 3 * S K)%nat by lia.
      exact Hat.
Qed.

End StatePolls.

(** X6.  [state_wait] returns only on a match: its last interaction was
    to open the status file of the process it was asked about, and the
    first line of that file beginning with [State:\t] read exactly the
    wanted state; the recorded tracer is untouched. *)
Theorem state_wait_returns_on_match (env : environment) (fuel : nat)
  (process : Z) (wanted : list ascii) (w w' : world) :
  state_wait env fuel process wanted w = (Ret tt, w') ->
  exists n f pre post,
    (ticks w <= n)%nat /\ ticks w' = S n /\
    os_fopen env n (proc_status env process) = inr f /\
    f_closeerr f = 0 /\
    f_data f = unlines pre ++ (state_label ++ wanted) ++ NL :: post /\
    passed_over env state_label pre = true /\
    tracer w' = tracer w.
Proof.
  unfold state_wait, clock_gettime. intros H.
  rewrite (bind_run _ _ _ _ _ (ask_run _ _)) in H.
  destruct (os_asprintf env (ticks w)); [|discriminate].
  rewrite (bind_run (assert true) _ _ _ tt eq_refl) in H.
  rewrite (bind_run _ _ _ _ _ (ask_run _ _)) in H.
  destruct (os_clock_gettime env (ticks (ticked w))) as [i start].
  destruct (i =? 0); [|discriminate].
  rewrite (bind_run (assert true) _ _ _ tt eq_refl) in H.
  apply state_wait_loop_matched in H.
  destruct H as (w1 & Ht & Htr & Hp & ->).
  unfold proc_string, bind in Hp. rewrite ask_run in Hp.
  destruct (os_fopen env (ticks w1) (proc_status env process)) as [errno|f] eqn:Hopen;
    [destruct (die_not_ret env _ _ _ _ _ _ Hp)|].
  apply scan_ret in Hp. destruct Hp as (_ & Hc & pre & post & Hd & Hpre & _).
  exists (ticks w1), f, pre, post. simpl in Ht, Htr |- *.
  repeat split; auto. lia.
Qed.

Lemma state_wait_returns_on_match_witness :
  exists n f pre post,
    (5 <= n)%nat /\ (8 = S n)%nat /\
    os_fopen traced_env n (proc_status traced_env 77) = inr f /\
    f_closeerr f = 0 /\
    f_data f = unlines pre ++ (state_label ++ lit "T (stopped)") ++ NL :: post /\
    passed_over traced_env state_label pre = true /\
    77 = 77.
Proof.
  apply (state_wait_returns_on_match traced_env 3 77 (lit "T (stopped)")
           {| ticks := 5; tracer := 77; atexit_cleanup := true; trace := [] |}
           {| ticks := 8; tracer := 77; atexit_cleanup := true;
              trace := [EvStateWait 77 (lit "T (stopped)")] |}).
  vm_compute. reflexivity.
Defined.

(** X7.  While the status file of the process keeps showing a state
    other than the wanted one, [state_wait] polls it as long as the whole
    seconds of the clock stay within the budget, and at the first poll
    [K] beyond it prints a diagnostic naming the process, the wanted
    state and the state last seen, and exits with failure. *)
Theorem state_wait_times_out (env : environment) (process : Z)
  (wanted other : list ascii) (f : FILE) (pre : list (list ascii))
  (post : list ascii) (w : world) (K fuel : nat) :
  let start := snd (os_clock_gettime env (S (ticks w))) in
  let now j := snd (os_clock_gettime env (ticks w + 4 + 3 * j)) in
  (forall n, os_fopen env n (proc_status env process) = inr f) ->
  f_data f = unlines pre ++ (state_label ++ other) ++ NL :: post ->
  passed_over env state_label pre = true ->
  text_line env (state_label ++ other) = true ->
  f_closeerr f = 0 ->
  other <> wanted ->
  os_asprintf env (ticks w) = true ->
  (forall n, os_sched_yield env n = 0) ->
  (forall n, fst (os_clock_gettime env n) = 0) ->
  (forall j, (j < K)%nat -> 0 <= tv_sec (now j) - tv_sec start < TIMEOUT env) ->
  TIMEOUT env <= tv_sec (now K) - tv_sec start ->
  (K < fuel)%nat ->
  state_wait env fuel process wanted w =
  exit env EXIT_FAILURE
    (logged (EvPrint stderr (MsgStateTimeout (to_ulong env process) wanted other))
       (at_tick (ticks w + 3 * K + 5) w)).
Proof.
  intros start now Hopen Hdata Hpre Htext Hclose Hneq Hasp Hy Hc Hbefore Hat Hfuel.
  assert (Hread : forall w0 : world,
             proc_string env (proc_status env process) (lit "State:" ++ [TAB]) w0
             = (Ret other, ticked w0)).
  { intros w0. apply (proc_string_field env w0 _ state_label f pre other post);
      auto. }
  assert (Hcmp : strcmp_eq other wanted = false).
  { destruct (strcmp_eq other wanted) eqn:E; [|reflexivity].
    apply list_eqb_eq in E. contradiction. }
  unfold state_wait, clock_gettime.
  rewrite (bind_run _ _ _ _ _ (ask_run _ _)), Hasp.
  rewrite (bind_run (assert true) _ _ _ tt eq_refl).
  rewrite (bind_run _ _ _ _ _ (ask_run _ _)).
  change (ticks (ticked w)) with (S (ticks w)).
  pose proof (Hc (S (ticks w))) as Hc0. subst start now.
  destruct (os_clock_gettime env (S (ticks w))) as [i start].
  simpl in Hc0, Hbefore, Hat. subst i.
  change (assert (0 =? 0)) with (ret tt).
  rewrite (bind_run (ret tt) _ _ _ tt eq_refl).
  rewrite (unmatched_loop env process wanted _ other K Hread Hcmp Hy Hc
             fuel start (ticked (ticked w)) Hfuel).
  - change (ticks (ticked (ticked w))) with (S (S (ticks w))).
    unfold bind. rewrite fprintf_run. unfold at_tick, logged, emit, ticked, ask.
    cbn [snd ticks tracer atexit_cleanup trace].
    replace (S (S (ticks w)) + 3 * K + 3)%nat with (ticks w + 3 * K + 5)%nat by lia.
    reflexivity.
  - intros j Hj. change (ticks (ticked (ticked w))) with (S (S (ticks w))).
    replace (S (S (ticks w)) + 2 + 3 * j)%nat with (ticks w + 4 + 3 * j)%nat by lia.
    apply Hbefore, Hj.
  - change (ticks (ticked (ticked w))) with (S (S (ticks w))).
    replace (S (S (ticks w)) + 2 + 3 * K)%nat with (ticks w + 4 + 3 * K)%nat by lia.
    exact Hat.
Qed.

Lemma state_wait_times_out_witness :
  state_wait running_env 4 501 tracing_stop initial_world =
  (Stop (Exit EXIT_FAILURE),
   logged (EvPrint stderr (MsgStateTimeout 501 tracing_stop (lit "R (running)")))
     (at_tick 14 initial_world)).
Proof.
  apply (state_wait_times_out running_env 501 tracing_stop (lit "R (running)")
           running_file [lit "Name:" ++ [TAB] ++ lit "watchthreads-reorder"] []
           initial_world 3 4).
  - reflexivity.
  - reflexivity.
  - reflexivity.
  - reflexivity.
  - reflexivity.
  - discriminate.
  - reflexivity.
  - reflexivity.
  - reflexivity.
  - intros j Hj. destruct j as [|[|[|j]]]; [| | |lia];
      vm_compute; (split; [discriminate | reflexivity]).
  - vm_compute. discriminate.
  - lia.
Defined.

(** ** Invariants of the whole run *)

Section Keeps.

Variable env : environment.
Variable Inv : world -> Prop.
Hypothesis Inv_tick : forall w, Inv w -> Inv (ticked w).
Hypothesis Inv_passive : forall w e, passive e -> Inv w -> Inv (logged e w).
Hypothesis Inv_exit : forall A status w, Inv w -> Inv (snd (@exit env A status w)).

Lemma keeps_ret {A} (a : A) : keeps Inv (ret a).
Proof. intros w H. exact H. Qed.

Lemma keeps_halt {A} (h : halt) : keeps Inv (@halt_with A h).
Proof. intros w H. exact H. Qed.

Lemma keeps_bind {A B} (m : M A) (k : A -> M B) :
  keeps Inv m -> (forall a, keeps Inv (k a)) -> keeps Inv (bind m k).
Proof.
  intros Hm Hk w H. unfold bind. specialize (Hm w H).
  destruct (m w) as [[a|h] w1]; simpl in Hm |- *; [apply (Hk a w1 Hm) | exact Hm].
Qed.

Lemma keeps_bind_at {A B} (m : M A) (k : A -> M B) (w : world) :
  Inv w -> keeps Inv m -> (forall a, keeps Inv (k a)) -> Inv (snd (bind m k w)).
Proof. intros H Hm Hk. apply (keeps_bind m k Hm Hk w H). Qed.

Lemma keeps_ask {A} (f : nat -> A) : keeps Inv (ask f).
Proof. intros w H. apply Inv_tick, H. Qed.

Lemma keeps_emit (e : event) : passive e -> keeps Inv (emit e).
Proof. intros He w H. apply (Inv_passive w e He H). Qed.

Lemma keeps_assert (b : bool) : keeps Inv (assert b).
Proof. destruct b; [apply keeps_ret | apply keeps_halt]. Qed.

Lemma keeps_load : keeps Inv load_tracer.
Proof. intros w H. exact H. Qed.

Lemma keeps_exit {A} status : keeps Inv (@exit env A status).
Proof. intros w H. apply Inv_exit, H. Qed.

Lemma keeps_bind_load {B} (k : Z -> M B) :
  (forall w, Inv w -> Inv (snd (k (tracer w) w))) ->
  keeps Inv (bind load_tracer k).
Proof. intros H w HI. rewrite bind_load. apply H, HI. Qed.

End Keeps.

Create HintDb keeps.

Ltac keeps_go :=
  repeat first
    [ assumption
    | apply keeps_ret
    | apply keeps_halt
    | apply keeps_ask; assumption
    | apply keeps_assert
    | apply keeps_load
    | apply keeps_exit; assumption
    | apply keeps_emit; [assumption | exact I]
    | solve [auto with keeps nocore]
    | apply keeps_bind; [| intros ?]
    | match goal with
      | |- keeps _ (if ?b then _ else _) => destruct b
      | |- keeps _ (match ?r with (_, _) => _ end) => destruct r
      | |- keeps _ (match ?r with Some _ => _ | None => _ end) => destruct r
      | |- keeps _ (match ?r with inl _ => _ | inr _ => _ end) => destruct r
      end ].

Section ProgramKeeps.

Variable env : environment.
Variable Inv : world -> Prop.
Hypothesis Inv_tick : forall w, Inv w -> Inv (ticked w).
Hypothesis Inv_passive : forall w e, passive e -> Inv w -> Inv (logged e w).
Hypothesis Inv_exit : forall A status w, Inv w -> Inv (snd (@exit env A status w)).

Lemma keeps_trylock (m : mutex) : keeps Inv (pthread_mutex_trylock env m).
Proof. unfold pthread_mutex_trylock. keeps_go. Qed.
Local Hint Resolve keeps_trylock : keeps.

Lemma keeps_unlock (m : mutex) :
  (forall w, Inv w -> Inv (logged (EvUnlock m) w)) ->
  keeps Inv (pthread_mutex_unlock env m).
Proof.
  intros Hu. unfold pthread_mutex_unlock. keeps_go.
Qed.

Lemma keeps_create (t : thread) : keeps Inv (pthread_create env t).
Proof. unfold pthread_create. keeps_go. Qed.
Local Hint Resolve keeps_create : keeps.

Lemma keeps_join (t : thread) : keeps Inv (pthread_join env t).
Proof. unfold pthread_join. keeps_go. Qed.
Local Hint Resolve keeps_join : keeps.

Lemma keeps_cond_wait c m : keeps Inv (pthread_cond_wait env c m).
Proof. unfold pthread_cond_wait. keeps_go. Qed.
Local Hint Resolve keeps_cond_wait : keeps.

Lemma keeps_timed_mutex_lock_loop fuel m start :
  keeps Inv (timed_mutex_lock_loop env fuel m start).
Proof.
  induction fuel as [|fuel IH]; cbn [timed_mutex_lock_loop];
    unfold clock_gettime, fprintf; keeps_go.
Qed.
Local Hint Resolve keeps_timed_mutex_lock_loop : keeps.

Lemma keeps_timed_mutex_lock fuel m : keeps Inv (timed_mutex_lock env fuel m).
Proof. unfold timed_mutex_lock, clock_gettime. keeps_go. Qed.
Local Hint Resolve keeps_timed_mutex_lock : keeps.

Lemma keeps_proc_string_loop turns f data filename line :
  keeps Inv (proc_string_loop env turns f data filename line).
Proof.
  revert data; induction turns as [|turns IH]; intros data;
    cbn [proc_string_loop]; unfold fprintf; keeps_go.
Qed.
Local Hint Resolve keeps_proc_string_loop : keeps.

Lemma keeps_proc_string filename line : keeps Inv (proc_string env filename line).
Proof. unfold proc_string, fprintf. keeps_go. Qed.
Local Hint Resolve keeps_proc_string : keeps.

Lemma keeps_proc_ulong filename line : keeps Inv (proc_ulong env filename line).
Proof. unfold proc_ulong, fprintf. keeps_go. Qed.

Lemma keeps_state_wait_loop fuel process wanted filename start :
  keeps Inv (state_wait_loop env fuel process wanted filename start).
Proof.
  induction fuel as [|fuel IH]; cbn [state_wait_loop];
    unfold clock_gettime, sched_yield, fprintf; keeps_go.
Qed.
Local Hint Resolve keeps_state_wait_loop : keeps.

Lemma keeps_state_wait fuel process wanted :
  keeps Inv (state_wait env fuel process wanted).
Proof. unfold state_wait, clock_gettime. keeps_go. Qed.

Lemma keeps_main_args argv : keeps Inv (main_args argv).
Proof. unfold main_args. keeps_go. Qed.

Lemma keeps_main_start fuel : keeps Inv (main_start env fuel).
Proof. unfold main_start. keeps_go. Qed.

End ProgramKeeps.

(** ** The signals the process sends *)

Lemma kills_app (tr d : list event) : kills (tr ++ d) = kills tr ++ kills d.
Proof. unfold kills. apply filter_app. Qed.

Lemma kills_passive (tr : list event) (e : event) :
  passive e -> kills (tr ++ [e]) = kills tr.
Proof.
  intros H. rewrite kills_app. destruct e; simpl in *; try contradiction;
    apply app_nil_r.
Qed.

Lemma exit_world (env : environment) {A} status (w : world) :
  snd (@exit env A status w) = if atexit_cleanup w then snd (cleanup env w) else w.
Proof.
  unfold exit. destruct (atexit_cleanup w); [|reflexivity].
  unfold bind. destruct (cleanup env w) as [[[]|h] w']; reflexivity.
Qed.

Lemma protocol_silent a b c p (w : world) (e : event) :
  is_kill e = false -> protocol a b c p w -> protocol a b c p (logged e w).
Proof.
  intros He H. unfold protocol in *.
  assert (Hk : kills (trace (logged e w)) = kills (trace w)).
  { unfold logged, emit. cbn [snd trace]. rewrite kills_app.
    unfold kills at 2. cbn [filter]. rewrite He. apply app_nil_r. }
  rewrite Hk. exact H.
Qed.

Lemma bind_assoc {A B C} (m : M A) (k : A -> M B) (k' : B -> M C) (w : world) :
  bind (bind m k) k' w = bind m (fun x => bind (k x) k') w.
Proof. unfold bind. destruct (m w) as [[x|h] w1]; reflexivity. Qed.

Lemma bind_atexit {B} (k : unit -> M B) (w : world) :
  bind atexit k w = k tt (snd (atexit w)).
Proof. reflexivity. Qed.

Lemma bind_printf {B} (msg : message) (k : unit -> M B) (w : world) :
  bind (printf msg) k w = k tt (logged (EvPrint stdout msg) w).
Proof. reflexivity. Qed.

Lemma bind_kill (env : environment) {B} pid sig (k : Z -> M B) (w : world) :
  bind (kill env pid sig) k w =
  k (os_kill env (ticks w) pid sig) (ticked (logged (EvKill pid sig) w)).
Proof. reflexivity. Qed.

Section Protocol.

Variable env : environment.
Variables a b c : bool.
Hypothesis resumable : b = true -> c = true.

Notation p := (os_getppid env).
Notation P := (protocol a b c (os_getppid env)).

Lemma protocol_tick (w : world) : P w -> P (ticked w).
Proof. intros H. exact H. Qed.

Lemma protocol_passive (w : world) (e : event) : passive e -> P w -> P (logged e w).
Proof.
  intros He. apply protocol_silent. destruct e; simpl in *; try contradiction;
    reflexivity.
Qed.

Lemma protocol_cleanup (w : world) :
  P w -> protocol a false c (os_getppid env) (snd (cleanup env w)).
Proof.
  intros H.
  destruct (Z.eq_dec (tracer w) 0) as [Ht|Ht].
  - rewrite (cleanup_no_tracer env w Ht). cbn [snd].
    apply protocol_silent; [reflexivity|].
    destruct H as [H | [(_ & _ & Ht' & Hp) | H]];
      [left; exact H | congruence | right; right; exact H].
  - rewrite (cleanup_tracer env w Ht). cbn [snd].
    destruct H as [(_ & _ & Ht') | [(Hb & Hk & Ht' & Hp) | (_ & _ & Ht')]];
      [congruence | | congruence].
    right; right. cbn [trace tracer]. rewrite kills_app, Hk, Ht'.
    split; [apply resumable, Hb | split; reflexivity].
Qed.

Lemma protocol_weaken (w : world) : protocol a false c (os_getppid env) w -> P w.
Proof.
  intros [H | [(Hb & _) | H]]; [left; exact H | discriminate | right; right; exact H].
Qed.

Lemma protocol_exit A status (w : world) : P w -> P (snd (@exit env A status w)).
Proof.
  intros H. rewrite exit_world. destruct (atexit_cleanup w); [|exact H].
  apply protocol_weaken, protocol_cleanup, H.
Qed.

Lemma protocol_unlock (m : mutex) (w : world) : P w -> P (logged (EvUnlock m) w).
Proof. apply protocol_silent. reflexivity. Qed.

Local Hint Resolve protocol_tick protocol_passive protocol_exit protocol_unlock : keeps.
Local Hint Resolve keeps_trylock keeps_unlock keeps_create keeps_join keeps_cond_wait
  keeps_timed_mutex_lock keeps_proc_string keeps_proc_ulong keeps_state_wait
  keeps_exit : keeps.

Ltac protocol_go :=
  pose proof protocol_tick as Inv_tick;
  pose proof protocol_passive as Inv_passive;
  pose proof protocol_exit as Inv_exit;
  keeps_go.

Lemma protocol_keeps_cleanup : keeps P (cleanup env).
Proof. intros w H. apply protocol_weaken, protocol_cleanup, H. Qed.

Lemma protocol_after_stop fuel : keeps P (main_after_stop env fuel).
Proof. unfold main_after_stop, printf, thread1_tid, thread2_tid. protocol_go. Qed.

Lemma protocol_rendezvous fuel (w : world) :
  kills (trace w) = [] ->
  (a = true /\ tracer w = 0) \/
  (b = true /\ tracer w = os_getppid env /\ os_getppid env <> 0) ->
  P (snd (main_rendezvous env fuel w)).
Proof.
  intros Hk Hmode. unfold main_rendezvous.
  rewrite bind_atexit, bind_load, bind_printf, bind_load.
  change (tracer (snd (atexit w))) with (tracer w).
  set (w1 := logged (EvPrint stdout (MsgStopping (to_ulong env (tracer w))))
               (snd (atexit w))).
  change (tracer w1) with (tracer w).
  assert (Hk1 : kills (trace w1) = []).
  { subst w1. unfold logged, emit, atexit. cbn [snd trace].
    rewrite !kills_app, Hk. reflexivity. }
  destruct Hmode as [(Ha & Ht) | (Hb & Ht & Hp)].
  - replace (negb (tracer w =? 0)) with false
      by (symmetry; apply negb_false_iff, Z.eqb_eq; exact Ht).
    rewrite (bind_run (ret tt) _ _ _ tt eq_refl).
    apply protocol_after_stop. left. auto.
  - replace (negb (tracer w =? 0)) with true
      by (symmetry; apply negb_true_iff, Z.eqb_neq; congruence).
    rewrite bind_assoc, bind_load, bind_assoc, (bind_kill env).
    change (tracer w1) with (tracer w).
    apply keeps_bind_at.
    + right; left. unfold ticked, ask, logged, emit. cbn [snd trace tracer].
      rewrite kills_app, Hk1, Ht. cbn. auto.
    + protocol_go.
    + intros _. apply protocol_after_stop.
Qed.

End Protocol.

Section Phases.

Variable env : environment.

Lemma unregistered_tick (w : world) : unregistered w -> unregistered (ticked w).
Proof. intros H. exact H. Qed.

Lemma unregistered_silent (w : world) (e : event) :
  is_kill e = false -> unregistered w -> unregistered (logged e w).
Proof.
  intros He [Hf Hk]. split; [exact Hf|].
  unfold logged, emit. cbn [snd trace]. rewrite kills_app, Hk.
  unfold kills. cbn [filter]. rewrite He. reflexivity.
Qed.

Lemma unregistered_passive (w : world) (e : event) :
  passive e -> unregistered w -> unregistered (logged e w).
Proof.
  intros He. apply unregistered_silent. destruct e; simpl in *; try contradiction;
    reflexivity.
Qed.

Lemma unregistered_exit A status (w : world) :
  unregistered w -> unregistered (snd (@exit env A status w)).
Proof. intros H. rewrite exit_world. destruct H as [Hf Hk]. rewrite Hf. split; auto. Qed.

Lemma unregistered_main_start fuel : keeps unregistered (main_start env fuel).
Proof.
  apply keeps_main_start;
    [exact unregistered_tick | exact unregistered_passive | exact unregistered_exit].
Qed.

Lemma unregistered_main_tracer standalone :
  keeps unregistered (main_tracer env standalone).
Proof.
  pose proof unregistered_tick as Inv_tick.
  pose proof unregistered_passive as Inv_passive.
  pose proof unregistered_exit as Inv_exit.
  unfold main_tracer, fprintf. destruct (standalone =? 0); [|apply keeps_ret].
  apply keeps_bind; [apply keeps_proc_ulong; assumption | intros v].
  apply keeps_bind.
  - intros w H. apply (unregistered_silent w (EvTracer (to_int v)) eq_refl H).
  - intros _. keeps_go.
Qed.

Lemma main_tracer_parent (w w' : world) :
  main_tracer env 0 w = (Ret tt, w') ->
  tracer w' = os_getppid env /\ os_getppid env <> 0.
Proof.
  unfold main_tracer. change (0 =? 0) with true. cbv iota. intros H.
  apply bind_ret_inv in H. destruct H as (v & w1 & _ & H).
  rewrite bind_store, bind_load in H.
  change (tracer (snd (store_tracer (to_int v) w1))) with (to_int v) in H.
  destruct (to_int v =? 0) eqn:E0; [destruct (die_not_ret env _ _ _ _ _ _ H)|].
  rewrite bind_load in H.
  change (tracer (snd (store_tracer (to_int v) w1))) with (to_int v) in H.
  destruct (to_int v =? os_getppid env) eqn:Ep; simpl in H;
    [|destruct (die_not_ret env _ _ _ _ _ _ H)].
  injection H as <-. apply Z.eqb_eq in Ep. apply Z.eqb_neq in E0.
  simpl. split; congruence.
Qed.

Lemma main_args_run (argv : list (list ascii)) (w : world) :
  main_args argv w = (Ret 1, w) \/ main_args argv w = (Ret 0, w) \/
  main_args argv w = (Stop Abort, w).
Proof.
  unfold main_args.
  destruct ((Z.of_nat (length argv) =? 2) && strcmp_eq (nth 1 argv []) (lit "-s"));
    [left; reflexivity|].
  destruct (Z.of_nat (length argv) =? 1); right; [left | right]; reflexivity.
Qed.

Lemma main_finish_status (w w' : world) (status : Z) :
  main_finish env w = (Ret status, w') -> status = EXIT_SUCCESS.
Proof.
  unfold main_finish. intros H.
  repeat (apply bind_ret_inv in H; destruct H as (? & ? & _ & H)).
  injection H as <- _. reflexivity.
Qed.

Lemma protocol_main_finish a b c (w : world) :
  (b = true -> c = true) ->
  protocol a b c (os_getppid env) w ->
  protocol a false c (os_getppid env) (snd (main_finish env w)).
Proof.
  intros Hbc H. unfold main_finish.
  pose proof (protocol_cleanup env a b c Hbc w H) as Hc.
  assert (Hf : false = true -> c = true) by discriminate.
  unfold bind at 1. destruct (cleanup env w) as [[[]|h] w1]; simpl in Hc; [|exact Hc].
  pose proof (protocol_tick env a false c) as Inv_tick.
  pose proof (protocol_passive env a false c) as Inv_passive.
  pose proof (protocol_exit env a false c Hf) as Inv_exit.
  revert w1 Hc.
  change (keeps (protocol a false c (os_getppid env))
            (printf MsgJoining ;;
             i <- pthread_mutex_unlock env terminate_mutex ;;
             assert (i =? 0) ;;
             i <- pthread_join env thread1 ;;
             assert (i =? 0) ;;
             i <- pthread_join env thread2 ;;
             assert (i =? 0) ;;
             printf MsgExiting ;;
             ret EXIT_SUCCESS)).
  assert (Hun : keeps (protocol a false c (os_getppid env))
                  (emit (EvUnlock terminate_mutex))).
  { intros w0. apply protocol_silent. reflexivity. }
  unfold printf. keeps_go.
Qed.

(** The whole of [main], for the flags its mode admits. *)
Lemma main_protocol fuel argv a b c :
  (b = true -> c = true) ->
  (main_args argv initial_world = (Ret 0, initial_world) -> b = true) ->
  (main_args argv initial_world = (Ret 1, initial_world) -> a = true) ->
  let r := main env fuel argv initial_world in
  match fst r with
  | Ret status =>
      status = EXIT_SUCCESS /\ protocol a false c (os_getppid env) (snd r)
  | Stop _ =>
      kills (trace (snd r)) = [] \/ protocol a b c (os_getppid env) (snd r)
  end.
Proof.
  intros Hbc Htraced Halone r.
  assert (Hr : r = main env fuel argv initial_world) by reflexivity.
  clearbody r. unfold main in Hr.
  assert (Hu0 : unregistered initial_world) by (split; reflexivity).
  unfold bind at 1 in Hr.
  destruct (main_args_run argv initial_world) as [H0|[H0|H0]]; rewrite H0 in Hr;
    [| |subst r; left; reflexivity].
  all: cbv beta iota in Hr.
  all: pose proof (unregistered_main_start fuel initial_world Hu0) as Hu1.
  all: pose proof (steps_main_start env quiet quiet_quiet true fuel initial_world)
         as (_ & _ & Hkeep).
  all: unfold bind at 1 in Hr.
  all: destruct (main_start env fuel initial_world) as [[[]|h] w1];
         [|subst r; left; apply Hu1].
  all: cbn [fst snd] in Hu1, Hkeep.
  all: assert (Ht1 : tracer w1 = 0)
         by (apply Hkeep; [reflexivity | eexists; reflexivity]).
  all: unfold bind at 1 in Hr.
  - (* standalone *)
    change (main_tracer env 1 w1) with (Ret tt, w1) in Hr. cbv beta iota in Hr.
    pose proof (protocol_rendezvous env a b c Hbc fuel w1 (proj2 Hu1)
                  (or_introl (conj (Halone H0) Ht1))) as H3.
    unfold bind at 1 in Hr.
    destruct (main_rendezvous env fuel w1) as [[[]|h] w3];
      [|subst r; right; exact H3].
    cbn [snd] in H3.
    pose proof (protocol_main_finish a b c w3 Hbc H3) as H4.
    destruct (main_finish env w3) as [[status|h] w4] eqn:E4; subst r;
      cbn [fst snd] in *.
    + split; [apply (main_finish_status _ _ _ E4) | exact H4].
    + right. apply (protocol_weaken env a b c), H4.
  - (* traced *)
    pose proof (unregistered_main_tracer 0 w1 Hu1) as Hu2.
    destruct (main_tracer env 0 w1) as [[[]|h] w2] eqn:E2;
      [|subst r; left; apply Hu2].
    cbn [snd] in Hu2.
    destruct (main_tracer_parent _ _ E2) as [Ht2 Hp].
    pose proof (protocol_rendezvous env a b c Hbc fuel w2 (proj2 Hu2)
                  (or_intror (conj (Htraced H0) (conj Ht2 Hp)))) as H3.
    unfold bind at 1 in Hr.
    destruct (main_rendezvous env fuel w2) as [[[]|h] w3];
      [|subst r; right; exact H3].
    cbn [snd] in H3.
    pose proof (protocol_main_finish a b c w3 Hbc H3) as H4.
    destruct (main_finish env w3) as [[status|h] w4] eqn:E4; subst r;
      cbn [fst snd] in *.
    + split; [apply (main_finish_status _ _ _ E4) | exact H4].
    + right. apply (protocol_weaken env a b c), H4.
Qed.

End Phases.

Lemma protocol_signals a b c p (w : world) :
  protocol a b c p w ->
  kills (trace w) = [] \/ kills (trace w) = [EvKill p SIGSTOP] \/
  kills (trace w) = [EvKill p SIGSTOP; EvKill p SIGCONT].
Proof. intros [H | [H | H]]; tauto. Qed.

(** The main thread by itself: whatever the command line, the
    environment and the way it ends, the signals it has sent are: none;
    or SIGSTOP to its parent; or SIGSTOP and then SIGCONT to its parent. *)
Lemma run_signals (env : environment) (fuel : nat)
  (argv : list (list ascii)) :
  let tr := trace (snd (run env fuel argv initial_world)) in
  let p := os_getppid env in
  kills tr = [] \/ kills tr = [EvKill p SIGSTOP] \/
  kills tr = [EvKill p SIGSTOP; EvKill p SIGCONT].
Proof.
  intros tr p. subst tr p.
  pose proof (main_protocol env fuel argv true true true
                (fun _ => eq_refl) (fun _ => eq_refl) (fun _ => eq_refl)) as H.
  cbv zeta in H. unfold run, bind.
  destruct (main env fuel argv initial_world) as [[status|h] w']; cbn [fst snd] in *.
  - destruct H as [_ H]. apply (protocol_signals true true true).
    apply protocol_exit; [auto|]. apply protocol_weaken, H.
  - destruct H as [H|H]; [left; exact H | apply (protocol_signals _ _ _ _ _ H)].
Qed.

Lemma kills_none (tr : list event) :
  kills tr = [] -> forall pid sig, ~ In (EvKill pid sig) tr.
Proof.
  intros H pid sig Hin.
  assert (Hk : In (EvKill pid sig) (kills tr)).
  { apply filter_In. split; [exact Hin | reflexivity]. }
  rewrite H in Hk. destruct Hk.
Qed.

(** X9.  In standalone mode the process sends no signal at all, whatever
    the environment and the way it ends. *)
Theorem standalone_sends_no_signal (env : environment) (fuel : nat)
  (prog : list ascii) (pid : Z) (sig : signal) :
  ~ In (EvKill pid sig) (trace (snd (run env fuel [prog; lit "-s"] initial_world))).
Proof.
  apply kills_none.
  pose proof (main_protocol env fuel [prog; lit "-s"] true false false
                (fun H => H)) as H.
  cbv zeta in H. specialize (H ltac:(discriminate) (fun _ => eq_refl)).
  assert (Hnone : forall w, protocol true false false (os_getppid env) w ->
                            kills (trace w) = []).
  { intros w [Hw | [(Hb & _) | (Hc & _)]]; [tauto | discriminate | discriminate]. }
  unfold run, bind.
  destruct (main env fuel [prog; lit "-s"] initial_world) as [[status|h] w'];
    cbn [fst snd] in *.
  - destruct H as [_ H]. apply Hnone.
    apply protocol_exit; [discriminate | exact H].
  - destruct H as [H|H]; [exact H | apply Hnone, H].
Qed.

(** X10.  When [main] returns in traced mode, it returns EXIT_SUCCESS,
    the signals sent are exactly SIGSTOP and then SIGCONT to the parent,
    which is the tracer, and the recorded tracer is cleared. *)
Theorem traced_main_stops_and_resumes (env : environment) (fuel : nat)
  (prog : list ascii) (status : Z) (w' : world) :
  main env fuel [prog] initial_world = (Ret status, w') ->
  status = EXIT_SUCCESS /\
  kills (trace w') = [EvKill (os_getppid env) SIGSTOP;
                      EvKill (os_getppid env) SIGCONT] /\
  tracer w' = 0.
Proof.
  intros Hrun.
  pose proof (main_protocol env fuel [prog] false true true
                (fun _ => eq_refl) (fun _ => eq_refl)) as H.
  cbv zeta in H. specialize (H ltac:(discriminate)).
  rewrite Hrun in H. cbn [fst snd] in H. destruct H as [Hs H].
  split; [exact Hs|].
  destruct H as [(Ha & _) | [(Hb & _) | (_ & Hk & Ht)]];
    [discriminate | discriminate | auto].
Qed.

Lemma traced_main_stops_and_resumes_witness :
  EXIT_SUCCESS = EXIT_SUCCESS /\
  kills (trace (snd (main traced_env 5 [lit "watchthreads-reorder"] initial_world)))
  = [EvKill 77 SIGSTOP; EvKill 77 SIGCONT] /\
  tracer (snd (main traced_env 5 [lit "watchthreads-reorder"] initial_world)) = 0.
Proof.
  apply (traced_main_stops_and_resumes traced_env 5 (lit "watchthreads-reorder")).
  vm_compute. reflexivity.
Defined.

(** ** The Start Gate *)

Section StartGate.

Variable env : environment.

Lemma bind_stop {A B} (m : M A) (k : A -> M B) (w w' : world) (h : halt) :
  m w = (Stop h, w') -> bind m k w = (Stop h, w').
Proof. intros H. unfold bind. rewrite H. reflexivity. Qed.

Lemma cleanup_trace (w : world) :
  exists d, trace (snd (cleanup env w)) = trace w ++ d /\
            Forall (fun e => e <> EvUnlock gdbstop_mutex) d.
Proof.
  destruct (Z.eq_dec (tracer w) 0) as [Ht|Ht].
  - rewrite (cleanup_no_tracer env w Ht). eexists; split; [reflexivity|].
    repeat constructor; discriminate.
  - rewrite (cleanup_tracer env w Ht). eexists; split; [reflexivity|].
    repeat constructor; discriminate.
Qed.

Lemma gate_closed_tick (w : world) : gate_closed w -> gate_closed (ticked w).
Proof. intros H. exact H. Qed.

Lemma gate_closed_event (w : world) (e : event) :
  e <> EvUnlock gdbstop_mutex -> gate_closed w -> gate_closed (logged e w).
Proof.
  intros He H Hin. unfold logged, emit in Hin. cbn [snd trace] in Hin.
  apply in_app_or in Hin. destruct Hin as [Hin|[Hin|[]]]; [exact (H Hin) | congruence].
Qed.

Lemma gate_closed_passive (w : world) (e : event) :
  passive e -> gate_closed w -> gate_closed (logged e w).
Proof.
  intros He. apply gate_closed_event. destruct e; simpl in He; try contradiction;
    discriminate.
Qed.

Lemma gate_closed_exit A status (w : world) :
  gate_closed w -> gate_closed (snd (@exit env A status w)).
Proof.
  intros H. rewrite exit_world. destruct (atexit_cleanup w); [|exact H].
  destruct (cleanup_trace w) as (d & Hd & Hq). unfold gate_closed. rewrite Hd.
  intros Hin. apply in_app_or in Hin. destruct Hin as [Hin|Hin]; [exact (H Hin)|].
  rewrite Forall_forall in Hq. apply (Hq _ Hin). reflexivity.
Qed.

Lemma stopped_first_grows p (w w' : world) (d : list event) :
  trace w' = trace w ++ d -> stopped_first p w -> stopped_first p w'.
Proof.
  intros Hd (a & b & Ht & Ha). exists a, (b ++ d).
  rewrite Hd, Ht, <- app_assoc. auto.
Qed.

Lemma stopped_first_tick p (w : world) : stopped_first p w -> stopped_first p (ticked w).
Proof. intros H. exact H. Qed.

Lemma stopped_first_event p (w : world) (e : event) :
  stopped_first p w -> stopped_first p (logged e w).
Proof. apply (stopped_first_grows p w (logged e w) [e]). reflexivity. Qed.

Lemma stopped_first_passive p (w : world) (e : event) :
  passive e -> stopped_first p w -> stopped_first p (logged e w).
Proof. intros _. apply stopped_first_event. Qed.

Lemma stopped_first_cleanup p (w : world) :
  stopped_first p w -> stopped_first p (snd (cleanup env w)).
Proof.
  destruct (cleanup_trace w) as (d & Hd & _). apply (stopped_first_grows p _ _ d Hd).
Qed.

Lemma stopped_first_exit p A status (w : world) :
  stopped_first p w -> stopped_first p (snd (@exit env A status w)).
Proof.
  intros H. rewrite exit_world. destruct (atexit_cleanup w); [|exact H].
  apply stopped_first_cleanup, H.
Qed.

Lemma stopped_first_after_stop p fuel :
  keeps (stopped_first p) (main_after_stop env fuel).
Proof.
  pose proof (stopped_first_tick p) as Inv_tick.
  pose proof (stopped_first_passive p) as Inv_passive.
  pose proof (stopped_first_exit p) as Inv_exit.
  assert (Hun : keeps (stopped_first p) (emit (EvUnlock gdbstop_mutex))).
  { intros w. apply stopped_first_event. }
  assert (Hsw : forall fuel t wanted, keeps (stopped_first p) (state_wait env fuel t wanted)).
  { intros. apply keeps_state_wait; assumption. }
  assert (Htl : forall fuel m, keeps (stopped_first p) (timed_mutex_lock env fuel m)).
  { intros. apply keeps_timed_mutex_lock; assumption. }
  unfold main_after_stop, printf, thread1_tid, thread2_tid. keeps_go.
Qed.

Lemma stopped_first_finish p : keeps (stopped_first p) (main_finish env).
Proof.
  pose proof (stopped_first_tick p) as Inv_tick.
  pose proof (stopped_first_passive p) as Inv_passive.
  pose proof (stopped_first_exit p) as Inv_exit.
  assert (Hun : keeps (stopped_first p) (emit (EvUnlock terminate_mutex))).
  { intros w. apply stopped_first_event. }
  assert (Hcl : keeps (stopped_first p) (cleanup env)).
  { intros w. apply stopped_first_cleanup. }
  unfold main_finish, printf. keeps_go.
Qed.

Lemma gate_closed_finish : keeps gate_closed (main_finish env).
Proof.
  pose proof gate_closed_tick as Inv_tick.
  pose proof gate_closed_passive as Inv_passive.
  pose proof gate_closed_exit as Inv_exit.
  assert (Hun : keeps gate_closed (emit (EvUnlock terminate_mutex))).
  { intros w. apply gate_closed_event. discriminate. }
  assert (Hcl : keeps gate_closed (cleanup env)).
  { intros w H. destruct (cleanup_trace w) as (d & Hd & Hq).
    unfold gate_closed. rewrite Hd. intros Hin. apply in_app_or in Hin.
    destruct Hin as [Hin|Hin]; [exact (H Hin)|].
    rewrite Forall_forall in Hq. apply (Hq _ Hin). reflexivity. }
  unfold main_finish, printf. keeps_go.
Qed.

Lemma gate_closed_main_start fuel : keeps gate_closed (main_start env fuel).
Proof.
  apply keeps_main_start;
    [exact gate_closed_tick | exact gate_closed_passive | exact gate_closed_exit].
Qed.

Lemma gate_closed_main_tracer standalone : keeps gate_closed (main_tracer env standalone).
Proof.
  pose proof gate_closed_tick as Inv_tick.
  pose proof gate_closed_passive as Inv_passive.
  pose proof gate_closed_exit as Inv_exit.
  unfold main_tracer, fprintf. destruct (standalone =? 0); [|apply keeps_ret].
  apply keeps_bind; [apply keeps_proc_ulong; assumption | intros v].
  apply keeps_bind.
  - intros w H. apply (gate_closed_event w (EvTracer (to_int v))); [discriminate | exact H].
  - intros _. keeps_go.
Qed.

(** Lines 304-306: SIGSTOP to the tracer, then the wait for its stop. *)
Lemma gate_closed_stop_tracer fuel :
  keeps gate_closed
    (t <- load_tracer ;;
     i <- kill env t SIGSTOP ;;
     assert (i =? 0) ;;
     t <- load_tracer ;;
     state_wait env fuel t (lit "T (stopped)")).
Proof.
  pose proof gate_closed_tick as Inv_tick.
  pose proof gate_closed_passive as Inv_passive.
  pose proof gate_closed_exit as Inv_exit.
  assert (Hsw : forall t, keeps gate_closed (state_wait env fuel t (lit "T (stopped)"))).
  { intros. apply keeps_state_wait; assumption. }
  apply keeps_bind; [apply keeps_load | intros t].
  apply keeps_bind.
  - intros w H. unfold kill. rewrite (bind_run (emit _) _ w _ tt eq_refl).
    rewrite ask_run. cbn [snd]. apply gate_closed_tick.
    apply (gate_closed_event w (EvKill t SIGSTOP)); [discriminate | exact H].
  - intros i. keeps_go.
Qed.

Lemma stop_tracer_ret fuel (w w' : world) :
  (t <- load_tracer ;;
   i <- kill env t SIGSTOP ;;
   assert (i =? 0) ;;
   t <- load_tracer ;;
   state_wait env fuel t (lit "T (stopped)")) w = (Ret tt, w') ->
  exists a, trace w' = a ++ [tracer_stopped (tracer w)].
Proof.
  intros H. rewrite bind_load, (bind_kill env) in H.
  apply bind_ret_inv in H. destruct H as ([] & w1 & Ha & H).
  assert (Hw1 : w1 = ticked (logged (EvKill (tracer w) SIGSTOP) w)).
  { destruct (os_kill env (ticks w) (tracer w) SIGSTOP =? 0);
      [injection Ha as <-; reflexivity | discriminate]. }
  subst w1. rewrite bind_load in H.
  change (tracer (ticked (logged (EvKill (tracer w) SIGSTOP) w))) with (tracer w) in H.
  apply state_wait_ret in H. destruct H as (d & Hd).
  eexists. rewrite Hd, app_assoc. reflexivity.
Qed.

Lemma split_at_release (a b pre post : list event) (x : event) :
  a ++ x :: b = pre ++ EvUnlock gdbstop_mutex :: post ->
  ~ In (EvUnlock gdbstop_mutex) a -> x <> EvUnlock gdbstop_mutex ->
  exists r, pre = a ++ x :: r.
Proof.
  revert pre; induction a as [|z a IH]; intros pre H Ha Hx.
  - destruct pre as [|y pre]; simpl in H; inversion H; subst.
    + congruence.
    + exists pre. reflexivity.
  - destruct pre as [|y pre]; simpl in H; inversion H; subst.
    + exfalso. apply Ha. left. reflexivity.
    + destruct (IH pre) as (r & ->); auto.
      * intros Hin. apply Ha. right. exact Hin.
      * exists r. reflexivity.
Qed.

Lemma rendezvous_gate fuel (w : world) :
  gate_closed w -> tracer w <> 0 ->
  let w' := snd (main_rendezvous env fuel w) in
  gate_closed w' \/ stopped_first (tracer w) w'.
Proof.
  intros Hg Ht w'. subst w'. unfold main_rendezvous.
  rewrite bind_atexit, bind_load, bind_printf, bind_load.
  change (tracer (snd (atexit w))) with (tracer w).
  set (w1 := logged (EvPrint stdout (MsgStopping (to_ulong env (tracer w))))
               (snd (atexit w))).
  change (tracer w1) with (tracer w).
  assert (Hg1 : gate_closed w1).
  { subst w1. apply gate_closed_event; [discriminate|].
    intros Hin. unfold atexit in Hin. cbn [snd trace] in Hin.
    apply in_app_or in Hin. destruct Hin as [Hin|[Hin|[]]]; [exact (Hg Hin) | discriminate]. }
  replace (negb (tracer w =? 0)) with true
    by (symmetry; apply negb_true_iff, Z.eqb_neq; exact Ht).
  pose proof (gate_closed_stop_tracer fuel w1 Hg1) as Hg2.
  destruct ((t <- load_tracer ;;
             i <- kill env t SIGSTOP ;;
             assert (i =? 0) ;;
             t0 <- load_tracer ;;
             state_wait env fuel t0 (lit "T (stopped)")) w1)
    as [[[]|h] w2] eqn:E; cbn [snd] in Hg2.
  - rewrite (bind_run _ _ _ _ _ E). right.
    apply (stopped_first_after_stop (tracer w) fuel w2).
    destruct (stop_tracer_ret fuel w1 w2 E) as (a & Ha).
    exists a, []. split; [exact Ha|].
    intros Hin. apply Hg2. rewrite Ha. apply in_or_app. left. exact Hin.
  - rewrite (bind_stop _ _ _ _ _ E). left. exact Hg2.
Qed.

End StartGate.

(** The main thread by itself, in traced mode: the release of the Start
    Gate comes in its trace after the return of [state_wait] on the
    parent, the tracer, for the state [T (stopped)]. *)
Lemma main_stopped_before_start (env : environment) (fuel : nat)
  (prog : list ascii) (pre post : list event) :
  trace (snd (main env fuel [prog] initial_world))
    = pre ++ EvUnlock gdbstop_mutex :: post ->
  exists a b, pre = a ++ tracer_stopped (os_getppid env) :: b.
Proof.
  intros H.
  assert (Hfin : forall r, r = main env fuel [prog] initial_world ->
                 gate_closed (snd r) \/ stopped_first (os_getppid env) (snd r)).
  { clear H. intros r Hr. unfold main in Hr.
    rewrite (bind_run (main_args [prog]) _ initial_world initial_world 0 eq_refl) in Hr.
    assert (Hg0 : gate_closed initial_world) by (intros []).
    pose proof (gate_closed_main_start env fuel initial_world Hg0) as Hg1.
    unfold bind at 1 in Hr.
    destruct (main_start env fuel initial_world) as [[[]|h] w1]; cbn [snd] in Hg1;
      [|subst r; left; exact Hg1].
    pose proof (gate_closed_main_tracer env 0 w1 Hg1) as Hg2.
    unfold bind at 1 in Hr.
    destruct (main_tracer env 0 w1) as [[[]|h] w2] eqn:E2; cbn [snd] in Hg2;
      [|subst r; left; exact Hg2].
    destruct (main_tracer_parent env _ _ E2) as [Ht2 Hp].
    pose proof (rendezvous_gate env fuel w2 Hg2 ltac:(congruence)) as Hg3.
    cbv zeta in Hg3. rewrite Ht2 in Hg3.
    unfold bind at 1 in Hr.
    destruct (main_rendezvous env fuel w2) as [[[]|h] w3]; cbn [snd] in Hg3;
      [|subst r; exact Hg3].
    subst r. destruct Hg3 as [Hg3|Hg3].
    - left. apply (gate_closed_finish env w3 Hg3).
    - right. apply (stopped_first_finish env _ w3 Hg3). }
  destruct (Hfin _ eq_refl) as [Hg|(a & b & Ht & Ha)].
  - exfalso. apply Hg. rewrite H. apply in_or_app. right. left. reflexivity.
  - rewrite Ht in H.
    destruct (split_at_release _ _ _ _ _ H Ha ltac:(discriminate)) as (r & ->).
    exists a, r. reflexivity.
Qed.

(** ** The worker threads *)

Section WorkerSteps.

Variable env : environment.
Variable os_cond_signal : nat -> cond -> Z.

Lemma cleanup_fatal (w : world) :
  exists d, trace (snd (cleanup env w)) = trace w ++ d /\ Forall fatal d.
Proof.
  destruct (Z.eq_dec (tracer w) 0) as [Ht|Ht].
  - rewrite (cleanup_no_tracer env w Ht). eexists; split; [reflexivity|].
    repeat constructor.
  - rewrite (cleanup_tracer env w Ht). eexists; split; [reflexivity|].
    repeat constructor.
Qed.

Lemma die_fatal {A} s msg status (w : world) :
  let r := (fprintf s msg ;; @exit env A status) w in
  exists h d, fst r = Stop h /\ trace (snd r) = trace w ++ d /\ Forall fatal d.
Proof.
  intros r. subst r. unfold bind. rewrite fprintf_run.
  destruct (exit_stops env (A:=A) status (logged (EvPrint s msg) w)) as [h Hh].
  exists h. rewrite exit_world.
  destruct (atexit_cleanup (logged (EvPrint s msg) w)).
  - destruct (cleanup_fatal (logged (EvPrint s msg) w)) as (d & Hd & Hf).
    exists (EvPrint s msg :: d). split; [exact Hh|]. split.
    + rewrite Hd. unfold logged, emit. cbn [snd trace]. rewrite <- app_assoc. reflexivity.
    + constructor; [exact I | exact Hf].
  - exists [EvPrint s msg]. split; [exact Hh|]. split; [reflexivity|].
    repeat constructor.
Qed.

Lemma lock_loop_trace m start fuel : forall (w : world),
  let r := timed_mutex_lock_loop env fuel m start w in
  (fst r = Ret tt /\ trace (snd r) = trace w ++ [EvLock m]) \/
  (exists h d, fst r = Stop h /\ trace (snd r) = trace w ++ d /\ Forall fatal d).
Proof.
  induction fuel as [|fuel IH]; intros w; cbn [timed_mutex_lock_loop].
  - right. exists OutOfFuel, []. rewrite app_nil_r. auto.
  - rewrite (bind_run _ _ _ _ _ (trylock_run env m w)).
    destruct (os_mutex_trylock env (ticks w) m =? 0) eqn:E0.
    + left. split; reflexivity.
    + destruct (os_mutex_trylock env (ticks w) m =? EBUSY).
      2:{ right. exists Abort, []. rewrite app_nil_r. auto. }
      rewrite (bind_run (assert true) _ _ _ tt eq_refl).
      unfold clock_gettime. rewrite (bind_run _ _ _ _ _ (ask_run _ _)).
      destruct (os_clock_gettime env (ticks (ticked w))) as [i now].
      destruct (i =? 0).
      2:{ right. exists Abort, []. rewrite app_nil_r. auto. }
      rewrite (bind_run (assert true) _ _ _ tt eq_refl).
      destruct (tv_sec now >=? tv_sec start).
      2:{ right. exists Abort, []. rewrite app_nil_r. auto. }
      rewrite (bind_run (assert true) _ _ _ tt eq_refl).
      destruct (tv_sec now - tv_sec start <? TIMEOUT env).
      * apply (IH (ticked (ticked w))).
      * right. apply (die_fatal stderr MsgLockTimeout EXIT_FAILURE (ticked (ticked w))).
Qed.

Lemma lock_trace m fuel (w : world) :
  let r := timed_mutex_lock env fuel m w in
  (fst r = Ret tt /\ trace (snd r) = trace w ++ [EvLock m]) \/
  (exists h d, fst r = Stop h /\ trace (snd r) = trace w ++ d /\ Forall fatal d).
Proof.
  unfold timed_mutex_lock, clock_gettime.
  rewrite (bind_run _ _ _ _ _ (ask_run _ _)).
  destruct (os_clock_gettime env (ticks w)) as [i start].
  destruct (i =? 0).
  2:{ right. exists Abort, []. cbn. rewrite app_nil_r. auto. }
  rewrite (bind_run (assert true) _ _ _ tt eq_refl).
  apply (lock_loop_trace m start fuel (ticked w)).
Qed.

Lemma skipn_grown {A} (l d : list A) : skipn (length l) (l ++ d) = d.
Proof. induction l; simpl; auto. Qed.

Lemma follows_done (ww : worker_world) : follows [] (wret tt) ww.
Proof.
  exists O, []. simpl. rewrite app_nil_r. repeat split; auto.
Qed.

(** A stage that appends [e] when it succeeds. *)
Lemma follows_stage (m : W unit) (e : worker_event) (L : list worker_event)
  (rest : W unit) :
  (forall ww, let r := m ww in
     (fst r = Ret tt /\ log (snd r) = log ww ++ [e]) \/
     (exists h d, fst r = Stop h /\ log (snd r) = log ww ++ map Did d /\ Forall fatal d)) ->
  (forall ww, follows L rest ww) ->
  forall ww, follows (e :: L) (wbind m (fun _ => rest)) ww.
Proof.
  intros Hm Hrest ww. unfold follows, wbind. specialize (Hm ww). cbv zeta in Hm.
  destruct (m ww) as [[[]|h] ww1]; cbn [fst snd] in Hm.
  - destruct Hm as [[_ Hl] | (h & d & Hh & _)]; [|discriminate].
    destruct (Hrest ww1) as (n & d & Hlog & Hf & Hr).
    exists (S n), d. rewrite Hlog, Hl, <- app_assoc. simpl.
    split; [reflexivity|]. split; [exact Hf|].
    intros a Ha. destruct (Hr a Ha) as [-> ->]. auto.
  - destruct Hm as [[Hh _] | (h' & d & _ & Hl & Hf)]; [discriminate|].
    exists O, d. simpl. split; [exact Hl|]. split; [exact Hf|].
    intros a Ha. discriminate.
Qed.

(** A stage made of a call and the assertion on its result. *)
Lemma follows_checked (m : W Z) (e : worker_event) (L : list worker_event)
  (rest : W unit) :
  (forall ww, exists i,
     fst (m ww) = Ret i /\
     log (snd (m ww)) = log ww ++ (if i =? 0 then [e] else [])) ->
  (forall ww, follows L rest ww) ->
  forall ww,
    follows (e :: L) (wbind m (fun i => wbind (wassert (i =? 0)) (fun _ => rest))) ww.
Proof.
  intros Hm Hrest ww. unfold follows, wbind. destruct (Hm ww) as (i & Hi & Hl).
  destruct (m ww) as [[i'|h] ww1]; cbn [fst snd] in *; [|discriminate].
  injection Hi as ->. destruct (i =? 0); cbn [wassert wret].
  - destruct (Hrest ww1) as (n & d & Hlog & Hf & Hr).
    exists (S n), d. rewrite Hlog, Hl, <- app_assoc. simpl.
    split; [reflexivity|]. split; [exact Hf|].
    intros a Ha. destruct (Hr a Ha) as [-> ->]. auto.
  - exists O, []. cbn [fst snd]. rewrite Hl. simpl.
    split; [reflexivity|]. split; [constructor|]. intros a Ha. discriminate.
Qed.

Lemma note_stage (e : worker_event) (ww : worker_world) :
  let r := note e ww in
  (fst r = Ret tt /\ log (snd r) = log ww ++ [e]) \/
  (exists h d, fst r = Stop h /\ log (snd r) = log ww ++ map Did d /\ Forall fatal d).
Proof. left. split; reflexivity. Qed.

Lemma lock_stage m fuel (ww : worker_world) :
  let r := lift (timed_mutex_lock env fuel m) ww in
  (fst r = Ret tt /\ log (snd r) = log ww ++ [Did (EvLock m)]) \/
  (exists h d, fst r = Stop h /\ log (snd r) = log ww ++ map Did d /\ Forall fatal d).
Proof.
  unfold lift. pose proof (lock_trace m fuel (base ww)) as H. cbv zeta in H.
  destruct (timed_mutex_lock env fuel m (base ww)) as [o w']; cbn [fst snd] in *.
  destruct H as [[-> Ht] | (h & d & -> & Ht & Hf)]; rewrite Ht, skipn_grown.
  - left. split; reflexivity.
  - right. exists h, d. auto.
Qed.

Lemma unlock_run m (w : world) :
  pthread_mutex_unlock env m w =
  (Ret (os_mutex_unlock env (ticks w) m),
   if os_mutex_unlock env (ticks w) m =? 0
   then logged (EvUnlock m) (ticked w) else ticked w).
Proof.
  unfold pthread_mutex_unlock, bind. rewrite ask_run.
  destruct (os_mutex_unlock env (ticks w) m =? 0); reflexivity.
Qed.

Lemma unlock_checked m (ww : worker_world) :
  exists i,
    fst (lift (pthread_mutex_unlock env m) ww) = Ret i /\
    log (snd (lift (pthread_mutex_unlock env m) ww))
    = log ww ++ (if i =? 0 then [Did (EvUnlock m)] else []).
Proof.
  exists (os_mutex_unlock env (ticks (base ww)) m).
  unfold lift. rewrite unlock_run.
  destruct (os_mutex_unlock env (ticks (base ww)) m =? 0); cbn [fst snd].
  - split; [reflexivity|].
    change (trace (logged (EvUnlock m) (ticked (base ww))))
      with (trace (base ww) ++ [EvUnlock m]).
    rewrite skipn_grown. reflexivity.
  - split; [reflexivity|].
    change (trace (ticked (base ww))) with (trace (base ww)).
    rewrite skipn_all. reflexivity.
Qed.

Lemma signal_checked c (ww : worker_world) :
  exists i,
    fst (pthread_cond_signal os_cond_signal c ww) = Ret i /\
    log (snd (pthread_cond_signal os_cond_signal c ww))
    = log ww ++ (if i =? 0 then [Signalled c] else []).
Proof.
  exists (os_cond_signal (ticks (base ww)) c).
  unfold pthread_cond_signal, wbind, lift. rewrite ask_run.
  change (trace (ticked (base ww))) with (trace (base ww)).
  rewrite skipn_all. cbn [map].
  destruct (os_cond_signal (ticks (base ww)) c =? 0); cbn [fst snd note wret log].
  - split; [reflexivity|]. rewrite app_nil_r. reflexivity.
  - split; [reflexivity|]. rewrite !app_nil_r. reflexivity.
Qed.

(** The routine of both workers. *)
Lemma routine_follows t c fuel (ww : worker_world) :
  follows (worker_script env t c)
    (note (Published t (os_gettid env)) ;;
     i <- pthread_cond_signal os_cond_signal c ;;
     wassert (i =? 0) ;;
     lift (timed_mutex_lock env fuel gdbstop_mutex) ;;
     i <- lift (pthread_mutex_unlock env gdbstop_mutex) ;;
     wassert (i =? 0) ;;
     note (Watched t) ;;
     lift (timed_mutex_lock env fuel terminate_mutex) ;;
     i <- lift (pthread_mutex_unlock env terminate_mutex) ;;
     wassert (i =? 0) ;;
     wret tt)%worker ww.
Proof.
  revert ww. unfold worker_script.
  apply follows_stage; [apply note_stage|].
  apply follows_checked; [apply signal_checked|].
  apply follows_stage; [apply lock_stage|].
  apply follows_checked; [apply unlock_checked|].
  apply follows_stage; [apply note_stage|].
  apply follows_stage; [apply lock_stage|].
  apply follows_checked; [apply unlock_checked|].
  apply follows_done.
Qed.

End WorkerSteps.

(** X12.  Whatever the environment answers and however it ends, a worker
    thread acts in the order of its routine: it publishes its identifier,
    signals the condition, takes and releases the Start Gate, reads its
    watched variable, takes and releases the Terminate Gate; a run that
    stops early has done an initial part of this and then only what a
    fatal exit adds (a diagnostic and the exit handler); a run that
    returns has done all of it and nothing else. *)
Theorem workers_follow_their_script (env : environment)
  (os_cond_signal : nat -> cond -> Z) (fuel : nat) (w : world) :
  let r1 := thread1_func env os_cond_signal fuel (new_worker w) in
  let r2 := thread2_func env os_cond_signal fuel (new_worker w) in
  (exists n d,
      log (snd r1) = firstn n (worker_script env thread1 thread1_tid_cond) ++ map Did d /\
      Forall fatal d /\
      (forall a, fst r1 = Ret a -> (n = 7)%nat /\ d = [])) /\
  (exists n d,
      log (snd r2) = firstn n (worker_script env thread2 thread2_tid_cond) ++ map Did d /\
      Forall fatal d /\
      (forall a, fst r2 = Ret a -> (n = 7)%nat /\ d = [])).
Proof.
  split.
  - exact (routine_follows env os_cond_signal thread1 thread1_tid_cond fuel (new_worker w)).
  - exact (routine_follows env os_cond_signal thread2 thread2_tid_cond fuel (new_worker w)).
Qed.

Lemma workers_follow_their_script_witness :
  fst (thread1_func worker_env (fun _ _ => 0) 1 (new_worker initial_world)) = Ret tt /\
  exists n d,
    log (snd (thread1_func worker_env (fun _ _ => 0) 1 (new_worker initial_world)))
    = firstn n (worker_script worker_env thread1 thread1_tid_cond) ++ map Did d /\
    Forall fatal d /\
    (forall a, fst (thread1_func worker_env (fun _ _ => 0) 1 (new_worker initial_world))
               = Ret a -> (n = 7)%nat /\ d = []).
Proof.
  split; [reflexivity|].
  exact (proj1 (workers_follow_their_script worker_env (fun _ _ => 0) 1 initial_world)).
Defined.

(** ** Leaving through [exit] *)

Section Exits.

Variable env : environment.

Lemma exits_ret {A} (a : A) : exits_resumed (ret a).
Proof. intros w status H. discriminate. Qed.

Lemma exits_abort {A} : exits_resumed (@halt_with A Abort).
Proof. intros w status H. discriminate. Qed.

Lemma exits_hang {A} : exits_resumed (@halt_with A Hang).
Proof. intros w status H. discriminate. Qed.

Lemma exits_fuel {A} : exits_resumed (@halt_with A OutOfFuel).
Proof. intros w status H. discriminate. Qed.

Lemma exits_bind {A B} (m : M A) (k : A -> M B) :
  exits_resumed m -> (forall a, exits_resumed (k a)) -> exits_resumed (bind m k).
Proof.
  intros Hm Hk w status. unfold bind. specialize (Hm w).
  destruct (m w) as [[a|h] w1]; cbn [fst snd] in *.
  - apply Hk.
  - intros H. apply (Hm status). injection H as ->. reflexivity.
Qed.

Lemma exits_ask {A} (f : nat -> A) : exits_resumed (ask f).
Proof. intros w status H. discriminate. Qed.

Lemma exits_emit (e : event) : exits_resumed (emit e).
Proof. intros w status H. discriminate. Qed.

Lemma exits_assert (b : bool) : exits_resumed (assert b).
Proof. destruct b; intros w status H; discriminate. Qed.

Lemma exits_load : exits_resumed load_tracer.
Proof. intros w status H. discriminate. Qed.

Lemma exits_store v : exits_resumed (store_tracer v).
Proof. intros w status H. discriminate. Qed.

Lemma exits_atexit : exits_resumed atexit.
Proof. intros w status H. discriminate. Qed.

Lemma cleanup_clears (w : world) :
  tracer (snd (cleanup env w)) = 0 /\
  atexit_cleanup (snd (cleanup env w)) = atexit_cleanup w.
Proof.
  destruct (Z.eq_dec (tracer w) 0) as [Ht|Ht].
  - rewrite (cleanup_no_tracer env w Ht). split; [exact Ht | reflexivity].
  - rewrite (cleanup_tracer env w Ht). split; reflexivity.
Qed.

Lemma exits_exit {A} status : exits_resumed (@exit env A status).
Proof.
  intros w st _. rewrite exit_world.
  destruct (atexit_cleanup w) eqn:Hf.
  - intros _. apply cleanup_clears.
  - rewrite Hf. discriminate.
Qed.

Lemma exits_cleanup : exits_resumed (cleanup env).
Proof.
  intros w status H. exfalso.
  destruct (Z.eq_dec (tracer w) 0) as [Ht|Ht].
  - rewrite (cleanup_no_tracer env w Ht) in H. discriminate.
  - rewrite (cleanup_tracer env w Ht) in H. cbn [fst] in H.
    destruct (os_kill env (ticks w) (tracer w) SIGCONT =? 0); discriminate.
Qed.

End Exits.

Create HintDb exits.

Ltac exits_go :=
  repeat first
    [ assumption
    | apply exits_ret
    | apply exits_abort
    | apply exits_hang
    | apply exits_fuel
    | apply exits_ask
    | apply exits_emit
    | apply exits_assert
    | apply exits_load
    | apply exits_store
    | apply exits_atexit
    | apply exits_exit
    | apply exits_cleanup
    | solve [auto with exits nocore]
    | apply exits_bind; [| intros ?]
    | match goal with
      | |- exits_resumed (if ?b then _ else _) => destruct b
      | |- exits_resumed (match ?r with (_, _) => _ end) => destruct r
      | |- exits_resumed (match ?r with Some _ => _ | None => _ end) => destruct r
      | |- exits_resumed (match ?r with inl _ => _ | inr _ => _ end) => destruct r
      end ].

Section ProgramExits.

Variable env : environment.

Lemma exits_timed_mutex_lock_loop fuel m start :
  exits_resumed (timed_mutex_lock_loop env fuel m start).
Proof.
  induction fuel as [|fuel IH]; cbn [timed_mutex_lock_loop];
    unfold pthread_mutex_trylock, clock_gettime, fprintf; exits_go.
Qed.

Lemma exits_timed_mutex_lock fuel m : exits_resumed (timed_mutex_lock env fuel m).
Proof.
  pose proof exits_timed_mutex_lock_loop.
  unfold timed_mutex_lock, clock_gettime. exits_go.
Qed.

Lemma exits_proc_string_loop turns f data filename line :
  exits_resumed (proc_string_loop env turns f data filename line).
Proof.
  revert data; induction turns as [|turns IH]; intros data;
    cbn [proc_string_loop]; unfold fprintf; exits_go.
Qed.

Lemma exits_proc_string filename line : exits_resumed (proc_string env filename line).
Proof.
  pose proof exits_proc_string_loop.
  unfold proc_string, fprintf. exits_go.
Qed.

Lemma exits_proc_ulong filename line : exits_resumed (proc_ulong env filename line).
Proof.
  pose proof exits_proc_string.
  unfold proc_ulong, fprintf. exits_go.
Qed.

Lemma exits_state_wait_loop fuel process wanted filename start :
  exits_resumed (state_wait_loop env fuel process wanted filename start).
Proof.
  pose proof exits_proc_string.
  induction fuel as [|fuel IH]; cbn [state_wait_loop];
    unfold clock_gettime, sched_yield, fprintf; exits_go.
Qed.

Lemma exits_state_wait fuel process wanted :
  exits_resumed (state_wait env fuel process wanted).
Proof.
  pose proof exits_state_wait_loop.
  unfold state_wait, clock_gettime. exits_go.
Qed.

Lemma exits_main fuel argv : exits_resumed (main env fuel argv).
Proof.
  pose proof exits_timed_mutex_lock.
  pose proof exits_proc_ulong.
  pose proof exits_state_wait.
  unfold main, main_args, main_start, main_tracer, main_rendezvous, main_finish,
    pthread_mutex_unlock, pthread_create, pthread_join, pthread_cond_wait, kill,
    thread1_tid, thread2_tid, printf, fprintf.
  exits_go.
Qed.

Lemma exits_run fuel argv : exits_resumed (run env fuel argv).
Proof. pose proof exits_main. unfold run. exits_go. Qed.

End ProgramExits.

Section Registered.

Variable env : environment.

Lemma registered_tick (w : world) : registered w -> registered (ticked w).
Proof. intros H. exact H. Qed.

Lemma registered_event (e : event) : keeps registered (emit e).
Proof. intros w H. exact H. Qed.

Lemma registered_passive (w : world) (e : event) :
  passive e -> registered w -> registered (logged e w).
Proof. intros _ H. exact H. Qed.

Lemma registered_cleanup : keeps registered (cleanup env).
Proof. intros w H. unfold registered. rewrite (proj2 (cleanup_clears env w)). exact H. Qed.

Lemma registered_exit A status (w : world) :
  registered w -> registered (snd (@exit env A status w)).
Proof.
  intros H. rewrite exit_world. destruct (atexit_cleanup w); [|exact H].
  apply registered_cleanup, H.
Qed.

Lemma registered_rendezvous fuel (w : world) :
  registered (snd (main_rendezvous env fuel w)).
Proof.
  pose proof registered_tick as Inv_tick.
  pose proof registered_passive as Inv_passive.
  pose proof registered_exit as Inv_exit.
  pose proof registered_event as Hev.
  assert (Hsw : forall fuel t wanted, keeps registered (state_wait env fuel t wanted)).
  { intros. apply keeps_state_wait; assumption. }
  assert (Htl : forall fuel m, keeps registered (timed_mutex_lock env fuel m)).
  { intros. apply keeps_timed_mutex_lock; assumption. }
  unfold main_rendezvous. rewrite bind_atexit.
  assert (H0 : registered (snd (atexit w))) by reflexivity.
  revert H0. generalize (snd (atexit w)). intros w1 H1.
  match goal with |- registered (snd (?m w1)) => change (keeps registered m) in (type of H1) || idtac end.
  revert w1 H1.
  match goal with |- forall w1, registered w1 -> registered (snd (?m w1)) =>
    change (keeps registered m) end.
  unfold printf, kill, thread1_tid, thread2_tid. keeps_go.
Qed.

Lemma registered_finish : keeps registered (main_finish env).
Proof.
  pose proof registered_tick as Inv_tick.
  pose proof registered_passive as Inv_passive.
  pose proof registered_exit as Inv_exit.
  pose proof registered_event as Hev.
  pose proof registered_cleanup as Hcl.
  unfold main_finish, printf. keeps_go.
Qed.

(** Signals are sent only once the exit handler is registered. *)
Lemma run_registered fuel argv :
  let w' := snd (run env fuel argv initial_world) in
  kills (trace w') = [] \/ registered w'.
Proof.
  assert (Hmain : forall r, r = main env fuel argv initial_world ->
            kills (trace (snd r)) = [] \/
            (registered (snd r))).
  { intros r Hr. unfold main in Hr.
    assert (Hu0 : unregistered initial_world) by (split; reflexivity).
    unfold bind at 1 in Hr.
    destruct (main_args_run argv initial_world) as [H0|[H0|H0]]; rewrite H0 in Hr;
      [| |subst r; left; reflexivity].
    all: cbv beta iota in Hr.
    all: pose proof (unregistered_main_start env fuel initial_world Hu0) as Hu1.
    all: unfold bind at 1 in Hr.
    all: destruct (main_start env fuel initial_world) as [[[]|h] w1];
           [|subst r; left; apply Hu1].
    all: cbn [snd] in Hu1.
    - pose proof (unregistered_main_tracer env 1 w1 Hu1) as Hu2.
      unfold bind at 1 in Hr.
      destruct (main_tracer env 1 w1) as [[[]|h] w2]; [|subst r; left; apply Hu2].
      pose proof (registered_rendezvous fuel w2) as H3.
      unfold bind at 1 in Hr.
      destruct (main_rendezvous env fuel w2) as [[[]|h] w3];
        [|subst r; right; exact H3].
      subst r. right. apply registered_finish, H3.
    - pose proof (unregistered_main_tracer env 0 w1 Hu1) as Hu2.
      unfold bind at 1 in Hr.
      destruct (main_tracer env 0 w1) as [[[]|h] w2]; [|subst r; left; apply Hu2].
      pose proof (registered_rendezvous fuel w2) as H3.
      unfold bind at 1 in Hr.
      destruct (main_rendezvous env fuel w2) as [[[]|h] w3];
        [|subst r; right; exact H3].
      subst r. right. apply registered_finish, H3. }
  intros w'. subst w'. unfold run, bind.
  specialize (Hmain _ eq_refl).
  destruct (main env fuel argv initial_world) as [[status|h] w1]; cbn [snd] in *;
    [|exact Hmain].
  destruct Hmain as [Hk|Hreg].
  - rewrite exit_world. destruct (atexit_cleanup w1) eqn:Hf; [|left; exact Hk].
    right. apply (registered_cleanup w1 Hf).
  - right. apply registered_exit, Hreg.
Qed.

Lemma run_protocol fuel argv :
  let w' := snd (run env fuel argv initial_world) in
  kills (trace w') = [] \/ protocol true true true (os_getppid env) w'.
Proof.
  intros w'. subst w'.
  pose proof (main_protocol env fuel argv true true true
                (fun _ => eq_refl) (fun _ => eq_refl) (fun _ => eq_refl)) as H.
  cbv zeta in H. unfold run, bind.
  destruct (main env fuel argv initial_world) as [[status|h] w1]; cbn [fst snd] in *.
  - destruct H as [_ H]. right.
    apply protocol_exit; [auto|]. apply protocol_weaken, H.
  - exact H.
Qed.

End Registered.

(** The main thread by itself: when it ends through [exit] -- by
    returning from [main] or on any of its fatal diagnostics -- it has
    sent no signal, or SIGSTOP and then SIGCONT to its parent. *)
Lemma run_exit_resumed (env : environment) (fuel : nat)
  (argv : list (list ascii)) (status : Z) :
  fst (run env fuel argv initial_world) = Stop (Exit status) ->
  let tr := trace (snd (run env fuel argv initial_world)) in
  kills tr = [] \/
  kills tr = [EvKill (os_getppid env) SIGSTOP; EvKill (os_getppid env) SIGCONT].
Proof.
  intros Hexit tr. subst tr.
  destruct (run_protocol env fuel argv) as [Hk | [Hp | [Hp | Hp]]].
  - left. exact Hk.
  - left. apply Hp.
  - exfalso. destruct Hp as (_ & Hk & Ht & Hp).
    destruct (run_registered env fuel argv) as [Hn | Hreg].
    + rewrite Hk in Hn. discriminate.
    + pose proof (exits_run env fuel argv initial_world status Hexit Hreg) as H0.
      congruence.
  - right. apply Hp.
Qed.

(** ** The main thread, call by call *)


Lemma bind_cong {A B} (m : M A) (k1 k2 : A -> M B) (w : world) :
  (forall a w', k1 a w' = k2 a w') -> bind m k1 w = bind m k2 w.
Proof. intros H. unfold bind. destruct (m w) as [[a|h] w']; [apply H | reflexivity]. Qed.

Lemma bind_both {A B} (m1 m2 : M A) (k1 k2 : A -> M B) (w : world) :
  (forall w, m1 w = m2 w) -> (forall a w', k1 a w' = k2 a w') ->
  bind m1 k1 w = bind m2 k2 w.
Proof.
  intros Hm H. unfold bind. rewrite Hm.
  destruct (m2 w) as [[a|h] w']; [apply H | reflexivity].
Qed.

Lemma bind_ret_r {A} (m : M A) (w : world) : bind m (fun x => ret x) w = m w.
Proof. unfold bind, ret. destruct (m w) as [[a|h] w']; reflexivity. Qed.

Lemma bind_ret_l {A B} (a : A) (k : A -> M B) (w : world) : bind (ret a) k w = k a w.
Proof. reflexivity. Qed.

Lemma sequential_cbind {A B} (c : code A) (f : A -> code B) (w : world) :
  sequential (cbind c f) w = bind (sequential c) (fun a => sequential (f a)) w.
Proof.
  revert w. induction c as [a | X m k IH]; intros w; [reflexivity|].
  cbn [cbind sequential]. rewrite bind_assoc. apply bind_cong. intros x w'. apply IH.
Qed.

Lemma sequential_step {X} (m : M X) (w : world) : sequential (step m) w = m w.
Proof. apply bind_ret_r. Qed.

Section SeqMain.
Variable env : environment.
Variable fuel : nat.

Ltac same :=
  repeat first
    [ reflexivity
    | apply bind_ret_r
    | progress cbn [cbind step sequential]
    | apply bind_cong; intros ? ?
    | rewrite bind_assoc
    | rewrite bind_ret_l
    | match goal with
      | |- sequential (cbind (if ?b then _ else _) _) _ = _ => destruct b
      | |- sequential (if ?b then _ else _) _ = _ => destruct b
      end
    | rewrite sequential_cbind ].

Lemma sequential_main_start (w : world) :
  sequential (main_start_code env fuel) w = main_start env fuel w.
Proof. unfold main_start_code, main_start. cbn [cbind step sequential]. same. Qed.

Lemma sequential_main_tracer standalone (w : world) :
  sequential (main_tracer_code env standalone) w = main_tracer env standalone w.
Proof.
  unfold main_tracer_code, main_tracer. destruct (standalone =? 0); [|reflexivity].
  cbn [cbind step sequential]. same; cbn [cbind step sequential]; same.
Qed.

Lemma sequential_main_rendezvous (w : world) :
  sequential (main_rendezvous_code env fuel) w = main_rendezvous env fuel w.
Proof. unfold main_rendezvous_code, main_rendezvous. same. Qed.

Lemma sequential_cleanup (w : world) :
  sequential (cleanup_code env) w = cleanup env w.
Proof. unfold cleanup_code, cleanup. same. Qed.

Lemma sequential_main_finish (w : world) :
  sequential (main_finish_code env) w = main_finish env w.
Proof.
  unfold main_finish_code, main_finish. rewrite sequential_cbind.
  apply bind_both; [apply sequential_cleanup|]. intros [] w1. same.
Qed.

Lemma sequential_main argv (w : world) :
  sequential (main_code env fuel argv) w = main env fuel argv w.
Proof.
  unfold main_code, main. cbn [cbind step sequential]. apply bind_cong. intros standalone w1.
  rewrite sequential_cbind. apply bind_both; [apply sequential_main_start|]. intros [] w2.
  rewrite sequential_cbind. apply bind_both; [apply sequential_main_tracer|]. intros [] w3.
  rewrite sequential_cbind. apply bind_both; [apply sequential_main_rendezvous|]. intros [] w4.
  apply sequential_main_finish.
Qed.

Lemma sequential_run argv (w : world) :
  sequential (run_code env fuel argv) w = run env fuel argv w.
Proof.
  unfold run_code, run. rewrite sequential_cbind.
  apply bind_both; [apply sequential_main|]. intros status w1.
  apply sequential_step.
Qed.

End SeqMain.




Lemma steps_extends {A} (m : M A) keep :
  steps (fun _ => True) keep m -> forall w, exists d, trace (snd (m w)) = trace w ++ d.
Proof. intros H w. destruct (H w) as (_ & (d & Hd & _) & _). exists d. exact Hd. Qed.

Lemma grows_step {X} (m : M X) :
  (forall w, exists d, trace (snd (m w)) = trace w ++ d) -> grows (step m).
Proof. intros H. split; [exact H | intros x; exact I]. Qed.

Lemma grows_cbind {A B} (c : code A) (f : A -> code B) :
  grows c -> (forall a, grows (f a)) -> grows (cbind c f).
Proof.
  intros Hc Hf. induction c as [a | X m k IH]; cbn [cbind grows] in *; [apply Hf|].
  destruct Hc as [Hm Hk]. split; [exact Hm|]. intros x. apply IH, Hk.
Qed.

Lemma sequential_grows {A} (c : code A) :
  grows c -> forall w, exists d, trace (snd (sequential c w)) = trace w ++ d.
Proof.
  induction c as [a | X m k IH]; intros Hg w; cbn [sequential].
  - exists []. rewrite app_nil_r. reflexivity.
  - destruct Hg as [Hm Hk]. unfold bind. destruct (Hm w) as (d & Hd).
    destruct (m w) as [[x|h] w1]; cbn [snd] in *.
    + destruct (IH x (Hk x) w1) as (d' & Hd'). exists (d ++ d').
      rewrite Hd', Hd, app_assoc. reflexivity.
    + exists d. exact Hd.
Qed.

Section GrowsMain.
Variable env : environment.
Variable fuel : nat.

Let any : event -> Prop := fun _ => True.
Let any_quiet : forall e, quiet e -> any e := fun _ _ => I.

Ltac grows_go :=
  repeat first
    [ exact I
    | apply grows_cbind; [| intros ?]
    | match goal with
      | |- grows (if ?b then _ else _) => destruct b
      end
    | apply grows_step; apply (steps_extends _ false);
      first [ eapply steps_timed_mutex_lock | eapply steps_create | eapply steps_assert
            | eapply steps_proc_ulong | eapply steps_store | eapply steps_load
            | eapply steps_emit | eapply steps_exit | eapply steps_atexit
            | eapply steps_kill | eapply steps_state_wait | eapply steps_unlock
            | eapply steps_ask | eapply steps_cond_wait | eapply steps_join ];
      first [ exact any_quiet | exact I ] ].

Lemma grows_main_start : grows (main_start_code env fuel).
Proof. unfold main_start_code. grows_go. Qed.

Lemma grows_main_tracer standalone : grows (main_tracer_code env standalone).
Proof. unfold main_tracer_code, fprintf. grows_go. Qed.

Lemma grows_main_rendezvous : grows (main_rendezvous_code env fuel).
Proof. unfold main_rendezvous_code, printf, thread1_tid, thread2_tid. grows_go. Qed.

Lemma grows_cleanup : grows (cleanup_code env).
Proof. unfold cleanup_code, printf. grows_go. Qed.

Lemma grows_main_finish : grows (main_finish_code env).
Proof. unfold main_finish_code, printf. pose proof grows_cleanup. grows_go. Qed.

End GrowsMain.

(** ** What a worker leaves behind *)




Section Discreet.

Variable env : environment.
Variable v : world.

Lemma discreet_tick (w : world) : discreet v w -> discreet v (ticked w).
Proof. intros H. exact H. Qed.

Lemma discreet_silent (w : world) (e : event) :
  is_kill e = false -> discreet v w -> discreet v (logged e w).
Proof.
  intros He H Hno. unfold logged, emit in *. cbn [snd trace tracer atexit_cleanup] in *.
  destruct H as (Ht & Ha & Hk).
  { intros x Hx. apply (Hno x). apply in_or_app. left. exact Hx. }
  rewrite kills_app, Hk. cbn [kills filter]. rewrite He. auto.
Qed.

Lemma discreet_passive (w : world) (e : event) :
  passive e -> discreet v w -> discreet v (logged e w).
Proof. intros He. apply discreet_silent. destruct e; try reflexivity; destruct He. Qed.

Lemma discreet_cleanup : keeps (discreet v) (cleanup env).
Proof.
  intros w H. destruct (Z.eq_dec (tracer w) 0) as [Ht|Ht].
  - rewrite (cleanup_no_tracer env w Ht). cbn [snd].
    apply discreet_silent; [reflexivity | exact H].
  - rewrite (cleanup_tracer env w Ht). cbn [snd]. intros Hno. exfalso.
    apply (Hno 0). cbn [trace]. apply in_or_app. right. right. left. reflexivity.
Qed.

Lemma discreet_exit A status (w : world) :
  discreet v w -> discreet v (snd (@exit env A status w)).
Proof.
  intros H. rewrite exit_world. destruct (atexit_cleanup w); [|exact H].
  apply discreet_cleanup, H.
Qed.

Lemma discreet_lock fuel m : keeps (discreet v) (timed_mutex_lock env fuel m).
Proof.
  apply keeps_timed_mutex_lock;
    [apply discreet_tick | apply discreet_passive | apply discreet_exit].
Qed.

Lemma discreet_unlock m : keeps (discreet v) (pthread_mutex_unlock env m).
Proof.
  apply keeps_unlock; [apply discreet_tick |].
  intros w. apply discreet_silent. reflexivity.
Qed.

End Discreet.

Section WorkerKeeps.

Variable Inv : world -> Prop.

Lemma wkeeps_ret {A} (a : A) : wkeeps Inv (wret a).
Proof. intros ww H. exact H. Qed.

Lemma wkeeps_bind {A B} (m : W A) (k : A -> W B) :
  wkeeps Inv m -> (forall a, wkeeps Inv (k a)) -> wkeeps Inv (wbind m k).
Proof.
  intros Hm Hk ww H. unfold wbind. specialize (Hm ww H).
  destruct (m ww) as [[a|h] ww1]; cbn [snd] in *; [apply (Hk a ww1 Hm) | exact Hm].
Qed.

Lemma wkeeps_note (e : worker_event) : wkeeps Inv (note e).
Proof. intros ww H. exact H. Qed.

Lemma wkeeps_lift {A} (m : M A) : keeps Inv m -> wkeeps Inv (lift m).
Proof.
  intros Hm ww H. unfold lift. specialize (Hm (base ww) H).
  destruct (m (base ww)) as [o w']. exact Hm.
Qed.

Lemma wkeeps_assert (b : bool) : wkeeps Inv (wassert b).
Proof. destruct b; intros ww H; exact H. Qed.

End WorkerKeeps.

Section WorkerDiscreet.

Variable wenv : thread -> environment.
Variable os_cond_signal : nat -> cond -> Z.
Variable fuel : nat.

Lemma discreet_worker (t : thread) (v : world) :
  wkeeps (discreet v) (worker_func wenv os_cond_signal fuel t).
Proof.
  assert (Hs : forall c, wkeeps (discreet v) (pthread_cond_signal os_cond_signal c)).
  { intros c. unfold pthread_cond_signal. apply wkeeps_bind.
    - apply wkeeps_lift. intros w H. exact H.
    - intros i. destruct (i =? 0); [|apply wkeeps_ret].
      apply wkeeps_bind; [apply wkeeps_note | intros; apply wkeeps_ret]. }
  destruct t; unfold worker_func, thread1_func, thread2_func;
    repeat first
      [ apply wkeeps_ret | apply wkeeps_note | apply wkeeps_assert | apply Hs
      | apply wkeeps_lift; first [apply discreet_lock | apply discreet_unlock]
      | apply wkeeps_bind; [| intros ?] ].
Qed.

(** A worker that has not stored to [tracer] has left the process as it
    found it and has sent no signal. *)
Lemma worker_leaves (t : thread) (w : world) :
  let wb := base (snd (worker_func wenv os_cond_signal fuel t (new_worker (worker_view w)))) in
  (forall x, ~ In (EvTracer x) (trace wb)) ->
  main_view w wb = w /\ kills (trace wb) = [].
Proof.
  intros wb Hno.
  assert (H0 : discreet (worker_view w) (base (new_worker (worker_view w)))).
  { intros _. repeat split. }
  destruct (discreet_worker t (worker_view w) _ H0 Hno) as (Ht & Ha & Hk).
  split; [|exact Hk]. unfold main_view. subst wb. rewrite Ht, Ha.
  destruct w; reflexivity.
Qed.

End WorkerDiscreet.

(** ** The process and the main thread by itself *)


Lemma by_main_app (a b : list (actor * event)) : by_main (a ++ b) = by_main a ++ by_main b.
Proof. apply flat_map_app. Qed.

Lemma by_main_main (d : list event) : by_main (map (pair Main) d) = d.
Proof. induction d as [|e d IH]; [reflexivity|]. simpl. rewrite IH. reflexivity. Qed.

Lemma events_app (a b : list (actor * event)) : events (a ++ b) = events a ++ events b.
Proof. apply map_app. Qed.

Lemma events_tagged (who : actor) (d : list event) : events (map (pair who) d) = d.
Proof. unfold events. rewrite map_map. apply map_id. Qed.

Lemma stores_main (d : list event) : existsb stores (map (pair Main) d) = false.
Proof. induction d as [|e d IH]; [reflexivity|]. exact IH. Qed.

Lemma stores_worker (t : thread) (d : list event) :
  existsb stores (map (pair (Worker t)) d) = false ->
  forall x, ~ In (EvTracer x) d.
Proof.
  induction d as [|e d IH]; intros H x; [intros []|].
  simpl in H. apply orb_false_iff in H. destruct H as [He Hd].
  intros [->|Hin]; [discriminate | exact (IH Hd x Hin)].
Qed.

Lemma before_store_app (a b : list (actor * event)) :
  existsb stores a = false -> before_store (a ++ b) = a ++ before_store b.
Proof.
  induction a as [|x a IH]; intros H; [reflexivity|].
  simpl in H. apply orb_false_iff in H. destruct H as [Hx Ha].
  simpl. rewrite Hx, (IH Ha). reflexivity.
Qed.

Lemma before_store_cut (a b : list (actor * event)) :
  existsb stores a = true -> before_store (a ++ b) = before_store a.
Proof.
  induction a as [|x a IH]; intros H; [discriminate|].
  simpl in *. destruct (stores x); [reflexivity|]. rewrite (IH H). reflexivity.
Qed.

Lemma before_store_all (a : list (actor * event)) :
  existsb stores a = false -> before_store a = a.
Proof.
  intros H. rewrite <- (app_nil_r a) at 1. rewrite (before_store_app a [] H).
  apply app_nil_r.
Qed.

Lemma undisturbed_stores (h : list (actor * event)) :
  undisturbed h <-> existsb stores h = false.
Proof.
  split.
  - intros H. destruct (existsb stores h) eqn:E; [|reflexivity].
    apply existsb_exists in E. destruct E as ([[|t] e] & Hin & Hs); [discriminate|].
    destruct e; try discriminate. destruct (H t v Hin).
  - intros H t v Hin.
    assert (E : existsb stores h = true).
    { apply existsb_exists. exists (Worker t, EvTracer v). split; [exact Hin | reflexivity]. }
    congruence.
Qed.


Lemma of_workers_tagged t d : of_workers (map (pair (Worker t)) d).
Proof. apply Forall_forall. intros x Hx. apply in_map_iff in Hx.
  destruct Hx as (e & <- & _). discriminate. Qed.

Lemma of_workers_before h : of_workers h -> of_workers (before_store h).
Proof.
  induction h as [|x h IH]; intros H; [constructor|].
  inversion H as [|? ? Hx Hh]; subst. simpl.
  destruct (stores x); [constructor|]. constructor; [exact Hx | apply IH, Hh].
Qed.

Lemma of_workers_by_main h : of_workers h -> by_main h = [].
Proof.
  induction h as [|[[|t] e] h IH]; intros H; [reflexivity| |];
    inversion H as [|? ? Hx Hh]; subst.
  - destruct Hx. reflexivity.
  - apply IH, Hh.
Qed.

Section Transfer.

Variable env : environment.
Variable wenv : thread -> environment.
Variable os_cond_signal : nat -> cond -> Z.
Variable fuel : nat.

Lemma worker_run (ps : pstate) (t : thread) :
  let ps1 := worker_runs wenv os_cond_signal fuel ps t in
  exists Wd,
    history ps1 = history ps ++ Wd /\ of_workers Wd /\
    (existsb stores Wd = false ->
     main_world ps1 = main_world ps /\ kills (events Wd) = []).
Proof.
  unfold worker_runs.
  destruct (created t (main_world ps) && negb (existsb (thread_eqb t) (ended ps))).
  - cbn [history main_world].
    set (wb := base (snd (worker_func wenv os_cond_signal fuel t
                             (new_worker (worker_view (main_world ps)))))).
    exists (map (pair (Worker t)) (trace wb)).
    split; [reflexivity|]. split; [apply of_workers_tagged|].
    intros Hs. rewrite events_tagged.
    apply (worker_leaves wenv os_cond_signal fuel t (main_world ps)
             (stores_worker t _ Hs)).
  - exists []. rewrite app_nil_r. repeat split; auto. constructor.
Qed.

Lemma workers_run (ts : list thread) : forall ps,
  let ps1 := fold_left (worker_runs wenv os_cond_signal fuel) ts ps in
  exists Wd,
    history ps1 = history ps ++ Wd /\ of_workers Wd /\
    (existsb stores Wd = false ->
     main_world ps1 = main_world ps /\ kills (events Wd) = []).
Proof.
  induction ts as [|t ts IH]; intros ps; cbn [fold_left].
  - exists []. rewrite app_nil_r. repeat split; auto. constructor.
  - destruct (worker_run ps t) as (W1 & Hh1 & Hw1 & Hq1). cbv zeta in Hh1, Hq1.
    destruct (IH (worker_runs wenv os_cond_signal fuel ps t)) as (Wd & Hh & Hw & Hq).
    cbv zeta in Hh, Hq. exists (W1 ++ Wd).
    split; [rewrite Hh, Hh1, app_assoc; reflexivity|].
    split; [apply Forall_app; split; assumption|].
    intros Hs. rewrite existsb_app in Hs. apply orb_false_iff in Hs.
    destruct Hs as [Hs1 Hs2].
    destruct (Hq1 Hs1) as [Hm1 Hk1]. destruct (Hq Hs2) as [Hm Hk].
    split; [rewrite Hm; exact Hm1|].
    rewrite events_app, kills_app, Hk1, Hk. reflexivity.
Qed.

Lemma main_moves_history (ps : pstate) (w' : world) (d : list event) :
  trace w' = trace (main_world ps) ++ d ->
  history (main_moves ps w') = history ps ++ map (pair Main) d.
Proof.
  intros H. unfold main_moves. cbn [history]. rewrite H, skipn_grown. reflexivity.
Qed.

(** Up to the first store of a worker the main thread does what it does
    by itself; with no such store the process is the main thread's run. *)
Lemma interleave_sequential {A} (c : code A) : grows c ->
  forall sched ps,
    let r := interleave wenv os_cond_signal fuel c sched ps in
    let s := sequential c (main_world ps) in
    exists N,
      history (snd r) = history ps ++ N /\
      (exists d, trace (snd s)
                 = trace (main_world ps) ++ by_main (before_store N) ++ d) /\
      (existsb stores N = false ->
       fst r = fst s /\ main_world (snd r) = snd s /\
       trace (snd s) = trace (main_world ps) ++ by_main N /\
       kills (events N) = kills (by_main N)).
Proof.
  induction c as [a | X m k IH]; intros Hg sched ps; cbn [interleave sequential].
  - exists []. cbn [fst snd ret]. unfold by_main, events, kills. cbn [before_store flat_map map filter].
    rewrite !app_nil_r. repeat split; auto. exists []. rewrite app_nil_r. reflexivity.
  - destruct Hg as [Hm Hk].
    destruct (workers_run (hd [] sched) ps) as (Wd & Hh & Hw & Hq). cbv zeta in Hh, Hq.
    set (ps1 := fold_left (worker_runs wenv os_cond_signal fuel) (hd [] sched) ps) in *.
    destruct (existsb stores Wd) eqn:Es.
    + (* a worker has stored before this call *)
      assert (Hn : exists N', history (snd
                 (let (o, w') := m (main_world ps1) in
                  match o with
                  | Ret x => interleave wenv os_cond_signal fuel (k x) (tl sched)
                               (main_moves ps1 w')
                  | Stop h => (Stop h, main_moves ps1 w')
                  end)) = history ps1 ++ N').
      { destruct (Hm (main_world ps1)) as (d & Hd).
        destruct (m (main_world ps1)) as [[x|h] w']; cbn [snd] in Hd.
        - destruct (IH x (Hk x) (tl sched) (main_moves ps1 w')) as (N' & HN' & _).
          cbv zeta in HN'. rewrite (main_moves_history ps1 w' d Hd) in HN'.
          exists (map (pair Main) d ++ N'). rewrite HN', app_assoc. reflexivity.
        - exists (map (pair Main) d). cbn [snd]. apply (main_moves_history ps1 w' d Hd). }
      destruct Hn as (N' & HN'). exists (Wd ++ N').
      split; [rewrite HN', Hh, app_assoc; reflexivity|]. split.
      * rewrite (before_store_cut Wd N' Es).
        rewrite (of_workers_by_main _ (of_workers_before _ Hw)). cbn [app].
        apply (sequential_grows (Call m k)). split; assumption.
      * rewrite existsb_app, Es. discriminate.
    + destruct (Hq eq_refl) as [Hmw Hkw]. rewrite Hmw.
      destruct (Hm (main_world ps)) as (d & Hd).
      unfold bind.
      pose proof (main_moves_history ps1 (snd (m (main_world ps))) d) as Hmv.
      rewrite Hmw in Hmv. specialize (Hmv Hd).
      destruct (m (main_world ps)) as [[x|h] w'] eqn:Em; cbn [snd] in Hd, Hmv.
      * destruct (IH x (Hk x) (tl sched) (main_moves ps1 w')) as (N' & HN' & (d' & Hp) & Hall).
        cbv zeta in HN', Hp, Hall.
        change (main_world (main_moves ps1 w')) with w' in *.
        exists (Wd ++ map (pair Main) d ++ N').
        split; [rewrite HN', Hmv, Hh, <- !app_assoc; reflexivity|]. split.
        -- exists d'. rewrite Hp, Hd.
           rewrite (before_store_app Wd _ Es), (before_store_app _ N' (stores_main d)).
           rewrite !by_main_app, (of_workers_by_main _ Hw), by_main_main.
           cbn [app]. rewrite <- !app_assoc. reflexivity.
        -- intros Hs. rewrite !existsb_app, Es, stores_main in Hs. cbn [orb] in Hs.
           destruct (Hall Hs) as (Ho & Hw' & Ht & Hkk).
           split; [exact Ho|]. split; [exact Hw'|]. split.
           ++ rewrite Ht, Hd, !by_main_app, (of_workers_by_main _ Hw), by_main_main.
              cbn [app]. rewrite <- app_assoc. reflexivity.
           ++ rewrite !events_app, !by_main_app, !kills_app, Hkw, events_tagged,
                (of_workers_by_main _ Hw), by_main_main, Hkk. reflexivity.
      * exists (Wd ++ map (pair Main) d). cbn [fst snd].
        split; [rewrite Hmv, Hh, <- app_assoc; reflexivity|]. split.
        -- exists []. rewrite Hd, app_nil_r.
           rewrite (before_store_app Wd _ Es), (before_store_all _ (stores_main d)).
           rewrite by_main_app, (of_workers_by_main _ Hw), by_main_main. reflexivity.
        -- intros _. split; [reflexivity|]. split; [reflexivity|]. split.
           ++ rewrite Hd, by_main_app, (of_workers_by_main _ Hw), by_main_main. reflexivity.
           ++ rewrite events_app, by_main_app, kills_app, Hkw, events_tagged,
                (of_workers_by_main _ Hw), by_main_main. reflexivity.
Qed.

End Transfer.

(** ** The statements about the process *)

Lemma front_split {X} (front d pre post : list X) (x : X) :
  front ++ d = pre ++ x :: post -> ~ In x d ->
  exists post', front = pre ++ x :: post'.
Proof.
  revert pre. induction front as [|y front IH]; intros pre H Hd.
  - exfalso. apply Hd. simpl in H. rewrite H. apply in_or_app. right. left. reflexivity.
  - destruct pre as [|z pre]; simpl in H.
    + injection H as -> _. exists front. reflexivity.
    + injection H as -> H. destruct (IH pre H Hd) as (post' & ->).
      exists post'. reflexivity.
Qed.

Lemma by_main_split (h : list (actor * event)) (a r : list event) (x : event) :
  by_main h = a ++ x :: r ->
  exists h1 h2, h = h1 ++ (Main, x) :: h2 /\ by_main h1 = a /\ by_main h2 = r.
Proof.
  revert a. induction h as [|[[|t] e] h IH]; intros a H.
  - destruct a; discriminate.
  - change (e :: by_main h = a ++ x :: r) in H. destruct a as [|y a]; simpl in H.
    + injection H as -> H. exists [], h. auto.
    + injection H as -> H. destruct (IH a H) as (h1 & h2 & -> & H1 & H2).
      exists ((Main, y) :: h1), h2. split; [reflexivity|].
      split; [|exact H2]. change (y :: by_main h1 = y :: a). rewrite H1. reflexivity.
  - change (by_main h = a ++ x :: r) in H.
    destruct (IH a H) as (h1 & h2 & -> & H1 & H2).
    exists ((Worker t, e) :: h1), h2. auto.
Qed.

Lemma before_store_main (pre post : list (actor * event)) (e : event) :
  undisturbed pre ->
  by_main (before_store (pre ++ (Main, e) :: post))
  = by_main pre ++ e :: by_main (before_store post).
Proof.
  intros H. apply undisturbed_stores in H.
  rewrite (before_store_app pre _ H), by_main_app. reflexivity.
Qed.

Section ProcessRuns.

Variable env : environment.
Variable wenv : thread -> environment.
Variable os_cond_signal : nat -> cond -> Z.
Variable fuel : nat.

Lemma grows_main argv : grows (main_code env fuel argv).
Proof.
  unfold main_code. apply grows_cbind.
  - apply grows_step. intros w. exists []. rewrite app_nil_r.
    unfold main_args.
    destruct ((Z.of_nat (length argv) =? 2) && strcmp_eq (nth 1 argv []) (lit "-s"));
      [reflexivity|].
    unfold bind. destruct (Z.of_nat (length argv) =? 1); reflexivity.
  - intros standalone. apply grows_cbind; [apply grows_main_start|]. intros _.
    apply grows_cbind; [apply grows_main_tracer|]. intros _.
    apply grows_cbind; [apply grows_main_rendezvous|]. intros _.
    apply grows_main_finish.
Qed.

Lemma grows_run argv : grows (run_code env fuel argv).
Proof.
  unfold run_code. apply grows_cbind; [apply grows_main|]. intros status.
  apply grows_step. apply (steps_extends _ false).
  apply (steps_exit env (fun _ => True) (fun _ _ => I)).
Qed.

(** Up to the first store of a worker the main thread does in the
    process what it does by itself; with no such store, the process ends
    as the main thread by itself and sends the same signals. *)
Lemma process_sequential argv sched :
  let h := history (snd (process env wenv os_cond_signal fuel argv sched)) in
  let s := run env fuel argv initial_world in
  (exists d, trace (snd s) = by_main (before_store h) ++ d) /\
  (undisturbed h ->
   fst (process env wenv os_cond_signal fuel argv sched) = fst s /\
   trace (snd s) = by_main h /\
   kills (events h) = kills (trace (snd s))).
Proof.
  intros h s. subst h s. unfold process.
  destruct (interleave_sequential wenv os_cond_signal fuel (run_code env fuel argv)
              (grows_run argv) sched initial_pstate) as (N & HN & Hp & Hall).
  cbv zeta in HN, Hp, Hall.
  change (main_world initial_pstate) with initial_world in *.
  change (history initial_pstate) with (@nil (actor * event)) in HN.
  change (trace initial_world) with (@nil event) in *. cbn [app] in HN, Hp, Hall.
  rewrite (sequential_run env fuel argv initial_world) in *.
  rewrite HN. split; [exact Hp|].
  intros Hu. apply undisturbed_stores in Hu.
  destruct (Hall Hu) as (Ho & _ & Ht & Hk).
  split; [exact Ho|]. split; [exact Ht|]. rewrite Hk, Ht. reflexivity.
Qed.

(** What [exit] adds when [main] has returned. *)
Lemma run_trace argv :
  exists d, trace (snd (run env fuel argv initial_world))
            = trace (snd (main env fuel argv initial_world)) ++ d /\ Forall fatal d.
Proof.
  unfold run, bind.
  destruct (main env fuel argv initial_world) as [[status|h] w1]; cbn [snd].
  - rewrite exit_world. destruct (atexit_cleanup w1).
    + apply (cleanup_fatal env w1).
    + exists []. rewrite app_nil_r. split; [reflexivity | constructor].
  - exists []. rewrite app_nil_r. split; [reflexivity | constructor].
Qed.

Lemma fatal_no_unlock (d : list event) (m : mutex) :
  Forall fatal d -> ~ In (EvUnlock m) d.
Proof.
  intros H Hin. rewrite Forall_forall in H. exact (H _ Hin).
Qed.

End ProcessRuns.




(** X11.  In every run of the process in traced mode, whatever the
    schedule of the workers: when no worker has stored to [tracer] before
    the main thread releases the Start Gate, the release comes after the
    main thread's [state_wait] has returned for the parent, the tracer,
    with the state [T (stopped)]. *)
Theorem start_gate_after_tracer_stopped (env : environment)
  (wenv : thread -> environment) (os_cond_signal : nat -> cond -> Z)
  (fuel : nat) (prog : list ascii) (sched : list (list thread))
  (pre post : list (actor * event)) :
  history (snd (process env wenv os_cond_signal fuel [prog] sched))
    = pre ++ (Main, EvUnlock gdbstop_mutex) :: post ->
  undisturbed pre ->
  exists a b, pre = a ++ (Main, tracer_stopped (os_getppid env)) :: b.
Proof.
  intros H Hpre.
  destruct (process_sequential env wenv os_cond_signal fuel [prog] sched)
    as [(d & Hd) _].
  rewrite H, (before_store_main pre post _ Hpre), <- app_assoc in Hd.
  destruct (run_trace env fuel [prog]) as (x & Hx & Hf).
  rewrite Hx in Hd.
  destruct (front_split _ _ _ _ _ Hd (fatal_no_unlock x gdbstop_mutex Hf))
    as (post' & Hm).
  destruct (main_stopped_before_start env fuel prog _ _ Hm) as (a & b & Hab).
  destruct (by_main_split pre a _ _ Hab) as (h1 & h2 & -> & _ & _).
  exists h1, h2. reflexivity.
Qed.

Lemma start_gate_after_tracer_stopped_witness :
  exists a b,
    firstn 11 (history (snd (process traced_env (fun _ => worker_env) (fun _ _ => 0) 5
                               [lit "watchthreads-reorder"] after_release)))
    = a ++ (Main, tracer_stopped 77) :: b.
Proof.
  apply (start_gate_after_tracer_stopped traced_env (fun _ => worker_env)
           (fun _ _ => 0) 5 (lit "watchthreads-reorder") after_release _
           (skipn 12 (history (snd (process traced_env (fun _ => worker_env)
                                      (fun _ _ => 0) 5
                                      [lit "watchthreads-reorder"] after_release))))).
  - vm_compute. reflexivity.
  - apply undisturbed_stores. vm_compute. reflexivity.
Defined.

(** X8.  In every run of the process in which no worker stores to
    [tracer] -- none runs the exit handler with the tracer recorded --
    whatever the command line, the schedule, the environment and the way
    the run ends, the signals sent by the main thread and the workers
    together are: none; or SIGSTOP to the parent; or SIGSTOP and then
    SIGCONT to the parent. *)
Theorem signals_follow_protocol (env : environment)
  (wenv : thread -> environment) (os_cond_signal : nat -> cond -> Z)
  (fuel : nat) (argv : list (list ascii)) (sched : list (list thread)) :
  let h := history (snd (process env wenv os_cond_signal fuel argv sched)) in
  let p := os_getppid env in
  undisturbed h ->
  kills (events h) = [] \/ kills (events h) = [EvKill p SIGSTOP] \/
  kills (events h) = [EvKill p SIGSTOP; EvKill p SIGCONT].
Proof.
  intros h p Hu. subst h p.
  destruct (process_sequential env wenv os_cond_signal fuel argv sched) as [_ Hall].
  destruct (Hall Hu) as (_ & _ & ->).
  apply (run_signals env fuel argv).
Qed.

Lemma signals_follow_protocol_witness :
  let h := history (snd (process traced_env (fun _ => worker_env) (fun _ _ => 0) 5
                           [lit "watchthreads-reorder"] after_release)) in
  kills (events h) = [] \/ kills (events h) = [EvKill 77 SIGSTOP] \/
  kills (events h) = [EvKill 77 SIGSTOP; EvKill 77 SIGCONT].
Proof.
  apply (signals_follow_protocol traced_env (fun _ => worker_env) (fun _ _ => 0) 5
           [lit "watchthreads-reorder"] after_release).
  apply undisturbed_stores. vm_compute. reflexivity.
Defined.

(** X13.  In every run of the process in which no worker stores to
    [tracer], when the main thread ends through [exit] -- by returning
    from [main] or on any of its fatal diagnostics -- the process has not
    left its tracer stopped: it has sent no signal, or SIGSTOP and then
    SIGCONT to its parent.  ([atexit (cleanup)], whose result the program
    does not check, registers the handler.) *)
Theorem exit_leaves_tracer_resumed (env : environment)
  (wenv : thread -> environment) (os_cond_signal : nat -> cond -> Z)
  (fuel : nat) (argv : list (list ascii)) (sched : list (list thread))
  (status : Z) :
  let P := process env wenv os_cond_signal fuel argv sched in
  fst P = Stop (Exit status) ->
  undisturbed (history (snd P)) ->
  kills (events (history (snd P))) = [] \/
  kills (events (history (snd P)))
  = [EvKill (os_getppid env) SIGSTOP; EvKill (os_getppid env) SIGCONT].
Proof.
  intros P Hexit Hu. subst P.
  destruct (process_sequential env wenv os_cond_signal fuel argv sched) as [_ Hall].
  destruct (Hall Hu) as (Ho & _ & ->).
  apply (run_exit_resumed env fuel argv status). rewrite <- Ho. exact Hexit.
Qed.

Lemma exit_leaves_tracer_resumed_witness :
  let h := history (snd (process traced_env (fun _ => worker_env) (fun _ _ => 0) 5
                           [lit "watchthreads-reorder"] after_release)) in
  kills (events h) = [] \/ kills (events h) = [EvKill 77 SIGSTOP; EvKill 77 SIGCONT].
Proof.
  apply (exit_leaves_tracer_resumed traced_env (fun _ => worker_env) (fun _ _ => 0) 5
           [lit "watchthreads-reorder"] after_release EXIT_SUCCESS).
  - vm_compute. reflexivity.
  - apply undisturbed_stores. vm_compute. reflexivity.
Defined.
